(** * BreathEasy SG: the scoring engine (v3, exhaust-volume model)

    A shallow embedding of [scoring.ts]: the weather and time modifiers, the
    traffic exhaust model, the polygon zone classifiers, the static grid
    lookup, the point scorer [computeScore] and the route rating [rateRoute].

    Numbers.  A JavaScript [number] is modelled as a mathematical real:
    arithmetic is exact, [Math.sqrt], [Math.cos] and [Math.PI] are the real
    [sqrt], [cos] and [PI], and [Math.round x] is [floor (x + 1/2)].  The two
    places where the code relies on a value that is not a real are modelled
    explicitly: the sentinel [Infinity] of the running minima (type [dist])
    and absent object fields (type [option]), whose arithmetic gives [NaN] in
    the source.  The rounding of double arithmetic is not modelled: an
    equation between two real-valued results is a statement about exact
    arithmetic. *)

From Stdlib Require Import Reals Lra Lia List String Ascii Bool ZArith.
From Stdlib Require Import DecimalString.
Import ListNotations.

Local Open Scope R_scope.
Local Open Scope string_scope.
Local Open Scope list_scope.

(** ** JavaScript numbers *)

Module Js.

(** The comparison operators, as booleans. *)
Definition ltb (x y : R) : bool := if Rlt_dec x y then true else false.
Definition leb (x y : R) : bool := if Rle_dec x y then true else false.
Definition gtb (x y : R) : bool := ltb y x.
Definition geb (x y : R) : bool := leb y x.
Definition eqb (x y : R) : bool := if Req_dec_T x y then true else false.

(** [Math.round]: the nearest integer, halves rounded up. *)
Definition Math_round (x : R) : R := IZR (Zfloor (x + / 2)).

Definition Math_max (x y : R) : R := Rmax x y.
Definition Math_min (x y : R) : R := Rmin x y.
Definition Math_abs (x : R) : R := Rabs x.
Definition Math_sqrt (x : R) : R := sqrt x.
Definition Math_cos (x : R) : R := cos x.
Definition Math_PI : R := PI.

(** Truthiness of a numeric field: [!x] holds for [0] and for an absent
    field ([undefined]). *)
Definition falsy (x : option R) : bool :=
  match x with
  | None => true
  | Some v => eqb v 0
  end.

(** A running minimum that starts at [Infinity]. *)
Inductive dist : Type :=
| Infinity : dist
| Finite : R -> dist.

(** [d < m] where [m] may still be [Infinity]. *)
Definition lt_dist (d : R) (m : dist) : bool :=
  match m with
  | Infinity => true
  | Finite v => ltb d v
  end.

(** [m < bound] for a finite [bound]. *)
Definition dist_lt (m : dist) (bound : R) : bool :=
  match m with
  | Infinity => false
  | Finite v => ltb v bound
  end.

(** Template-literal rendering of an integral number. *)
Definition string_of_integral (x : R) : string :=
  NilZero.string_of_int (Z.to_int (Zfloor x)).

End Js.

Declare Scope js_scope.
Delimit Scope js_scope with js.
Infix "<?" := Js.ltb (at level 70, no associativity) : js_scope.
Infix "<=?" := Js.leb (at level 70, no associativity) : js_scope.
Infix ">?" := Js.gtb (at level 70, no associativity) : js_scope.
Infix ">=?" := Js.geb (at level 70, no associativity) : js_scope.
Infix "=?" := Js.eqb (at level 70, no associativity) : js_scope.
Local Open Scope js_scope.

(** ** JavaScript strings (ASCII case mapping) *)

Module JsString.

Definition upper_ascii (c : ascii) : ascii :=
  let n := nat_of_ascii c in
  if (Nat.leb 97 n && Nat.leb n 122)%bool then ascii_of_nat (n - 32) else c.

Definition lower_ascii (c : ascii) : ascii :=
  let n := nat_of_ascii c in
  if (Nat.leb 65 n && Nat.leb n 90)%bool then ascii_of_nat (n + 32) else c.

Fixpoint map_string (f : ascii -> ascii) (s : string) : string :=
  match s with
  | EmptyString => EmptyString
  | String c s' => String (f c) (map_string f s')
  end.

(** Strings are byte strings; on a string of ASCII characters
    [String.prototype.toUpperCase] maps the letters a-z and nothing else, which
    is what [toUpperCase] does.  The Unicode case mapping of other characters
    is not modelled: statements that depend on the upper-case form of a name
    are made for names of ASCII characters. *)
Definition toUpperCase (s : string) : string := map_string upper_ascii s.
Definition toLowerCase (s : string) : string := map_string lower_ascii s.

Fixpoint startsWith (s p : string) : bool :=
  match p, s with
  | EmptyString, _ => true
  | String c p', String d s' => (Ascii.eqb c d && startsWith s' p')%bool
  | String _ _, EmptyString => false
  end.

(** [s.includes(p)]. *)
Fixpoint includes (s p : string) : bool :=
  (startsWith s p ||
   match s with
   | EmptyString => false
   | String _ s' => includes s' p
   end)%bool.

End JsString.

(** ** Types ([types/index.ts]) *)

Inductive ScoreBand : Type :=
| excellent | good | moderate | poor | hazardous.

Record GridCell : Type := mkGridCell {
  cell_lat : R;
  cell_lng : R;
  base : R
}.

Record GridBounds : Type := mkGridBounds {
  lat_min : R; lat_max : R; lng_min : R; lng_max : R
}.

Record StaticGrid : Type := mkStaticGrid {
  resolution_m : R;
  bounds : GridBounds;
  cells : list GridCell
}.

Record CurrentConditions : Type := mkConditions {
  pm25_value : R;
  pm25_band : ScoreBand;
  pm25_regions : list (string * R);
  wind_speed : R;
  wind_direction : string;
  temperature : R;
  rainfall_isRaining : bool;
  rainfall_intensity : string;
  humidity : R;
  timestamp : string
}.

(** A road (sub-)segment.  The coordinates, the road name, [frc] and
    [congestionRatio] may be absent at run time. *)
Record TrafficSpeedBand : Type := mkBand {
  linkId : string;
  roadName : option string;
  speedBand : R;
  startLat : option R;
  startLng : option R;
  endLat : option R;
  endLng : option R;
  frc : option R;
  congestionRatio : option R
}.

Record ScoredPoint : Type := mkScoredPoint {
  sp_lat : R;
  sp_lng : R;
  distanceM : R;
  sp_score : R;
  sp_color : string;
  sp_band : ScoreBand;
  sp_trafficMod : option R;
  industrialZone : bool;
  greenZone : bool;
  nearGreenZone : bool
}.

Record Factor : Type := mkFactor {
  f_label : string;
  pct : R;
  detail : string
}.

Record RouteRating : Type := mkRouteRating {
  overall : R;
  trafficExposure : R;
  airQuality : R;
  greenCorridor : R;
  consistency : R;
  summary : string;
  factors : list Factor
}.

(** ** Score bands *)

Record BandRow : Type := mkBandRow {
  b_max : R;
  b_band : ScoreBand;
  b_label : string;
  b_color : string
}.

Definition BANDS : list BandRow :=
  [ mkBandRow 2 excellent "Excellent" "#4ecdc4";
    mkBandRow 3.5 good "Good" "#a8e6a3";
    mkBandRow 5 moderate "Fair" "#f7d794";
    mkBandRow 7 poor "Poor" "#f8a978";
    mkBandRow 10 hazardous "Avoid" "#fc5c65" ].

Definition getBand (score : R) : BandRow :=
  match find (fun b => score <=? b_max b) BANDS with
  | Some b => b
  | None => mkBandRow 10 hazardous "Avoid" "#fc5c65"
  end.

(** ** Weather and time modifiers *)

Definition pm25Modifier (pm25 : R) : R :=
  if pm25 <=? 12 then 0
  else if pm25 <=? 25 then 0.5
  else if pm25 <=? 37 then 1.0
  else if pm25 <=? 55 then 2.0
  else if pm25 <=? 75 then 3.0
  else 4.0.

Definition windModifier (speedKmh : R) : R :=
  if speedKmh >=? 20 then -1.0
  else if speedKmh >=? 12 then -0.5
  else if speedKmh >=? 6 then 0
  else if speedKmh >=? 2 then 0.3
  else 0.5.

Definition timeModifier (hour : R) : R :=
  if ((hour >=? 7) && (hour <=? 9))%bool then 1.5
  else if ((hour >=? 17) && (hour <=? 19))%bool then 1.5
  else if ((hour >=? 6) && (hour <=? 10))%bool then 0.8
  else if ((hour >=? 16) && (hour <=? 20))%bool then 0.8
  else if ((hour >=? 0) && (hour <=? 5))%bool then -0.5
  else 0.3.

Definition rainModifier (isRaining : bool) (intensity : string) : R :=
  if negb isRaining then 0
  else if String.eqb intensity "Heavy" then -2.0
  else if String.eqb intensity "Moderate" then -1.5
  else if String.eqb intensity "Light" then -1.0
  else -0.5.

(** ** Traffic / exhaust model *)

Definition DEG_TO_M : R := 111320.
Definition TRAFFIC_RADIUS : R := 400.

Definition EXPRESSWAYS : list string :=
  ["AYE"; "PIE"; "CTE"; "ECP"; "KPE"; "SLE"; "TPE"; "BKE"; "MCE"; "KJE"].

(** [!name] holds for an absent and for an empty road name. *)
Definition inferFrcFromRoadName (name : option string) : R :=
  match name with
  | None => 3
  | Some EmptyString => 3
  | Some n =>
      let upper := JsString.toUpperCase n in
      if existsb (fun e => JsString.includes upper e) EXPRESSWAYS then 0
      else if (JsString.includes upper "EXPRESSWAY" ||
               JsString.includes upper "HIGHWAY")%bool then 0
      else 2
  end.

Definition roadVolumeBaseline (frc : R) : R :=
  if frc <=? 1 then 1.0
  else if frc <=? 2 then 0.7
  else if frc <=? 3 then 0.5
  else if frc <=? 4 then 0.25
  else if frc <=? 5 then 0.12
  else 0.05.

Definition congestionEmissionMultiplier (congestionRatio : R) : R :=
  if congestionRatio <? 0.25 then 3.0
  else if congestionRatio <? 0.4 then 2.5
  else if congestionRatio <? 0.6 then 1.8
  else if congestionRatio <? 0.8 then 1.3
  else if congestionRatio <? 0.95 then 1.1
  else 1.0.

Definition pointToSegmentDist (px py ax ay bx by_ cosLat : R) : R :=
  let dx := (bx - ax) * DEG_TO_M * cosLat in
  let dy := (by_ - ay) * DEG_TO_M in
  let lenSq := dx * dx + dy * dy in
  let ex := (px - ax) * DEG_TO_M * cosLat in
  let ey := (py - ay) * DEG_TO_M in
  if lenSq =? 0 then Js.Math_sqrt (ex * ex + ey * ey)
  else
    let t := Js.Math_max 0 (Js.Math_min 1 ((ex * dx + ey * dy) / lenSq)) in
    let projX := ex - t * dx in
    let projY := ey - t * dy in
    Js.Math_sqrt (projX * projX + projY * projY).

(** One iteration of the loop of [trafficModifier] over [speedBands]:
    the new value of [worstExhaust].  When an end coordinate is absent the
    distance is [NaN] in the source, so neither [dist >= TRAFFIC_RADIUS] nor
    [exhaust > worstExhaust] holds and [worstExhaust] is left as it is. *)
Definition trafficStep (lat lng cosLat : R) (worstExhaust : R)
    (band : TrafficSpeedBand) : R :=
  if (Js.falsy (startLat band) || Js.falsy (startLng band))%bool
  then worstExhaust
  else
    match startLat band, startLng band, endLat band, endLng band with
    | Some sLat, Some sLng, Some eLat, Some eLng =>
        let dist := pointToSegmentDist lat lng sLat sLng eLat eLng cosLat in
        if dist >=? TRAFFIC_RADIUS then worstExhaust
        else
          let distanceFactor := 1 - dist / TRAFFIC_RADIUS in
          let frc :=
            match frc band with
            | Some f => f
            | None => inferFrcFromRoadName (roadName band)
            end in
          let congestion :=
            match congestionRatio band with
            | Some c => c
            | None =>
                if frc <=? 1 then Js.Math_min 1 (speedBand band / 8)
                else if speedBand band <=? 2 then 0.4
                else if speedBand band <=? 4 then 0.7
                else 0.95
            end in
          let volume := roadVolumeBaseline frc in
          let emission := congestionEmissionMultiplier congestion in
          let exhaust := volume * emission * distanceFactor in
          if exhaust >? worstExhaust then exhaust else worstExhaust
    | _, _, _, _ => worstExhaust
    end.

Definition trafficModifier (lat lng : R) (speedBands : list TrafficSpeedBand) : R :=
  match speedBands with
  | [] => 0
  | _ =>
      let cosLat := Js.Math_cos ((lat * Js.Math_PI) / 180) in
      let worstExhaust := fold_left (trafficStep lat lng cosLat) speedBands 0 in
      let penalty := Js.Math_min 4.0 (worstExhaust * 3.5) in
      Js.Math_round (penalty * 10) / 10
  end.

(** ** Zones *)

Record Zone : Type := mkZone {
  z_name : string;
  ring : list (R * R)
}.

Definition GREEN_BUFFER_M : R := 150.

Definition GREEN_ZONES : list Zone :=
  [ mkZone "East Coast Park"
      [ (1.296, 103.868); (1.293, 103.880); (1.293, 103.900); (1.295, 103.920);
        (1.297, 103.940); (1.299, 103.950); (1.302, 103.955); (1.305, 103.950);
        (1.304, 103.940); (1.303, 103.920); (1.301, 103.900); (1.300, 103.880);
        (1.300, 103.868) ];
    mkZone "Gardens by the Bay"
      [ (1.278, 103.861); (1.278, 103.870); (1.284, 103.870); (1.284, 103.861) ];
    mkZone "Marina Bay Promenade"
      [ (1.284, 103.852); (1.284, 103.861); (1.290, 103.861); (1.290, 103.852) ];
    mkZone "Botanic Gardens"
      [ (1.310, 103.813); (1.310, 103.820); (1.322, 103.820); (1.322, 103.813) ];
    mkZone "MacRitchie Reservoir"
      [ (1.335, 103.820); (1.335, 103.840); (1.348, 103.840); (1.355, 103.835);
        (1.355, 103.825); (1.348, 103.820) ];
    mkZone "Bedok Reservoir Park"
      [ (1.336, 103.930); (1.336, 103.940); (1.342, 103.940); (1.342, 103.930) ];
    mkZone "Pandan Reservoir Park"
      [ (1.305, 103.735); (1.305, 103.748); (1.315, 103.748); (1.315, 103.735) ];
    mkZone "Jurong Lake Gardens"
      [ (1.330, 103.720); (1.330, 103.740); (1.340, 103.740); (1.345, 103.735);
        (1.345, 103.725); (1.340, 103.720) ];
    mkZone "West Coast Park"
      [ (1.280, 103.758); (1.280, 103.770); (1.287, 103.770); (1.287, 103.758) ];
    mkZone "Pasir Ris Park"
      [ (1.373, 103.942); (1.373, 103.960); (1.382, 103.960); (1.382, 103.942) ];
    mkZone "Bishan-AMK Park"
      [ (1.356, 103.843); (1.356, 103.852); (1.365, 103.852); (1.365, 103.843) ];
    mkZone "Fort Canning Park"
      [ (1.293, 103.843); (1.293, 103.849); (1.298, 103.849); (1.298, 103.843) ];
    mkZone "Labrador Nature Reserve"
      [ (1.264, 103.800); (1.264, 103.808); (1.270, 103.808); (1.270, 103.800) ];
    mkZone "Kent Ridge Park"
      [ (1.282, 103.787); (1.282, 103.796); (1.290, 103.796); (1.290, 103.787) ];
    mkZone "Seletar Reservoir"
      [ (1.393, 103.815); (1.393, 103.830); (1.402, 103.830); (1.402, 103.815) ];
    mkZone "Punggol Waterway Park"
      [ (1.404, 103.898); (1.404, 103.914); (1.412, 103.914); (1.412, 103.898) ];
    mkZone "Coney Island"
      [ (1.411, 103.915); (1.411, 103.930); (1.418, 103.930); (1.418, 103.915) ];
    mkZone "Tampines Eco Green"
      [ (1.355, 103.952); (1.355, 103.960); (1.362, 103.960); (1.362, 103.952) ];
    mkZone "Southern Ridges"
      [ (1.270, 103.800); (1.275, 103.818); (1.280, 103.818); (1.275, 103.800) ];
    mkZone "Bukit Timah Nature Reserve"
      [ (1.348, 103.772); (1.348, 103.782); (1.358, 103.782); (1.358, 103.772) ] ].

Definition INDUSTRIAL_ZONES : list Zone :=
  [ mkZone "Jurong Industrial Estate"
      [ (103.690, 1.308); (103.720, 1.306); (103.730, 1.312); (103.730, 1.335);
        (103.720, 1.340); (103.705, 1.342); (103.690, 1.335) ];
    mkZone "Tuas Industrial"
      [ (103.618, 1.305); (103.655, 1.303); (103.660, 1.318); (103.655, 1.338);
        (103.635, 1.342); (103.618, 1.330) ];
    mkZone "Tuas South"
      [ (103.610, 1.280); (103.645, 1.278); (103.650, 1.292); (103.640, 1.302);
        (103.615, 1.300) ];
    mkZone "Pioneer / Gul"
      [ (103.680, 1.300); (103.700, 1.298); (103.705, 1.310); (103.700, 1.318);
        (103.685, 1.318); (103.678, 1.310) ];
    mkZone "Pandan Loop / Penjuru"
      [ (103.725, 1.290); (103.750, 1.288); (103.755, 1.298); (103.752, 1.310);
        (103.740, 1.315); (103.725, 1.310) ];
    mkZone "Jalan Buroh Industrial"
      [ (103.720, 1.285); (103.740, 1.283); (103.742, 1.292); (103.735, 1.295);
        (103.720, 1.293) ];
    mkZone "Bukit Batok Industrial"
      [ (103.740, 1.340); (103.760, 1.338); (103.765, 1.348); (103.758, 1.355);
        (103.742, 1.352) ];
    mkZone "Woodlands Industrial"
      [ (103.768, 1.430); (103.790, 1.428); (103.795, 1.440); (103.788, 1.448);
        (103.770, 1.445) ];
    mkZone "Senoko Industrial"
      [ (103.792, 1.443); (103.815, 1.440); (103.820, 1.452); (103.812, 1.458);
        (103.795, 1.455) ];
    mkZone "Kranji Industrial"
      [ (103.740, 1.418); (103.758, 1.416); (103.762, 1.425); (103.755, 1.432);
        (103.742, 1.430) ];
    mkZone "Mandai Industrial"
      [ (103.760, 1.398); (103.778, 1.396); (103.782, 1.405); (103.775, 1.412);
        (103.762, 1.408) ];
    mkZone "Seletar Aerospace"
      [ (103.858, 1.408); (103.878, 1.406); (103.882, 1.416); (103.875, 1.422);
        (103.860, 1.418) ];
    mkZone "Kallang/Kolam Ayer Industrial"
      [ (103.865, 1.315); (103.882, 1.313); (103.886, 1.326); (103.878, 1.332);
        (103.866, 1.328) ];
    mkZone "Tai Seng Industrial"
      [ (103.880, 1.338); (103.898, 1.336); (103.902, 1.346); (103.895, 1.352);
        (103.882, 1.348) ];
    mkZone "Paya Lebar Industrial"
      [ (103.883, 1.338); (103.898, 1.336); (103.902, 1.348); (103.896, 1.354);
        (103.884, 1.350) ];
    mkZone "Defu Industrial"
      [ (103.870, 1.358); (103.892, 1.356); (103.896, 1.366); (103.888, 1.372);
        (103.872, 1.368) ];
    mkZone "Ubi / Eunos Industrial"
      [ (103.892, 1.318); (103.910, 1.316); (103.914, 1.328); (103.908, 1.334);
        (103.894, 1.330) ];
    mkZone "Changi Business Park"
      [ (103.958, 1.328); (103.978, 1.326); (103.982, 1.340); (103.975, 1.345);
        (103.960, 1.342) ];
    mkZone "Loyang Industrial"
      [ (103.960, 1.358); (103.980, 1.356); (103.984, 1.366); (103.978, 1.372);
        (103.962, 1.368) ];
    mkZone "Tanjong Kling Industrial"
      [ (103.725, 1.275); (103.742, 1.273); (103.748, 1.283); (103.740, 1.290);
        (103.726, 1.287) ];
    mkZone "Keppel / Tanjong Pagar Terminal"
      [ (103.832, 1.260); (103.848, 1.258); (103.852, 1.268); (103.845, 1.274);
        (103.834, 1.270) ] ].

Definition INDUSTRIAL_BUFFER_M : R := 300.

(** The pairs [(ring[i], ring[j])] visited by
    [for (let i = 0, j = ring.length - 1; i < ring.length; j = i++)]:
    every vertex with its cyclic predecessor. *)
Definition ring_edges (ring : list (R * R)) : list ((R * R) * (R * R)) :=
  match ring with
  | [] => []
  | v :: _ => combine ring (last ring v :: removelast ring)
  end.

(** The ring is read as [(x, y)] pairs, [x] against [lng] and [y] against
    [lat]. *)
Definition pointInPolygon (lat lng : R) (ring : list (R * R)) : bool :=
  fold_left
    (fun (inside : bool) (e : (R * R) * (R * R)) =>
       let '((xi, yi), (xj, yj)) := e in
       if (negb (Bool.eqb (yi >? lat) (yj >? lat)) &&
           (lng <? (xj - xi) * (lat - yi) / (yj - yi) + xi))%bool
       then negb inside else inside)
    (ring_edges ring) false.

Definition distToPolygonEdge (lat lng : R) (ring : list (R * R)) (cosLat : R)
    : Js.dist :=
  fold_left
    (fun (minDist : Js.dist) (e : (R * R) * (R * R)) =>
       let '(vi, vj) := e in
       let d := pointToSegmentDist lat lng (snd vi) (fst vi) (snd vj) (fst vj) cosLat in
       if Js.lt_dist d minDist then Js.Finite d else minDist)
    (ring_edges ring) Js.Infinity.

Record GreenCheck : Type := mkGreenCheck {
  inPark : bool;
  nearPark : bool
}.

(** The loop of [greenZoneCheck] over the zones still to visit. *)
Fixpoint greenZoneScan (zones : list Zone) (lat lng cosLat : R) : GreenCheck :=
  match zones with
  | [] => mkGreenCheck false false
  | zone :: rest =>
      if pointInPolygon lat lng (ring zone) then mkGreenCheck true true
      else
        let dist := distToPolygonEdge lat lng (ring zone) cosLat in
        if Js.dist_lt dist GREEN_BUFFER_M then mkGreenCheck false true
        else greenZoneScan rest lat lng cosLat
  end.

Definition greenZoneCheck (lat lng cosLat : R) : GreenCheck :=
  greenZoneScan GREEN_ZONES lat lng cosLat.

Record IndustrialMod : Type := mkIndustrialMod {
  addition : R;
  multiplier : R
}.

(** The loop of [industrialModifier] over the zones still to visit. *)
Fixpoint industrialScan (zones : list Zone) (lat lng cosLat : R) : IndustrialMod :=
  match zones with
  | [] => mkIndustrialMod 0 1
  | zone :: rest =>
      if pointInPolygon lat lng (ring zone) then mkIndustrialMod 1.2 1.8
      else
        match distToPolygonEdge lat lng (ring zone) cosLat with
        | Js.Finite dist =>
            if dist <? INDUSTRIAL_BUFFER_M then
              let factor := 1 - dist / INDUSTRIAL_BUFFER_M in
              mkIndustrialMod (0.8 * factor) (1 + 0.6 * factor)
            else industrialScan rest lat lng cosLat
        | Js.Infinity => industrialScan rest lat lng cosLat
        end
  end.

Definition industrialModifier (lat lng cosLat : R) : IndustrialMod :=
  industrialScan INDUSTRIAL_ZONES lat lng cosLat.

(** ** Grid lookup *)

(** The loop of [findNearestCell] over the cells still to scan, with the
    running [closest] and [minDist]; [break] ends the scan. *)
Fixpoint nearestScan (lat lng : R) (cs : list GridCell)
    (closest : option GridCell) (minDist : Js.dist) : option GridCell :=
  match cs with
  | [] => closest
  | cell :: rest =>
      let d := Js.Math_abs (cell_lat cell - lat) + Js.Math_abs (cell_lng cell - lng) in
      let '(minDist', closest') :=
        if Js.lt_dist d minDist then (Js.Finite d, Some cell)
        else (minDist, closest) in
      if d <? 0.00001 then closest'
      else nearestScan lat lng rest closest' minDist'
  end.

Definition findNearestCell (lat lng : R) (grid : option StaticGrid)
    : option GridCell :=
  match grid with
  | None => None
  | Some g =>
      match cells g with
      | [] => None
      | cs => nearestScan lat lng cs None Js.Infinity
      end
  end.

(** ** Score a single point *)

Record Breakdown : Type := mkBreakdown {
  bd_staticBase : R;
  bd_pm25Modifier : R;
  bd_windModifier : R;
  bd_timeModifier : R;
  bd_rainModifier : R;
  bd_trafficModifier : R
}.

Record ScoreResult : Type := mkScoreResult {
  score : R;
  band : ScoreBand;
  label : string;
  color : string;
  trafficMod : R;
  isIndustrial : bool;
  isGreenZone : bool;
  isNearGreenZone : bool;
  breakdown : Breakdown;
  recommendation : string
}.

(** [clockHour] stands for [new Date().getHours()], read only when [hour]
    is not passed. *)
Definition computeScore (clockHour : R) (lat lng : R)
    (conditions : option CurrentConditions) (grid : option StaticGrid)
    (hour : option R) (speedBands : option (list TrafficSpeedBand))
    : ScoreResult :=
  let currentHour := match hour with Some h => h | None => clockHour end in
  let staticBase := 3.0 in
  let staticBase :=
    match grid with
    | Some _ =>
        match findNearestCell lat lng grid with
        | Some cell => base cell
        | None => staticBase
        end
    | None => staticBase
    end in
  let pm25Mod :=
    match conditions with Some c => pm25Modifier (pm25_value c) | None => 0 end in
  let windMod :=
    match conditions with Some c => windModifier (wind_speed c) | None => 0 end in
  let timeMod := timeModifier currentHour in
  let rainMod :=
    match conditions with
    | Some c => rainModifier (rainfall_isRaining c) (rainfall_intensity c)
    | None => 0
    end in
  let baseTrafMod :=
    match speedBands with Some sb => trafficModifier lat lng sb | None => 0 end in
  let cosLat := Js.Math_cos ((lat * Js.Math_PI) / 180) in
  let indust := industrialModifier lat lng cosLat in
  let trafficMod :=
    Js.Math_min 4.5 (baseTrafMod * multiplier indust + addition indust) in
  let green := greenZoneCheck lat lng cosLat in
  let staticBase :=
    if inPark green then Js.Math_min staticBase 1.2
    else if nearPark green then Js.Math_min staticBase 2.0
    else staticBase in
  let raw := staticBase + pm25Mod + windMod + timeMod + rainMod + trafficMod in
  let score := Js.Math_max 1 (Js.Math_min 10 (Js.Math_round (raw * 10) / 10)) in
  let band := getBand score in
  {| score := score;
     band := b_band band;
     label := b_label band;
     color := b_color band;
     trafficMod := Js.Math_round (trafficMod * 10) / 10;
     isIndustrial := addition indust >? 0;
     isGreenZone := inPark green;
     isNearGreenZone := nearPark green;
     breakdown :=
       {| bd_staticBase := Js.Math_round (staticBase * 10) / 10;
          bd_pm25Modifier := Js.Math_round (pm25Mod * 10) / 10;
          bd_windModifier := Js.Math_round (windMod * 10) / 10;
          bd_timeModifier := Js.Math_round (timeMod * 10) / 10;
          bd_rainModifier := Js.Math_round (rainMod * 10) / 10;
          bd_trafficModifier := Js.Math_round (trafficMod * 10) / 10 |};
     recommendation := "" |}.

(** ** Score a route at 50 m intervals *)

Record RoutePoint : Type := mkRoutePoint {
  rp_lat : R;
  rp_lng : R;
  rp_distanceM : R
}.

Definition scoreRoutePoints (clockHour : R) (interpolated : list RoutePoint)
    (conditions : option CurrentConditions) (grid : option StaticGrid)
    (speedBands : list TrafficSpeedBand) : list ScoredPoint :=
  map (fun p =>
         let r := computeScore clockHour (rp_lat p) (rp_lng p) conditions grid
                    None (Some speedBands) in
         {| sp_lat := rp_lat p; sp_lng := rp_lng p; distanceM := rp_distanceM p;
            sp_score := score r; sp_color := color r; sp_band := band r;
            sp_trafficMod := Some (trafficMod r);
            industrialZone := isIndustrial r;
            greenZone := isGreenZone r;
            nearGreenZone := isNearGreenZone r |})
      interpolated.

(** ** Route rating *)

Definition sum_list (l : list R) : R := fold_left Rplus l 0.

Definition count {A : Type} (f : A -> bool) (l : list A) : R :=
  INR (List.length (filter f l)).

(** [Math.max(...l)] for the non-empty array [first :: rest]. *)
Definition Math_max_spread (first : R) (rest : list R) : R :=
  fold_left Js.Math_max rest first.

(** [Array.prototype.sort] with the comparator [(a, b) => a.pct - b.pct]:
    a stable sort by ascending [pct]. *)
Fixpoint insert_by_pct (x : Factor) (l : list Factor) : list Factor :=
  match l with
  | [] => [x]
  | y :: l' => if pct x <=? pct y then x :: y :: l' else y :: insert_by_pct x l'
  end.

Definition sort_by_pct (l : list Factor) : list Factor :=
  fold_right insert_by_pct [] l.

Definition tierDetail (p : R) (d80 d60 d40 d0 : string) : string :=
  if p >=? 80 then d80 else if p >=? 60 then d60 else if p >=? 40 then d40 else d0.

Definition rateRoute (scoredPoints : list ScoredPoint) (grid : option StaticGrid)
    : RouteRating :=
  match scoredPoints with
  | [] =>
      {| overall := 50; trafficExposure := 50; airQuality := 50;
         greenCorridor := 50; consistency := 50; summary := "No data";
         factors := [] |}
  | p0 :: ps =>
      let len := INR (List.length scoredPoints) in
      let scores := map sp_score scoredPoints in
      let avgScore := sum_list scores / len in
      let basescores :=
        map (fun p =>
               match grid with
               | None => 3
               | Some _ =>
                   match findNearestCell (sp_lat p) (sp_lng p) grid with
                   | Some cell => base cell
                   | None => 3
                   end
               end) scoredPoints in
      (* Traffic Exposure (40%) *)
      let tm := fun p => match sp_trafficMod p with Some m => m | None => 0 end in
      let trafficMods := map tm scoredPoints in
      let avgTrafficMod := sum_list trafficMods / len in
      let maxTrafficMod := Math_max_spread (tm p0) (map tm ps) in
      let trafficPct :=
        Js.Math_round (Js.Math_max 0 (Js.Math_min 100
          (100 - (avgTrafficMod * 0.6 + maxTrafficMod * 0.4) * 25))) in
      (* Air Quality (30%) *)
      let airPct :=
        Js.Math_round (Js.Math_max 0 (Js.Math_min 100 (((10 - avgScore) / 9) * 100))) in
      (* Green Corridor (20%) *)
      let greenFromGrid := count (fun b => b <=? 1.5) basescores in
      let parkFromGrid := count (fun b => b <=? 2.5) basescores in
      let greenFromZones := count greenZone scoredPoints in
      let nearGreenFromZones := count nearGreenZone scoredPoints in
      let greenCount := Js.Math_max greenFromGrid greenFromZones in
      let parkCount := Js.Math_max parkFromGrid nearGreenFromZones in
      let blen := INR (List.length basescores) in
      let greenPct :=
        Js.Math_round (Js.Math_min 100
          ((greenCount / blen) * 100 * 0.7 + (parkCount / blen) * 100 * 0.3)) in
      (* Consistency (10%) *)
      let variance :=
        fold_left (fun sum s => sum + (s - avgScore) ^ 2) scores 0 / len in
      let stdDev := Js.Math_sqrt variance in
      let consistencyPct :=
        Js.Math_round (Js.Math_max 0 (Js.Math_min 100 ((1 - stdDev / 3) * 100))) in
      (* Industrial zone exposure *)
      let industrialCount := count industrialZone scoredPoints in
      let industrialPct := Js.Math_round ((industrialCount / len) * 100) in
      let overall :=
        Js.Math_round (trafficPct * 0.4 + airPct * 0.3 + greenPct * 0.2
                       + consistencyPct * 0.1) in
      let trafficDetail :=
        tierDetail trafficPct "Minimal road exhaust exposure"
          "Some road-adjacent stretches" "Significant traffic exposure"
          "Heavy traffic along much of the route" in
      let industrialNote :=
        if industrialPct >? 0
        then (" (" ++ Js.string_of_integral industrialPct ++ "% near industrial zones)")%string
        else "" in
      let factors :=
        [ mkFactor "Traffic Exposure" trafficPct (trafficDetail ++ industrialNote)%string;
          mkFactor "Air Quality" airPct
            (tierDetail airPct "Clean air throughout" "Generally good air"
               "Moderate pollution levels" "Poor air quality conditions");
          mkFactor "Green Corridor" greenPct
            (let zonePct := Js.Math_round ((greenFromZones / len) * 100) in
             let base :=
               tierDetail greenPct "Mostly through parks and green space"
                 "Good mix of greenery" "Some green sections"
                 "Mostly urban, limited greenery" in
             if zonePct >? 0
             then (base ++ " (" ++ Js.string_of_integral zonePct ++ "% in known parks)")%string
             else base);
          mkFactor "Consistency" consistencyPct
            (tierDetail consistencyPct "Even conditions throughout"
               "Mostly consistent" "Some bad patches along the way"
               "Quality varies a lot — expect bad stretches") ] in
      let summary :=
        if overall >=? 85
        then "Excellent route — clean air, low traffic, great for hard efforts."
        else if overall >=? 70 then "Good route for running with minor compromises."
        else if overall >=? 55 then "Decent but has some traffic or pollution exposure."
        else if overall >=? 40 then "Below average — consider alternatives if available."
        else "Poor conditions — heavy traffic and pollution exposure." in
      let summary :=
        match sort_by_pct factors with
        | worst :: _ =>
            if pct worst <? 60
            then (summary ++ " Main concern: "
                  ++ JsString.toLowerCase (detail worst) ++ ".")%string
            else summary
        | [] => summary
        end in
      {| overall := overall; trafficExposure := trafficPct; airQuality := airPct;
         greenCorridor := greenPct; consistency := consistencyPct;
         summary := summary; factors := factors |}
  end.

(** * Vocabulary of the statements *)

(** Two condition records that differ at most in [pm25.value]. *)
Definition same_but_pm25_value (c1 c2 : CurrentConditions) : Prop :=
  pm25_band c1 = pm25_band c2 /\
  pm25_regions c1 = pm25_regions c2 /\
  wind_speed c1 = wind_speed c2 /\
  wind_direction c1 = wind_direction c2 /\
  temperature c1 = temperature c2 /\
  rainfall_isRaining c1 = rainfall_isRaining c2 /\
  rainfall_intensity c1 = rainfall_intensity c2 /\
  humidity c1 = humidity c2 /\
  timestamp c1 = timestamp c2.

(** Sample inputs. *)

Definition conditions_pm25_10 : CurrentConditions :=
  mkConditions 10 excellent [] 8 "NE" 30 false "" 70 "2024-01-01T08:00:00Z".

Definition conditions_pm25_60 : CurrentConditions :=
  mkConditions 60 excellent [] 8 "NE" 30 false "" 70 "2024-01-01T08:00:00Z".

(** ** Traffic model *)

(** The guard at the head of the loop of [trafficModifier]: the start
    latitude or the start longitude is absent or zero. *)
Definition guardSkips (band : TrafficSpeedBand) : bool :=
  (Js.falsy (startLat band) || Js.falsy (startLng band))%bool.

(** Invalid segments as the data model of the specification defines them:
    one of the four coordinates is absent or zero. *)
Definition invalidSegment (band : TrafficSpeedBand) : bool :=
  (Js.falsy (startLat band) || Js.falsy (startLng band) ||
   Js.falsy (endLat band) || Js.falsy (endLng band))%bool.

(** The point-to-segment distance of a band, when its four coordinates are
    present. *)
Definition segmentDistance (lat lng : R) (band : TrafficSpeedBand) : option R :=
  match startLat band, startLng band, endLat band, endLng band with
  | Some sLat, Some sLng, Some eLat, Some eLng =>
      Some (pointToSegmentDist lat lng sLat sLng eLat eLng
              (Js.Math_cos ((lat * Js.Math_PI) / 180)))
  | _, _, _, _ => None
  end.

Definition resolvedFrc (band : TrafficSpeedBand) : R :=
  match frc band with
  | Some f => f
  | None => inferFrcFromRoadName (roadName band)
  end.

Definition resolvedCongestion (band : TrafficSpeedBand) : R :=
  match congestionRatio band with
  | Some c => c
  | None =>
      if resolvedFrc band <=? 1 then Js.Math_min 1 (speedBand band / 8)
      else if speedBand band <=? 2 then 0.4
      else if speedBand band <=? 4 then 0.7
      else 0.95
  end.

(** The exhaust value of a qualifying segment: the guard lets it through, its
    distance is defined and under the radius.
    [roadVolume(frc) * emissionMultiplier(congestion) * distanceFactor]. *)
Definition segmentExhaust (lat lng : R) (band : TrafficSpeedBand) : option R :=
  if guardSkips band then None
  else
    match segmentDistance lat lng band with
    | Some dist =>
        if dist <? TRAFFIC_RADIUS
        then Some (roadVolumeBaseline (resolvedFrc band)
                   * congestionEmissionMultiplier (resolvedCongestion band)
                   * (1 - dist / TRAFFIC_RADIUS))
        else None
    | None => None
    end.

(** The exhaust values of the qualifying segments of a list, in order. *)
Fixpoint qualifyingExhausts (lat lng : R) (bands : list TrafficSpeedBand) : list R :=
  match bands with
  | [] => []
  | band :: rest =>
      match segmentExhaust lat lng band with
      | Some e => e :: qualifyingExhausts lat lng rest
      | None => qualifyingExhausts lat lng rest
      end
  end.

(** Largest element of a list of exhaust values, [0] when there is none. *)
Definition maxOf (l : list R) : R := fold_right Rmax 0 l.

(** Scaling of the worst exhaust to the penalty, rounded to one decimal. *)
Definition scaledPenalty (worstExhaust : R) : R :=
  Js.Math_round (Js.Math_min 4.0 (worstExhaust * 3.5) * 10) / 10.

(** A segment that adds nothing at a point: skipped by the guard, without a
    defined distance (an end coordinate is absent), or at 400 m or more. *)
Definition outOfReach (lat lng : R) (band : TrafficSpeedBand) : Prop :=
  guardSkips band = true \/
  segmentDistance lat lng band = None \/
  exists d, segmentDistance lat lng band = Some d /\ d >= TRAFFIC_RADIUS.

(** Sample segments. *)

(** A degenerate expressway segment at [(1.3, 103.8)], free flowing. *)
Definition expresswayBand : TrafficSpeedBand :=
  mkBand "L1" (Some "PIE") 8 (Some 1.3) (Some 103.8) (Some 1.3) (Some 103.8)
    (Some 0) (Some 1.0).

(** A jammed residential street on the same spot. *)
Definition residentialBand : TrafficSpeedBand :=
  mkBand "L2" (Some "Jalan Kecil") 1 (Some 1.3) (Some 103.8) (Some 1.3) (Some 103.8)
    (Some 6) (Some 0.1).

(** A segment that starts at [(1.3, 103.8)] and whose end coordinates are
    zero. *)
Definition zeroEndBand : TrafficSpeedBand :=
  mkBand "L3" (Some "PIE") 8 (Some 1.3) (Some 103.8) (Some 0) (Some 0)
    (Some 0) (Some 1.0).

(** A degenerate segment exactly 400 m away from [(1, 1)]. *)
Definition boundaryBand : TrafficSpeedBand :=
  mkBand "L4" (Some "PIE") 8 (Some 1) (Some (1 + 400 / 111320))
    (Some 1) (Some (1 + 400 / 111320)) (Some 0) (Some 0.1).

(** ** Road names *)





(** ** Grid lookup *)

(** The L1 distance, in degrees, between a cell and the query point. *)
Definition l1dist (lat lng : R) (cell : GridCell) : R :=
  Rabs (cell_lat cell - lat) + Rabs (cell_lng cell - lng).

Definition EPSILON : R := 0.00001.

(** The cells the scan visits: all of them up to and including the first one
    within [EPSILON] of the query point. *)
Fixpoint scannedCells (lat lng : R) (cs : list GridCell) : list GridCell :=
  match cs with
  | [] => []
  | cell :: rest =>
      if l1dist lat lng cell <? EPSILON then [cell]
      else cell :: scannedCells lat lng rest
  end.

(** The running [closest] and [minDist] of the scan agree. *)
Definition tracked (lat lng : R) (closest : option GridCell) (minDist : Js.dist)
    : Prop :=
  match closest, minDist with
  | None, Js.Infinity => True
  | Some c0, Js.Finite m => m = l1dist lat lng c0
  | _, _ => False
  end.

(** A grid of two cells: the first is within [EPSILON] of the origin, the
    second is on it. *)
Definition nearCell : GridCell := mkGridCell 0.000005 0 4.
Definition exactCell : GridCell := mkGridCell 0 0 2.
Definition twoCellGrid : StaticGrid :=
  mkStaticGrid 50 (mkGridBounds 0 1 0 1) [nearCell; exactCell].

(** ** Zones *)

(** A zone that decides nothing at a point: the point is neither inside its
    ring nor within [buffer] metres of its boundary. *)
Definition zoneMisses (buffer lat lng cosLat : R) (zone : Zone) : Prop :=
  pointInPolygon lat lng (ring zone) = false /\
  Js.dist_lt (distToPolygonEdge lat lng (ring zone) cosLat) buffer = false.

(** [m] is a lower bound of a running minimum. *)
Definition le_dist (m : R) (d : Js.dist) : Prop :=
  match d with
  | Js.Infinity => True
  | Js.Finite v => m <= v
  end.

(** The distance from the point to the edge [e] of a ring, as
    [distToPolygonEdge] computes it. *)
Definition edgeDist (lat lng cosLat : R) (e : (R * R) * (R * R)) : R :=
  pointToSegmentDist lat lng (snd (fst e)) (fst (fst e)) (snd (snd e)) (fst (snd e))
    cosLat.

(** The point of the Gardens by the Bay scenario and the ring of that zone,
    as listed in [GREEN_ZONES]. *)
Definition gardensLat : R := 1.2836.
Definition gardensLng : R := 103.8607.

Definition gardensRing : list (R * R) :=
  [ (1.278, 103.861); (1.278, 103.870); (1.284, 103.870); (1.284, 103.861) ].

(** A point 0.001 degrees east of the eastern edge of the first industrial
    zone (Jurong Industrial Estate), and the ring of that zone. *)
Definition bufferLat : R := 1.32.
Definition bufferLng : R := 103.731.

Definition jurongRing : list (R * R) :=
  [ (103.690, 1.308); (103.720, 1.306); (103.730, 1.312); (103.730, 1.335);
    (103.720, 1.340); (103.705, 1.342); (103.690, 1.335) ].

Definition industrialAfterJurong : list Zone := tl INDUSTRIAL_ZONES.

(** * Further code of the repository *)

From Stdlib Require Import Permutation.

(** ** Chart colour ([components/TimeRecommendation.tsx]) *)

Definition scoreColor (score : R) : string :=
  if score <=? 2 then "#4ecdc4"
  else if score <=? 3.5 then "#a8e6a3"
  else if score <=? 5 then "#f7d794"
  else if score <=? 7 then "#f8a978"
  else "#fc5c65".

(** * Vocabulary of the further statements *)

(** Two condition records that differ at most in [wind.speed]. *)
Definition same_but_wind_speed (c1 c2 : CurrentConditions) : Prop :=
  pm25_value c1 = pm25_value c2 /\
  pm25_band c1 = pm25_band c2 /\
  pm25_regions c1 = pm25_regions c2 /\
  wind_direction c1 = wind_direction c2 /\
  temperature c1 = temperature c2 /\
  rainfall_isRaining c1 = rainfall_isRaining c2 /\
  rainfall_intensity c1 = rainfall_intensity c2 /\
  humidity c1 = humidity c2 /\
  timestamp c1 = timestamp c2.

(** Two condition records that differ at most in [rainfall]. *)
Definition same_but_rainfall (c1 c2 : CurrentConditions) : Prop :=
  pm25_value c1 = pm25_value c2 /\
  pm25_band c1 = pm25_band c2 /\
  pm25_regions c1 = pm25_regions c2 /\
  wind_speed c1 = wind_speed c2 /\
  wind_direction c1 = wind_direction c2 /\
  temperature c1 = temperature c2 /\
  humidity c1 = humidity c2 /\
  timestamp c1 = timestamp c2.

(** The static base before the green-zone clamp: the base of the nearest
    cell, 3.0 without a grid or without cells. *)
Definition gridBase (lat lng : R) (grid : option StaticGrid) : R :=
  match findNearestCell lat lng grid with
  | Some cell => base cell
  | None => 3.0
  end.

(** Sample conditions: calm and dry, windy, and in heavy rain. *)
Definition conditions_calm : CurrentConditions :=
  mkConditions 10 excellent [] 1 "NE" 30 false "None" 70 "2024-01-01T08:00:00Z".

Definition conditions_windy : CurrentConditions :=
  mkConditions 10 excellent [] 25 "NE" 30 false "None" 70 "2024-01-01T08:00:00Z".

Definition conditions_heavy_rain : CurrentConditions :=
  mkConditions 10 excellent [] 1 "NE" 30 true "Heavy" 70 "2024-01-01T08:00:00Z".

(** Two segments that differ at most in [congestionRatio]. *)
Definition same_but_congestion (b1 b2 : TrafficSpeedBand) : Prop :=
  linkId b1 = linkId b2 /\ roadName b1 = roadName b2 /\
  speedBand b1 = speedBand b2 /\
  startLat b1 = startLat b2 /\ startLng b1 = startLng b2 /\
  endLat b1 = endLat b2 /\ endLng b1 = endLng b2 /\
  frc b1 = frc b2.

(** Two segments that differ at most in [frc], both with a given
    [congestionRatio]. *)
Definition same_but_frc (b1 b2 : TrafficSpeedBand) : Prop :=
  linkId b1 = linkId b2 /\ roadName b1 = roadName b2 /\
  speedBand b1 = speedBand b2 /\
  startLat b1 = startLat b2 /\ startLng b1 = startLng b2 /\
  endLat b1 = endLat b2 /\ endLng b1 = endLng b2 /\
  congestionRatio b1 = congestionRatio b2.

(** The expressway segment of the samples, jammed. *)
Definition jammedExpresswayBand : TrafficSpeedBand :=
  mkBand "L1" (Some "PIE") 8 (Some 1.3) (Some 103.8) (Some 1.3) (Some 103.8)
    (Some 0) (Some 0.1).

(** The residential segment of the samples, reclassified as an arterial. *)
Definition arterialBand : TrafficSpeedBand :=
  mkBand "L2" (Some "Jalan Kecil") 1 (Some 1.3) (Some 103.8) (Some 1.3) (Some 103.8)
    (Some 2) (Some 0.1).



(** An axis-parallel rectangle, with its vertices in the order of the zone
    tables. *)
Definition rectangleRing (x0 y0 x1 y1 : R) : list (R * R) :=
  [ (x0, y0); (x0, y1); (x1, y1); (x1, y0) ].

(** A grid of one cell with base 4 at the origin. *)
Definition oneCellGrid : StaticGrid :=
  mkStaticGrid 50 (mkGridBounds 0 1 0 1) [mkGridCell 0 0 4].





(** ** The raw sum of [computeScore] *)

(** The static base that enters the raw sum: the base of the nearest cell
    (3.0 without a grid or without cells), lowered to at most 1.2 in a green
    zone and to at most 2.0 near one. *)
Definition staticBaseUsed (lat lng : R) (grid : option StaticGrid) : R :=
  let green := greenZoneCheck lat lng (Js.Math_cos ((lat * Js.Math_PI) / 180)) in
  let b := gridBase lat lng grid in
  if inPark green then Js.Math_min b 1.2
  else if nearPark green then Js.Math_min b 2.0
  else b.

(** The hour that is scored, and the three weather modifiers, 0 without
    conditions. *)
Definition hourUsed (clockHour : R) (hour : option R) : R :=
  match hour with Some h => h | None => clockHour end.

Definition pm25ModOf (conditions : option CurrentConditions) : R :=
  match conditions with Some c => pm25Modifier (pm25_value c) | None => 0 end.

Definition windModOf (conditions : option CurrentConditions) : R :=
  match conditions with Some c => windModifier (wind_speed c) | None => 0 end.

Definition rainModOf (conditions : option CurrentConditions) : R :=
  match conditions with
  | Some c => rainModifier (rainfall_isRaining c) (rainfall_intensity c)
  | None => 0
  end.

(** The score that the raw sum with the traffic term [t] gives. *)
Definition scoreWithTraffic (clockHour lat lng : R)
    (conditions : option CurrentConditions) (grid : option StaticGrid)
    (hour : option R) (t : R) : R :=
  let raw :=
    staticBaseUsed lat lng grid + pm25ModOf conditions + windModOf conditions
    + timeModifier (hourUsed clockHour hour) + rainModOf conditions + t in
  Js.Math_max 1 (Js.Math_min 10 (Js.Math_round (raw * 10) / 10)).

(** A grid of one cell whose base is not a whole number of tenths. *)
Definition offTenthGrid : StaticGrid :=
  mkStaticGrid 50 (mkGridBounds 1 2 103 104) [mkGridCell 1.32 103.731 3.048].

(** * Callers and suppliers of the scoring engine *)

(** ** Further JavaScript primitives *)

(** [Math.round] as an integer, for results that are used as an index. *)
Definition roundZ (x : R) : Z := Zfloor (x + / 2).

(** [l[z]] for an integral [z]: [undefined] (here [None]) below 0 and past
    the end. *)
Definition jsIndex {A : Type} (l : list A) (z : Z) : option A :=
  if (z <? 0)%Z then None else nth_error l (Z.to_nat z).

(** [arr.filter((_, i) => i % step === 0)], the index counted from [i]. *)
Fixpoint filterIndex {A : Type} (step i : nat) (l : list A) : list A :=
  match l with
  | [] => []
  | p :: rest =>
      if Nat.eqb (i mod step) 0 then p :: filterIndex step (S i) rest
      else filterIndex step (S i) rest
  end.

(** [arr.reduce(f)] without an initial value; it throws on an empty array
    (here [None]). *)
Definition reduce1 {A : Type} (f : A -> A -> A) (l : list A) : option A :=
  match l with
  | [] => None
  | x :: rest => Some (fold_left f rest x)
  end.

(** [str.replace(/c/g, rep)] for a pattern of one character. *)
Fixpoint replaceChar (c : ascii) (rep : string) (s : string) : string :=
  match s with
  | EmptyString => EmptyString
  | String a rest =>
      if Ascii.eqb a c then (rep ++ replaceChar c rep rest)%string
      else String a (replaceChar c rep rest)
  end.

Definition Math_sin (x : R) : R := sin x.

(** [Math.atan2 (y, x)] on reals; the signed zeros of the source are not
    distinguished, so [atan2 (0, 0)] is [0]. *)
Definition Math_atan2 (y x : R) : R :=
  if x >? 0 then atan (y / x)
  else if x <? 0 then
    (if y >=? 0 then atan (y / x) + PI else atan (y / x) - PI)
  else if y >? 0 then PI / 2
  else if y <? 0 then - (PI / 2)
  else 0.

(** ** The 24-hour chart ([components/TimeRecommendation.tsx]) *)

Record HourScore : Type := mkHourScore {
  hs_hour : nat;
  hs_avg : R
}.

(** [Math.max(1, Math.floor(interpolated.length / 20))]. *)
Definition sampleStep (len : nat) : nat := Nat.max 1 (len / 20).

Definition sampled (interpolated : list RoutePoint) : list RoutePoint :=
  filterIndex (sampleStep (List.length interpolated)) 0 interpolated.

(** The average of one hour over the sampled points, rounded to a decimal. *)
Definition hourAverage (clockHour : R) (points : list RoutePoint)
    (conditions : option CurrentConditions) (grid : option StaticGrid)
    (traffic : list TrafficSpeedBand) (hour : nat) : R :=
  let scores :=
    map (fun p =>
           score (computeScore clockHour (rp_lat p) (rp_lng p) conditions grid
                    (Some (INR hour)) (Some traffic)))
        points in
  let avg := fold_left Rplus scores 0 / INR (List.length scores) in
  Js.Math_round (avg * 10) / 10.

Definition hourlyScores (clockHour : R) (interpolated : list RoutePoint)
    (conditions : option CurrentConditions) (grid : option StaticGrid)
    (traffic : list TrafficSpeedBand) : list HourScore :=
  match interpolated with
  | [] => []
  | _ =>
      map (fun hour =>
             {| hs_hour := hour;
                hs_avg := hourAverage clockHour (sampled interpolated)
                            conditions grid traffic hour |})
          (seq 0 24)
  end.

Definition best (hourly : list HourScore) : option HourScore :=
  reduce1 (fun a b => if hs_avg a <? hs_avg b then a else b) hourly.

Definition worst (hourly : list HourScore) : option HourScore :=
  reduce1 (fun a b => if hs_avg a >? hs_avg b then a else b) hourly.

(** ** Weather readings ([lib/api.ts]) *)



(** [fetchRainfall], from the readings' values of the first item. *)
Definition fetchRainfall (values : list R) : bool * string :=
  match values with
  | [] => (false, "None")
  | v :: rest =>
      let maxRain := Math_max_spread v rest in
      if maxRain =? 0 then (false, "None")
      else if maxRain <? 2.5 then (true, "Light")
      else if maxRain <? 7.5 then (true, "Moderate")
      else (true, "Heavy")
  end.

(** [fetchPM25], from the regional one-hour readings. *)
Definition fetchPM25 (readings : list (string * R)) : R * list (string * R) :=
  let values := map snd readings in
  let avg :=
    if (0 <? List.length values)%nat
    then fold_left Rplus values 0 / INR (List.length values)
    else 0 in
  (Js.Math_round avg, readings).

(** [fetchAllConditions], from the five fetched parts and the time stamp. *)
Definition fetchAllConditions (pm25 : R * list (string * R))
    (wind : R * string) (temp : R) (rainfall : bool * string)
    (humid : R) (now : string) : CurrentConditions :=
  let pm25Band :=
    if fst pm25 >? 75 then hazardous
    else if fst pm25 >? 55 then poor
    else if fst pm25 >? 37 then moderate
    else if fst pm25 >? 25 then good
    else excellent in
  mkConditions (fst pm25) pm25Band (snd pm25) (fst wind) (snd wind) temp
    (fst rainfall) (snd rainfall) humid now.

(** ** GPX export ([lib/gpx-export.ts]) *)

Definition quoteChar : ascii := "034"%char.

Definition escapeXml (str : string) : string :=
  replaceChar quoteChar "&quot;"
    (replaceChar ">" "&gt;"
       (replaceChar "<" "&lt;"
          (replaceChar "&" "&amp;" str))).

(** The entity of one character, and the encoding of a string character by
    character: what [escapeXml] is compared with. *)
Definition entityOf (a : ascii) : string :=
  if Ascii.eqb a "&" then "&amp;"
  else if Ascii.eqb a "<" then "&lt;"
  else if Ascii.eqb a ">" then "&gt;"
  else if Ascii.eqb a quoteChar then "&quot;"
  else String a EmptyString.

Fixpoint encodeEach (s : string) : string :=
  match s with
  | EmptyString => EmptyString
  | String a rest => (entityOf a ++ encodeEach rest)%string
  end.

(** The characters of a string. *)
Definition occurs (c : ascii) (s : string) : Prop :=
  In c (list_ascii_of_string s).

(** ** Track geometry ([lib/gpx.ts]) *)

Record LatLng : Type := mkLatLng {
  ll_lat : R;
  ll_lng : R
}.

(** The haversine term [h]; the distance takes the square roots of [h] and
    of [1 - h]. *)
Definition haversineTerm (a b : LatLng) : R :=
  let dLat := ((ll_lat b - ll_lat a) * Js.Math_PI) / 180 in
  let dLng := ((ll_lng b - ll_lng a) * Js.Math_PI) / 180 in
  let sinLat := Math_sin (dLat / 2) in
  let sinLng := Math_sin (dLng / 2) in
  sinLat * sinLat
  + Js.Math_cos ((ll_lat a * Js.Math_PI) / 180)
    * Js.Math_cos ((ll_lat b * Js.Math_PI) / 180) * sinLng * sinLng.

Definition haversine (a b : LatLng) : R :=
  let R_ := 6371000 in
  let h := haversineTerm a b in
  R_ * 2 * Math_atan2 (Js.Math_sqrt h) (Js.Math_sqrt (1 - h)).

(** The loop of [totalDistance], from the previous coordinate on. *)
Fixpoint totalDistanceFrom (prev : LatLng) (rest : list LatLng) (total : R) : R :=
  match rest with
  | [] => total
  | c :: rest' => totalDistanceFrom c rest' (total + haversine prev c)
  end.

Definition totalDistance (coords : list LatLng) : R :=
  match coords with
  | [] => 0
  | c :: rest => totalDistanceFrom c rest 0
  end.

(** [downsample].  With [target = 1] the step is [Infinity] and the index
    [0 * Infinity] is [NaN], so the one entry is [undefined]. *)
Definition downsample {A : Type} (coords : list A) (target : nat)
    : list (option A) :=
  if (List.length coords <=? target)%nat then map Some coords
  else
    match target with
    | O => []
    | S O => [None]
    | _ =>
        let step := (INR (List.length coords) - 1) / (INR target - 1) in
        map (fun i => jsIndex coords (roundZ (INR i * step))) (seq 0 target)
    end.

(** The [while] loop of [interpolateRoute] on one segment.  [fuel] bounds the
    number of iterations; [None] is a loop that has not ended within it. *)
Fixpoint interpolateSegment (fuel : nat) (stepM cumDist segLen : R)
    (segStart segEnd : LatLng) (nextTarget : R) (result : list RoutePoint)
    : option (R * list RoutePoint) :=
  if cumDist + segLen >=? nextTarget then
    match fuel with
    | O => None
    | S fuel' =>
        let overshoot := nextTarget - cumDist in
        let t := if segLen >? 0 then overshoot / segLen else 0 in
        let lat := ll_lat segStart + t * (ll_lat segEnd - ll_lat segStart) in
        let lng := ll_lng segStart + t * (ll_lng segEnd - ll_lng segStart) in
        interpolateSegment fuel' stepM cumDist segLen segStart segEnd
          (nextTarget + stepM)
          (result ++ [mkRoutePoint lat lng nextTarget])
    end
  else Some (nextTarget, result).

(** The [for] loop of [interpolateRoute] over the remaining coordinates. *)
Fixpoint interpolateSegments (fuel : nat) (stepM : R) (rest : list LatLng)
    (segStart : LatLng) (cumDist nextTarget : R) (result : list RoutePoint)
    : option (R * list RoutePoint) :=
  match rest with
  | [] => Some (cumDist, result)
  | segEnd :: rest' =>
      let segLen := haversine segStart segEnd in
      match interpolateSegment fuel stepM cumDist segLen segStart segEnd
              nextTarget result with
      | None => None
      | Some (nextTarget', result') =>
          interpolateSegments fuel stepM rest' segEnd (cumDist + segLen)
            nextTarget' result'
      end
  end.

Definition asLatLng (p : RoutePoint) : LatLng := mkLatLng (rp_lat p) (rp_lng p).

Definition interpolateRoute (fuel : nat) (coords : list LatLng) (stepM : R)
    : option (list RoutePoint) :=
  match coords with
  | [] => Some []
  | [c] => Some [mkRoutePoint (ll_lat c) (ll_lng c) 0]
  | c0 :: rest =>
      match interpolateSegments fuel stepM rest c0 0 stepM
              [mkRoutePoint (ll_lat c0) (ll_lng c0) 0] with
      | None => None
      | Some (cumDist, result) =>
          let last := List.last coords c0 in
          let push :=
            result ++ [mkRoutePoint (ll_lat last) (ll_lng last) cumDist] in
          match List.last (map Some result) None with
          | None => Some push
          | Some p =>
              if haversine (asLatLng p) last >? 1 then Some push
              else Some result
          end
      end
  end.

(** ** Traffic bands near the route ([RouteMap]) *)

(** The midpoint of a segment; with a coordinate missing the sums of the
    source are [NaN]. *)
Definition bandMidpoint (b : TrafficSpeedBand) : option (R * R) :=
  match startLat b, endLat b, startLng b, endLng b with
  | Some sLat, Some eLat, Some sLng, Some eLng =>
      Some ((sLat + eLat) / 2, (sLng + eLng) / 2)
  | _, _, _, _ => None
  end.

(** The planar distance of the filter, at the fixed latitude 1.35. *)
Definition midpointDist (p : LatLng) (mid : R * R) : R :=
  let cosLat := Js.Math_cos ((1.35 * Js.Math_PI) / 180) in
  let dLat := (ll_lat p - fst mid) * DEG_TO_M in
  let dLng := (ll_lng p - snd mid) * DEG_TO_M * cosLat in
  Js.Math_sqrt (dLat * dLat + dLng * dLng).

Definition nearbyBands (bands : list TrafficSpeedBand) (route : list LatLng)
    (radiusM : R) : list TrafficSpeedBand :=
  match bands, route with
  | [], _ => []
  | _, [] => []
  | _, _ =>
      let step := Nat.max 1 (List.length route / 50) in
      let sample := filterIndex step 0 route in
      filter (fun b =>
                match bandMidpoint b with
                | None => false
                | Some mid => existsb (fun p => midpointDist p mid <? radiusM) sample
                end)
             bands
  end.

(** ** Samples *)

Definition onePointRoute : list RoutePoint := [mkRoutePoint 1.35 103.82 0].

Definition origin : LatLng := mkLatLng 0 0.

Definition fiveNumbers : list nat := [10; 11; 12; 13; 14]%nat.

(** Coordinates in the usual ranges, the poles left out. *)
Definition validLatLng (a : LatLng) : Prop :=
  -90 < ll_lat a < 90 /\ -180 <= ll_lng a <= 180.

(** The point that [interpolateRoute] puts at the distance [target] on the
    segment that starts at the distance [cumDist]. *)
Definition pointOnSegment (segStart segEnd : LatLng) (cumDist segLen target : R)
    : RoutePoint :=
  let overshoot := target - cumDist in
  let t := if segLen >? 0 then overshoot / segLen else 0 in
  mkRoutePoint (ll_lat segStart + t * (ll_lat segEnd - ll_lat segStart))
               (ll_lng segStart + t * (ll_lng segEnd - ll_lng segStart))
               target.



(** A track of two points one degree of latitude apart. *)
Definition twoPointTrack : list LatLng := [mkLatLng 0 0; mkLatLng 1 0].

(** * Properties *)

(** ** Facts about the number primitives *)

Section NumberFacts.

Lemma ltb_spec (x y : R) : reflect (x < y) (x <? y).
Proof. unfold Js.ltb. destruct (Rlt_dec x y); constructor; assumption. Qed.

Lemma leb_spec (x y : R) : reflect (x <= y) (x <=? y).
Proof. unfold Js.leb. destruct (Rle_dec x y); constructor; assumption. Qed.

Lemma gtb_spec (x y : R) : reflect (x > y) (x >? y).
Proof. unfold Js.gtb. apply ltb_spec. Qed.

Lemma geb_spec (x y : R) : reflect (x >= y) (x >=? y).
Proof.
  unfold Js.geb. destruct (leb_spec y x); constructor; lra.
Qed.

Lemma eqb_spec (x y : R) : reflect (x = y) (x =? y).
Proof. unfold Js.eqb. destruct (Req_dec_T x y); constructor; assumption. Qed.

Lemma Math_round_mono (x y : R) :
  x <= y -> Js.Math_round x <= Js.Math_round y.
Proof.
  intros H. unfold Js.Math_round. apply IZR_le, Zfloor_le. lra.
Qed.

Lemma Math_round_between (a b : Z) (x : R) :
  IZR a <= x <= IZR b -> IZR a <= Js.Math_round x <= IZR b.
Proof.
  intros [Ha Hb]. unfold Js.Math_round. split.
  - apply IZR_le, Zfloor_lub. lra.
  - apply IZR_le.
    pose proof (Zfloor_bound (x + / 2)) as [Hf _].
    assert (IZR (Zfloor (x + / 2)) < IZR (b + 1)) as Hlt
      by (rewrite plus_IZR; lra).
    apply lt_IZR in Hlt. lia.
Qed.

Lemma Math_round_eq (z : Z) (x : R) :
  IZR z - / 2 <= x < IZR z + / 2 -> Js.Math_round x = IZR z.
Proof.
  intros H. unfold Js.Math_round. f_equal. apply Zfloor_eq. lra.
Qed.

Lemma Math_round_IZR (z : Z) : Js.Math_round (IZR z) = IZR z.
Proof. apply Math_round_eq. lra. Qed.

(** Rounding to one decimal, as [Math.round(x * 10) / 10]. *)
Lemma round1_mono (x y : R) :
  x <= y -> Js.Math_round (x * 10) / 10 <= Js.Math_round (y * 10) / 10.
Proof.
  intros H. pose proof (Math_round_mono (x * 10) (y * 10)). lra.
Qed.

Lemma round1_between (a b : Z) (x : R) :
  IZR a <= x <= IZR b ->
  IZR a <= Js.Math_round (x * 10) / 10 <= IZR b.
Proof.
  intros H.
  pose proof (Math_round_between (a * 10) (b * 10) (x * 10)) as Hr.
  rewrite !mult_IZR in Hr. lra.
Qed.

Lemma clamp_bounds (lo hi x : R) :
  lo <= hi -> lo <= Js.Math_max lo (Js.Math_min hi x) <= hi.
Proof.
  intros H. unfold Js.Math_max, Js.Math_min. split.
  - apply Rmax_l.
  - apply Rmax_lub; [assumption | apply Rmin_l].
Qed.

Lemma clamp_mono (lo hi x y : R) :
  x <= y ->
  Js.Math_max lo (Js.Math_min hi x) <= Js.Math_max lo (Js.Math_min hi y).
Proof.
  intros H. unfold Js.Math_max, Js.Math_min.
  apply Rle_max_compat_l, Rle_min_compat_l, H.
Qed.

Lemma pct_clamped (x : R) :
  0 <= Js.Math_round (Js.Math_max 0 (Js.Math_min 100 x)) <= 100.
Proof.
  apply (Math_round_between 0 100), clamp_bounds. lra.
Qed.

End NumberFacts.

(** Case analysis on every comparison of the goal. *)
Ltac js_cases :=
  unfold Js.gtb, Js.geb in *;
  repeat match goal with
    | |- context [Js.ltb ?a ?b] => destruct (ltb_spec a b)
    | |- context [Js.leb ?a ?b] => destruct (leb_spec a b)
    | |- context [Js.eqb ?a ?b] => destruct (eqb_spec a b)
    end;
  cbn [andb orb negb Bool.eqb].

(** Evaluation of the comparisons of the goal whose outcome [lra] settles. *)
Ltac js_eval :=
  unfold Js.gtb, Js.geb in *;
  repeat match goal with
    | |- context [Js.ltb ?a ?b] =>
        destruct (ltb_spec a b); [ try (exfalso; lra) | try (exfalso; lra) ]
    | |- context [Js.leb ?a ?b] =>
        destruct (leb_spec a b); [ try (exfalso; lra) | try (exfalso; lra) ]
    | |- context [Js.eqb ?a ?b] =>
        destruct (eqb_spec a b); [ try (exfalso; lra) | try (exfalso; lra) ]
    end;
  cbn [andb orb negb Bool.eqb].

(** ** Route rating *)

(** C10.  [rateRoute] applied to an empty list of scored points returns the
    fixed neutral rating: every percentage is 50, the summary is "No data"
    and there are no factors.  The function is total, so nothing fails. *)
Theorem rateRoute_empty_is_neutral (grid : option StaticGrid) :
  rateRoute [] grid =
  {| overall := 50; trafficExposure := 50; airQuality := 50;
     greenCorridor := 50; consistency := 50; summary := "No data";
     factors := [] |}.
Proof. reflexivity. Qed.

Lemma count_nonneg {A : Type} (f : A -> bool) (l : list A) : 0 <= count f l.
Proof. unfold count. apply pos_INR. Qed.

Lemma count_le_length {A : Type} (f : A -> bool) (l : list A) :
  count f l <= INR (List.length l).
Proof. unfold count. apply le_INR, filter_length_le. Qed.

Lemma green_pct_bounds (g p n : R) :
  0 < n -> 0 <= g -> 0 <= p ->
  0 <= Js.Math_round (Js.Math_min 100 (g / n * 100 * 0.7 + p / n * 100 * 0.3)) <= 100.
Proof.
  intros Hn Hg Hp. apply (Math_round_between 0 100).
  unfold Js.Math_min. split; [apply Rmin_glb | apply Rmin_l]; try lra.
  assert (0 < / n) by (apply Rinv_0_lt_compat; lra).
  assert (0 <= g / n) by (unfold Rdiv; apply Rmult_le_pos; lra).
  assert (0 <= p / n) by (unfold Rdiv; apply Rmult_le_pos; lra).
  lra.
Qed.

Lemma overall_bounds (t a g c : R) :
  0 <= t <= 100 -> 0 <= a <= 100 -> 0 <= g <= 100 -> 0 <= c <= 100 ->
  0 <= Js.Math_round (t * 0.4 + a * 0.3 + g * 0.2 + c * 0.1) <= 100.
Proof.
  intros. apply (Math_round_between 0 100). lra.
Qed.

Lemma Math_max_nonneg_l (x y : R) : 0 <= x -> 0 <= Js.Math_max x y.
Proof.
  intros H. unfold Js.Math_max. pose proof (Rmax_l x y). lra.
Qed.

Lemma rateRoute_percentages (pts : list ScoredPoint) (grid : option StaticGrid) :
  0 <= trafficExposure (rateRoute pts grid) <= 100 /\
  0 <= airQuality (rateRoute pts grid) <= 100 /\
  0 <= greenCorridor (rateRoute pts grid) <= 100 /\
  0 <= consistency (rateRoute pts grid) <= 100.
Proof.
  destruct pts as [|p0 ps].
  - cbn. lra.
  - unfold rateRoute. cbv zeta.
    cbn [trafficExposure airQuality greenCorridor consistency].
    repeat split; try apply pct_clamped.
    all: apply green_pct_bounds;
      [ rewrite length_map; cbn [List.length]; rewrite S_INR;
        pose proof (pos_INR (List.length ps)); lra
      | apply Math_max_nonneg_l, count_nonneg
      | apply Math_max_nonneg_l, count_nonneg ].
Qed.

Lemma rateRoute_overall (pts : list ScoredPoint) (grid : option StaticGrid) :
  0 <= overall (rateRoute pts grid) <= 100.
Proof.
  pose proof (rateRoute_percentages pts grid) as (Ht & Ha & Hg & Hc).
  destruct pts as [|p0 ps].
  - cbn. lra.
  - unfold rateRoute in *. cbv zeta in *.
    cbn [overall trafficExposure airQuality greenCorridor consistency] in *.
    apply overall_bounds; assumption.
Qed.

(** ** Point scorer *)

Lemma computeScore_score_bounds clockHour lat lng conditions grid hour speedBands :
  1 <= score (computeScore clockHour lat lng conditions grid hour speedBands) <= 10.
Proof.
  unfold computeScore. cbv zeta. cbn [score]. apply clamp_bounds. lra.
Qed.

(** C8.  For all inputs, [computeScore] returns a score in [[1, 10]], and
    [rateRoute] returns an overall rating in [[0, 100]] with each of the four
    factor percentages (traffic exposure, air quality, green corridor,
    consistency), both as fields of the rating and as [pct] of the listed
    factors, in [[0, 100]]. *)
Theorem score_and_rating_bounds :
  (forall clockHour lat lng conditions grid hour speedBands,
      1 <= score (computeScore clockHour lat lng conditions grid hour speedBands) <= 10) /\
  (forall pts grid,
      let r := rateRoute pts grid in
      0 <= overall r <= 100 /\
      0 <= trafficExposure r <= 100 /\
      0 <= airQuality r <= 100 /\
      0 <= greenCorridor r <= 100 /\
      0 <= consistency r <= 100 /\
      Forall (fun f => 0 <= pct f <= 100) (factors r)).
Proof.
  split.
  - apply computeScore_score_bounds.
  - intros pts grid r. subst r.
    pose proof (rateRoute_overall pts grid) as Ho.
    pose proof (rateRoute_percentages pts grid) as (Ht & Ha & Hg & Hc).
    repeat (split; [assumption|]).
    destruct pts as [|p0 ps].
    + cbn. constructor.
    + unfold rateRoute in *. cbv zeta in *.
      cbn [factors trafficExposure airQuality greenCorridor consistency] in *.
      repeat (apply Forall_cons; [cbn [pct]; assumption|]). apply Forall_nil.
Qed.

Lemma pm25Modifier_mono (v1 v2 : R) :
  v1 <= v2 -> pm25Modifier v1 <= pm25Modifier v2.
Proof.
  intros H. unfold pm25Modifier. js_cases; lra.
Qed.

(** C9.  With the point, grid, segment list and hour fixed, and two
    condition records that differ only in [pm25.value], the score under the
    larger PM2.5 value is at least the score under the smaller one. *)
Theorem score_monotone_in_pm25
    clockHour lat lng (c1 c2 : CurrentConditions) grid hour speedBands :
  same_but_pm25_value c1 c2 ->
  pm25_value c1 <= pm25_value c2 ->
  score (computeScore clockHour lat lng (Some c1) grid hour speedBands)
  <= score (computeScore clockHour lat lng (Some c2) grid hour speedBands).
Proof.
  intros (_ & _ & Hw & _ & _ & Hr & Hi & _ & _) Hle.
  unfold computeScore. cbv zeta. cbn [score].
  rewrite Hw, Hr, Hi.
  apply clamp_mono, round1_mono.
  pose proof (pm25Modifier_mono _ _ Hle). lra.
Qed.

Lemma score_monotone_in_pm25_witness :
  same_but_pm25_value conditions_pm25_10 conditions_pm25_60 /\
  pm25_value conditions_pm25_10 <= pm25_value conditions_pm25_60 /\
  score (computeScore 0 1.35 103.82 (Some conditions_pm25_10) None (Some 8) (Some []))
  <= score (computeScore 0 1.35 103.82 (Some conditions_pm25_60) None (Some 8) (Some [])).
Proof.
  assert (same_but_pm25_value conditions_pm25_10 conditions_pm25_60) as Hs
    by (repeat split).
  assert (pm25_value conditions_pm25_10 <= pm25_value conditions_pm25_60) as Hle
    by (cbn; lra).
  split; [exact Hs | split; [exact Hle |]].
  exact (score_monotone_in_pm25 0 1.35 103.82 _ _ None (Some 8) (Some []) Hs Hle).
Defined.

(** ** Traffic exhaust model *)

Section TrafficModel.

Variables lat lng : R.

Local Abbreviation cosLat := (Js.Math_cos ((lat * Js.Math_PI) / 180)).

(** The loop body either keeps [worstExhaust] or raises it to the exhaust
    of a qualifying segment. *)
Lemma trafficStep_spec (w : R) (band : TrafficSpeedBand) :
  trafficStep lat lng cosLat w band =
  match segmentExhaust lat lng band with
  | Some e => Rmax w e
  | None => w
  end.
Proof.
  unfold trafficStep, segmentExhaust, segmentDistance, guardSkips.
  destruct (Js.falsy (startLat band) || Js.falsy (startLng band))%bool;
    [reflexivity|].
  destruct (startLat band) as [sLat|]; [|reflexivity].
  destruct (startLng band) as [sLng|]; [|reflexivity].
  destruct (endLat band) as [eLat|]; [|reflexivity].
  destruct (endLng band) as [eLng|]; [|reflexivity].
  cbv zeta. fold (resolvedFrc band). fold (resolvedCongestion band).
  set (dist := pointToSegmentDist lat lng sLat sLng eLat eLng cosLat).
  unfold Js.geb.
  destruct (leb_spec TRAFFIC_RADIUS dist), (ltb_spec dist TRAFFIC_RADIUS);
    try lra; try reflexivity.
  unfold Js.gtb.
  match goal with |- context [Js.ltb ?a ?b] => destruct (ltb_spec a b) end.
  - rewrite Rmax_right; lra.
  - rewrite Rmax_left; lra.
Qed.

Lemma maxOf_nonneg (l : list R) : 0 <= maxOf l.
Proof.
  unfold maxOf. induction l as [|x l IH]; cbn [fold_right].
  - lra.
  - pose proof (Rmax_r x (fold_right Rmax 0 l)). lra.
Qed.

Lemma worstExhaust_from (bands : list TrafficSpeedBand) (w : R) :
  0 <= w ->
  fold_left (trafficStep lat lng cosLat) bands w =
  Rmax w (maxOf (qualifyingExhausts lat lng bands)).
Proof.
  revert w.
  induction bands as [|band rest IH]; intros w Hw;
    cbn [fold_left qualifyingExhausts].
  - unfold maxOf. cbn [fold_right]. rewrite Rmax_left; lra.
  - rewrite trafficStep_spec.
    destruct (segmentExhaust lat lng band) as [e|].
    + rewrite IH by (pose proof (Rmax_l w e); lra).
      unfold maxOf. cbn [fold_right]. rewrite Rmax_assoc. reflexivity.
    + apply IH, Hw.
Qed.

(** The value of [worstExhaust] after the loop is the largest exhaust of the
    qualifying segments. *)
Lemma worstExhaust_is_max (bands : list TrafficSpeedBand) :
  fold_left (trafficStep lat lng cosLat) bands 0 =
  maxOf (qualifyingExhausts lat lng bands).
Proof.
  rewrite worstExhaust_from by lra.
  apply Rmax_right, maxOf_nonneg.
Qed.

Lemma scaledPenalty_0 : scaledPenalty 0 = 0.
Proof.
  unfold scaledPenalty, Js.Math_min.
  rewrite Rmin_right by lra.
  replace (0 * 3.5 * 10) with (IZR 0) by lra.
  rewrite Math_round_IZR. lra.
Qed.

Lemma trafficModifier_spec (bands : list TrafficSpeedBand) :
  trafficModifier lat lng bands =
  scaledPenalty (maxOf (qualifyingExhausts lat lng bands)).
Proof.
  destruct bands as [|band rest].
  - cbn. symmetry. apply scaledPenalty_0.
  - unfold trafficModifier. cbv zeta.
    rewrite worstExhaust_is_max. reflexivity.
Qed.

Lemma scaledPenalty_bounds (w : R) : 0 <= w -> 0 <= scaledPenalty w <= 4.
Proof.
  intros Hw. unfold scaledPenalty.
  apply (round1_between 0 4). unfold Js.Math_min.
  split; [apply Rmin_glb; lra | ].
  pose proof (Rmin_l 4.0 (w * 3.5)). lra.
Qed.

Lemma trafficModifier_bounds (bands : list TrafficSpeedBand) :
  0 <= trafficModifier lat lng bands <= 4.
Proof.
  rewrite trafficModifier_spec. apply scaledPenalty_bounds, maxOf_nonneg.
Qed.

Lemma outOfReach_no_exhaust (band : TrafficSpeedBand) :
  outOfReach lat lng band -> segmentExhaust lat lng band = None.
Proof.
  unfold outOfReach, segmentExhaust.
  intros [Hg | [Hn | (d & Hd & Hge)]].
  - rewrite Hg. reflexivity.
  - rewrite Hn. destruct (guardSkips band); reflexivity.
  - rewrite Hd. destruct (guardSkips band); [reflexivity|].
    destruct (ltb_spec d TRAFFIC_RADIUS); [lra | reflexivity].
Qed.

Lemma qualifyingExhausts_app (l1 l2 : list TrafficSpeedBand) :
  qualifyingExhausts lat lng (l1 ++ l2) =
  (qualifyingExhausts lat lng l1 ++ qualifyingExhausts lat lng l2)%list.
Proof.
  induction l1 as [|b l1 IH]; cbn [qualifyingExhausts app]; [reflexivity|].
  destruct (segmentExhaust lat lng b); cbn [app]; now rewrite IH.
Qed.

Lemma trafficModifier_all_outOfReach (bands : list TrafficSpeedBand) :
  Forall (outOfReach lat lng) bands -> trafficModifier lat lng bands = 0.
Proof.
  intros H. rewrite trafficModifier_spec.
  replace (qualifyingExhausts lat lng bands) with (@nil R).
  - apply scaledPenalty_0.
  - induction H as [|b l Hb _ IH]; cbn [qualifyingExhausts]; [reflexivity|].
    rewrite (outOfReach_no_exhaust b Hb). exact IH.
Qed.

Lemma trafficModifier_drop_outOfReach (band : TrafficSpeedBand)
    (l1 l2 : list TrafficSpeedBand) :
  outOfReach lat lng band ->
  trafficModifier lat lng (l1 ++ band :: l2) = trafficModifier lat lng (l1 ++ l2).
Proof.
  intros H. rewrite !trafficModifier_spec, !qualifyingExhausts_app.
  cbn [qualifyingExhausts]. rewrite (outOfReach_no_exhaust band H).
  reflexivity.
Qed.

End TrafficModel.

(** *** Geometry of [pointToSegmentDist] *)

Lemma pointToSegmentDist_nonneg px py ax ay bx by_ cosLat :
  0 <= pointToSegmentDist px py ax ay bx by_ cosLat.
Proof.
  unfold pointToSegmentDist. cbv zeta.
  match goal with |- context [Js.eqb ?a ?b] => destruct (Js.eqb a b) end;
    apply sqrt_pos.
Qed.

(** A point on the start of a segment is at distance 0 from it. *)
Lemma pointToSegmentDist_at_start ax ay bx by_ cosLat :
  pointToSegmentDist ax ay ax ay bx by_ cosLat = 0.
Proof.
  unfold pointToSegmentDist. cbv zeta.
  match goal with |- context [Js.eqb ?a ?b] => destruct (Js.eqb a b) end.
  - replace ((ax - ax) * DEG_TO_M * cosLat * ((ax - ax) * DEG_TO_M * cosLat)
             + (ay - ay) * DEG_TO_M * ((ay - ay) * DEG_TO_M)) with 0 by ring.
    apply sqrt_0.
  - match goal with |- context [Js.Math_max 0 (Js.Math_min 1 (?n / ?d))] =>
      replace (n / d) with 0 by (unfold Rdiv; ring)
    end.
    unfold Js.Math_max, Js.Math_min.
    rewrite (Rmin_right 1 0) by lra. rewrite (Rmax_left 0 0) by lra.
    match goal with |- Js.Math_sqrt ?e = 0 => replace e with 0 by ring end.
    apply sqrt_0.
Qed.

(** The distance to a degenerate segment is the distance to its point. *)
Lemma pointToSegmentDist_degenerate px py ax ay cosLat :
  pointToSegmentDist px py ax ay ax ay cosLat =
  sqrt (((px - ax) * DEG_TO_M * cosLat) * ((px - ax) * DEG_TO_M * cosLat)
        + ((py - ay) * DEG_TO_M) * ((py - ay) * DEG_TO_M)).
Proof.
  unfold pointToSegmentDist. cbv zeta.
  match goal with |- context [Js.eqb ?a ?b] => destruct (eqb_spec a b) as [_|Hne] end.
  - reflexivity.
  - exfalso. apply Hne. ring.
Qed.

(** *** The sample segments *)

Lemma guardSkips_false_iff (band : TrafficSpeedBand) :
  guardSkips band = false <->
  exists sLat sLng,
    startLat band = Some sLat /\ startLng band = Some sLng /\
    sLat <> 0 /\ sLng <> 0.
Proof.
  unfold guardSkips, Js.falsy. split.
  - intros H. apply orb_false_iff in H as [H1 H2].
    destruct (startLat band) as [a|]; [|discriminate].
    destruct (startLng band) as [b|]; [|discriminate].
    exists a, b.
    destruct (eqb_spec a 0); [discriminate|].
    destruct (eqb_spec b 0); [discriminate|]. auto.
  - intros (a & b & -> & -> & Ha & Hb).
    destruct (eqb_spec a 0); [contradiction|].
    destruct (eqb_spec b 0); [contradiction|]. reflexivity.
Qed.

Lemma scaledPenalty_1 : scaledPenalty 1 = 3.5.
Proof.
  unfold scaledPenalty, Js.Math_min. rewrite Rmin_right by lra.
  replace (1 * 3.5 * 10) with (IZR 35) by lra.
  rewrite Math_round_IZR. lra.
Qed.

Lemma expresswayBand_exhaust :
  segmentExhaust 1.3 103.8 expresswayBand = Some 1.
Proof.
  unfold segmentExhaust.
  assert (guardSkips expresswayBand = false) as ->.
  { apply guardSkips_false_iff. exists 1.3, 103.8. cbn. repeat split; lra. }
  unfold segmentDistance. cbn [startLat startLng endLat endLng expresswayBand].
  rewrite pointToSegmentDist_at_start.
  unfold resolvedFrc, resolvedCongestion, TRAFFIC_RADIUS.
  cbn [frc congestionRatio expresswayBand].
  unfold roadVolumeBaseline, congestionEmissionMultiplier.
  js_eval. f_equal. lra.
Qed.

Lemma residentialBand_exhaust :
  segmentExhaust 1.3 103.8 residentialBand = Some 0.15.
Proof.
  unfold segmentExhaust.
  assert (guardSkips residentialBand = false) as ->.
  { apply guardSkips_false_iff. exists 1.3, 103.8. cbn. repeat split; lra. }
  unfold segmentDistance. cbn [startLat startLng endLat endLng residentialBand].
  rewrite pointToSegmentDist_at_start.
  unfold resolvedFrc, resolvedCongestion, TRAFFIC_RADIUS.
  cbn [frc congestionRatio residentialBand].
  unfold roadVolumeBaseline, congestionEmissionMultiplier.
  js_eval. f_equal. lra.
Qed.

Lemma zeroEndBand_exhaust :
  segmentExhaust 1.3 103.8 zeroEndBand = Some 1.
Proof.
  unfold segmentExhaust.
  assert (guardSkips zeroEndBand = false) as ->.
  { apply guardSkips_false_iff. exists 1.3, 103.8. cbn. repeat split; lra. }
  unfold segmentDistance. cbn [startLat startLng endLat endLng zeroEndBand].
  rewrite pointToSegmentDist_at_start.
  unfold resolvedFrc, resolvedCongestion, TRAFFIC_RADIUS.
  cbn [frc congestionRatio zeroEndBand].
  unfold roadVolumeBaseline, congestionEmissionMultiplier.
  js_eval. f_equal. lra.
Qed.

Lemma trafficModifier_zeroEndBand :
  trafficModifier 1.3 103.8 [zeroEndBand] = 3.5.
Proof.
  rewrite trafficModifier_spec. cbn [qualifyingExhausts].
  rewrite zeroEndBand_exhaust. unfold maxOf. cbn [fold_right].
  rewrite Rmax_left by lra. apply scaledPenalty_1.
Qed.

Lemma zeroEndBand_invalid : invalidSegment zeroEndBand = true.
Proof.
  unfold invalidSegment, Js.falsy. cbn [startLat startLng endLat endLng zeroEndBand].
  destruct (eqb_spec 0 0) as [_|Hne]; [|contradiction].
  now rewrite !orb_true_r.
Qed.

Lemma boundaryBand_distance :
  segmentDistance 1 1 boundaryBand = Some 400.
Proof.
  unfold segmentDistance. cbn [startLat startLng endLat endLng boundaryBand].
  rewrite pointToSegmentDist_degenerate. f_equal.
  unfold DEG_TO_M.
  match goal with |- sqrt ?e = _ => replace e with (400 * 400) by (field; lra) end.
  apply sqrt_square. lra.
Qed.

(** *** Claims on the traffic model *)

(** C2.  At the point [(1.3, 103.8)], the segment [zeroEndBand], whose end
    latitude and end longitude are zero, is invalid in the sense of the data
    model but is not left out of the exhaust computation: the guard of the
    loop only looks at the start coordinates, and the modifier of the list
    made of that segment is 3.5 instead of the 0 of the empty list. *)
Theorem zero_end_segment_not_excluded :
  invalidSegment zeroEndBand = true /\
  guardSkips zeroEndBand = false /\
  trafficModifier 1.3 103.8 [zeroEndBand] = 3.5 /\
  trafficModifier 1.3 103.8 [] = 0.
Proof.
  split; [apply zeroEndBand_invalid|].
  split.
  - apply guardSkips_false_iff. exists 1.3, 103.8. cbn. repeat split; lra.
  - split; [apply trafficModifier_zeroEndBand | reflexivity].
Qed.

(** C3.  The modifier is not 0 on every list of invalid segments: the list
    made of [zeroEndBand], whose end coordinates are zero, holds invalid
    segments only, and at the point [(1.3, 103.8)] its modifier is 3.5.  The
    guard of the loop lets the segment through because it only looks at the
    start coordinates. *)
Theorem all_invalid_list_nonzero_modifier :
  Forall (fun b => invalidSegment b = true) [zeroEndBand] /\
  trafficModifier 1.3 103.8 [zeroEndBand] = 3.5 /\
  trafficModifier 1.3 103.8 [zeroEndBand] <> 0.
Proof.
  split; [constructor; [apply zeroEndBand_invalid | constructor]|].
  rewrite trafficModifier_zeroEndBand. split; [reflexivity | lra].
Qed.

(** What holds of the base traffic modifier on the code.  For every point and
    segment list it lies in [[0, 4]]; it is exactly 0 when the list is empty
    or when every segment is skipped by the guard (start latitude or
    longitude absent or zero), has an absent end coordinate, or is at 400 m
    or more from the point; and a segment whose distance is exactly 400 m
    contributes nothing: removing it from any list leaves the modifier
    unchanged. *)
Theorem base_traffic_modifier_range_and_zero :
  (forall lat lng bands, 0 <= trafficModifier lat lng bands <= 4.0) /\
  (forall lat lng, trafficModifier lat lng [] = 0) /\
  (forall lat lng bands,
      Forall (outOfReach lat lng) bands -> trafficModifier lat lng bands = 0) /\
  (forall lat lng band l1 l2,
      segmentDistance lat lng band = Some TRAFFIC_RADIUS ->
      segmentExhaust lat lng band = None /\
      trafficModifier lat lng (l1 ++ band :: l2) = trafficModifier lat lng (l1 ++ l2)).
Proof.
  split; [|split; [|split]].
  - intros lat lng bands. pose proof (trafficModifier_bounds lat lng bands). lra.
  - reflexivity.
  - apply trafficModifier_all_outOfReach.
  - intros lat lng band l1 l2 H.
    assert (outOfReach lat lng band) as Hout.
    { right; right. exists TRAFFIC_RADIUS. split; [exact H | lra]. }
    split.
    + apply outOfReach_no_exhaust, Hout.
    + rewrite !trafficModifier_spec, !qualifyingExhausts_app.
      cbn [qualifyingExhausts].
      rewrite (outOfReach_no_exhaust lat lng band Hout). reflexivity.
Qed.

Lemma base_traffic_modifier_range_and_zero_witness :
  Forall (outOfReach 1 1) [boundaryBand] /\
  segmentDistance 1 1 boundaryBand = Some TRAFFIC_RADIUS /\
  trafficModifier 1 1 [boundaryBand] = 0 /\
  trafficModifier 1 1 ([expresswayBand] ++ boundaryBand :: [residentialBand])
  = trafficModifier 1 1 ([expresswayBand] ++ [residentialBand]).
Proof.
  pose proof base_traffic_modifier_range_and_zero as (_ & _ & Hzero & Hedge).
  assert (segmentDistance 1 1 boundaryBand = Some TRAFFIC_RADIUS) as Hd
    by apply boundaryBand_distance.
  assert (Forall (outOfReach 1 1) [boundaryBand]) as Hall.
  { constructor; [|constructor]. right; right.
    exists TRAFFIC_RADIUS. split; [exact Hd | lra]. }
  split; [exact Hall|]. split; [exact Hd|]. split.
  - exact (Hzero 1 1 [boundaryBand] Hall).
  - exact (proj2 (Hedge 1 1 boundaryBand [expresswayBand] [residentialBand] Hd)).
Defined.

Lemma equal_distance_pair (lat lng : R) (b1 b2 : TrafficSpeedBand) (d : R) :
  guardSkips b1 = false -> guardSkips b2 = false ->
  segmentDistance lat lng b1 = Some d ->
  segmentDistance lat lng b2 = Some d ->
  d < TRAFFIC_RADIUS ->
  frc b1 = Some 0 -> congestionRatio b1 = Some 1.0 ->
  frc b2 = Some 6 -> congestionRatio b2 = Some 0.1 ->
  segmentExhaust lat lng b1 = Some (1.0 * 1.0 * (1 - d / TRAFFIC_RADIUS)) /\
  segmentExhaust lat lng b2 = Some (0.05 * 3.0 * (1 - d / TRAFFIC_RADIUS)) /\
  0.05 * 3.0 * (1 - d / TRAFFIC_RADIUS) < 1.0 * 1.0 * (1 - d / TRAFFIC_RADIUS).
Proof.
  intros G1 G2 D1 D2 Hd F1 C1 F2 C2.
  unfold segmentExhaust, resolvedFrc, resolvedCongestion.
  rewrite G1, G2, D1, D2, F1, C1, F2, C2.
  unfold roadVolumeBaseline, congestionEmissionMultiplier.
  unfold TRAFFIC_RADIUS in *.
  destruct (ltb_spec d 400); [|lra].
  js_eval. repeat split; lra.
Qed.

Lemma scaledPenalty_capped (w : R) : 8 / 7 <= w -> scaledPenalty w = 4.
Proof.
  intros Hw. unfold scaledPenalty, Js.Math_min. rewrite Rmin_left by lra.
  replace (4.0 * 10) with (IZR 40) by lra. rewrite Math_round_IZR. lra.
Qed.

Lemma expressway_and_residential :
  trafficModifier 1.3 103.8 [expresswayBand; residentialBand] = 3.5 /\
  scaledPenalty
    (fold_right Rplus 0
       (qualifyingExhausts 1.3 103.8 [expresswayBand; residentialBand])) = 4.
Proof.
  rewrite trafficModifier_spec. cbn [qualifyingExhausts].
  rewrite expresswayBand_exhaust, residentialBand_exhaust.
  unfold maxOf. cbn [fold_right]. split.
  - rewrite (Rmax_left 0.15 0) by lra. rewrite Rmax_left by lra.
    apply scaledPenalty_1.
  - apply scaledPenalty_capped. lra.
Qed.

(** C4.  The traffic modifier is the scaled maximum, not the sum, of the
    exhaust values [roadVolume(frc) * emissionMultiplier(congestion) *
    distanceFactor] of the qualifying segments.  In particular, for two
    segments at the same distance [d < 400] from the point, one with
    [frc = 0] and [congestionRatio = 1.0] and one with [frc = 6] and
    [congestionRatio = 0.1], in either order, the modifier is the scaled
    exhaust of the expressway segment, the one it has when the expressway
    segment is alone.  On the sample pair at distance 0 the modifier is 3.5,
    where the scaled sum of the two exhausts would be 4. *)
Theorem worst_road_wins :
  (forall lat lng bands,
      trafficModifier lat lng bands =
      scaledPenalty (maxOf (qualifyingExhausts lat lng bands))) /\
  (forall lat lng b1 b2 d,
      guardSkips b1 = false -> guardSkips b2 = false ->
      segmentDistance lat lng b1 = Some d ->
      segmentDistance lat lng b2 = Some d ->
      d < TRAFFIC_RADIUS ->
      frc b1 = Some 0 -> congestionRatio b1 = Some 1.0 ->
      frc b2 = Some 6 -> congestionRatio b2 = Some 0.1 ->
      trafficModifier lat lng [b1; b2] =
        scaledPenalty (1.0 * 1.0 * (1 - d / TRAFFIC_RADIUS)) /\
      trafficModifier lat lng [b2; b1] =
        scaledPenalty (1.0 * 1.0 * (1 - d / TRAFFIC_RADIUS)) /\
      trafficModifier lat lng [b1] =
        scaledPenalty (1.0 * 1.0 * (1 - d / TRAFFIC_RADIUS))) /\
  (trafficModifier 1.3 103.8 [expresswayBand; residentialBand] = 3.5 /\
   scaledPenalty
     (fold_right Rplus 0
        (qualifyingExhausts 1.3 103.8 [expresswayBand; residentialBand])) = 4).
Proof.
  split; [apply trafficModifier_spec|].
  split; [|apply expressway_and_residential].
  intros lat lng b1 b2 d G1 G2 D1 D2 Hd F1 C1 F2 C2.
  destruct (equal_distance_pair lat lng b1 b2 d G1 G2 D1 D2 Hd F1 C1 F2 C2)
    as (E1 & E2 & Hlt).
  assert (0 < 1.0 * 1.0 * (1 - d / TRAFFIC_RADIUS)) as Hpos
    by (unfold TRAFFIC_RADIUS in *; lra).
  rewrite !trafficModifier_spec. cbn [qualifyingExhausts].
  rewrite E1, E2. unfold maxOf. cbn [fold_right].
  repeat split; f_equal.
  - rewrite (Rmax_left (0.05 * 3.0 * _) 0) by lra. apply Rmax_left. lra.
  - rewrite (Rmax_left (1.0 * 1.0 * _) 0) by lra. apply Rmax_right. lra.
  - apply Rmax_left. lra.
Qed.

Lemma worst_road_wins_witness :
  guardSkips expresswayBand = false /\
  guardSkips residentialBand = false /\
  segmentDistance 1.3 103.8 expresswayBand = Some 0 /\
  segmentDistance 1.3 103.8 residentialBand = Some 0 /\
  0 < TRAFFIC_RADIUS /\
  trafficModifier 1.3 103.8 [expresswayBand; residentialBand] = 3.5 /\
  trafficModifier 1.3 103.8 [residentialBand; expresswayBand] = 3.5.
Proof.
  assert (guardSkips expresswayBand = false) as G1.
  { apply guardSkips_false_iff. exists 1.3, 103.8. cbn. repeat split; lra. }
  assert (guardSkips residentialBand = false) as G2.
  { apply guardSkips_false_iff. exists 1.3, 103.8. cbn. repeat split; lra. }
  assert (segmentDistance 1.3 103.8 expresswayBand = Some 0) as D1.
  { unfold segmentDistance. cbn [startLat startLng endLat endLng expresswayBand].
    now rewrite pointToSegmentDist_at_start. }
  assert (segmentDistance 1.3 103.8 residentialBand = Some 0) as D2.
  { unfold segmentDistance. cbn [startLat startLng endLat endLng residentialBand].
    now rewrite pointToSegmentDist_at_start. }
  assert (0 < TRAFFIC_RADIUS) as Hd by (unfold TRAFFIC_RADIUS; lra).
  destruct (proj1 (proj2 worst_road_wins) 1.3 103.8 expresswayBand residentialBand 0
              G1 G2 D1 D2 Hd eq_refl eq_refl eq_refl eq_refl) as (H12 & H21 & _).
  assert (scaledPenalty (1.0 * 1.0 * (1 - 0 / TRAFFIC_RADIUS)) = 3.5) as Hs.
  { replace (1.0 * 1.0 * (1 - 0 / TRAFFIC_RADIUS)) with 1
      by (unfold TRAFFIC_RADIUS; lra).
    apply scaledPenalty_1. }
  rewrite Hs in H12, H21.
  repeat (split; [assumption|]). assumption.
Defined.

(** ** Road-class inference *)

Section Strings.

Import JsString.







End Strings.

Lemma inferFrc_absent_or_empty :
  inferFrcFromRoadName None = 3 /\ inferFrcFromRoadName (Some ""%string) = 3.
Proof. split; reflexivity. Qed.





(** ** Static grid lookup *)

Section GridLookup.

Variables lat lng : R.

Lemma nearestScan_inv (cs : list GridCell) :
  forall closest minDist,
    tracked lat lng closest minDist ->
    match nearestScan lat lng cs closest minDist with
    | None => closest = None /\ cs = []
    | Some c =>
        (closest = Some c \/ In c (scannedCells lat lng cs)) /\
        (forall c', In c' (scannedCells lat lng cs) ->
                    l1dist lat lng c <= l1dist lat lng c') /\
        (forall c0, closest = Some c0 -> l1dist lat lng c <= l1dist lat lng c0)
    end.
Proof.
  induction cs as [|cell rest IH]; intros closest minDist Htr.
  - cbn. destruct closest as [c0|]; [|auto].
    split; [now left|]. split; [intros c' []|].
    intros c1 H. injection H as ->. lra.
  - cbn [nearestScan scannedCells]. fold (l1dist lat lng cell).
    unfold Js.Math_abs. fold (l1dist lat lng cell).
    set (d := l1dist lat lng cell). fold EPSILON.
    destruct (Js.lt_dist d minDist) eqn:Hlt.
    + (* the cell becomes the closest so far *)
      assert (forall c0, closest = Some c0 -> d <= l1dist lat lng c0) as Hc0.
      { intros c0 ->. destruct minDist as [|m]; [contradiction|].
        cbn in Htr, Hlt. subst m.
        destruct (ltb_spec d (l1dist lat lng c0)); [lra | discriminate]. }
      destruct (ltb_spec d EPSILON).
      * split; [right; now left|]. split; [|exact Hc0].
        intros c' [<- | []]. fold d. lra.
      * specialize (IH (Some cell) (Js.Finite d) eq_refl).
        destruct (nearestScan lat lng rest (Some cell) (Js.Finite d)) as [c|].
        -- destruct IH as (Hin & Hmin & Hcell).
           specialize (Hcell cell eq_refl). fold d in Hcell.
           split; [|split].
           ++ right. destruct Hin as [Heq | Hin];
                [injection Heq as ->; now left | now right].
           ++ intros c' [<- | Hc']; [exact Hcell | now apply Hmin].
           ++ intros c0 H0. specialize (Hc0 c0 H0). lra.
        -- destruct IH as (Habs & _). discriminate.
    + (* the closest so far stays *)
      destruct closest as [c0|];
        [| destruct minDist; [discriminate | contradiction]].
      destruct minDist as [|m]; [contradiction|].
      cbn in Htr, Hlt. subst m.
      assert (l1dist lat lng c0 <= d) as Hle
        by (destruct (ltb_spec d (l1dist lat lng c0)); [discriminate | lra]).
      destruct (ltb_spec d EPSILON).
      * split; [now left|]. split.
        -- intros c' [<- | []]. exact Hle.
        -- intros c1 H1. injection H1 as ->. lra.
      * specialize (IH (Some c0) (Js.Finite (l1dist lat lng c0)) eq_refl).
        destruct (nearestScan lat lng rest (Some c0)
                    (Js.Finite (l1dist lat lng c0))) as [c|].
        -- destruct IH as (Hin & Hmin & Hc0).
           split; [|split].
           ++ destruct Hin as [Heq | Hin]; [now left | right; now right].
           ++ intros c' [<- | Hc']; [|now apply Hmin].
              specialize (Hc0 c0 eq_refl). fold d. lra.
           ++ exact Hc0.
        -- destruct IH as (Habs & _). discriminate.
Qed.

Lemma scannedCells_no_hit (cs : list GridCell) :
  (forall c, In c cs -> EPSILON <= l1dist lat lng c) ->
  scannedCells lat lng cs = cs.
Proof.
  induction cs as [|cell rest IH]; intros H; cbn [scannedCells]; [reflexivity|].
  destruct (ltb_spec (l1dist lat lng cell) EPSILON) as [Hlt|_].
  - specialize (H cell (or_introl eq_refl)). lra.
  - f_equal. apply IH. intros c Hc. apply H. now right.
Qed.

Lemma scannedCells_first_hit (pre post : list GridCell) (hit : GridCell) :
  (forall c, In c pre -> EPSILON <= l1dist lat lng c) ->
  l1dist lat lng hit < EPSILON ->
  scannedCells lat lng (pre ++ hit :: post) = (pre ++ [hit])%list.
Proof.
  intros Hpre Hhit. induction pre as [|cell pre IH]; cbn [scannedCells app].
  - destruct (ltb_spec (l1dist lat lng hit) EPSILON); [reflexivity | lra].
  - destruct (ltb_spec (l1dist lat lng cell) EPSILON) as [Hlt|_].
    + specialize (Hpre cell (or_introl eq_refl)). lra.
    + f_equal. apply IH. intros c Hc. apply Hpre. now right.
Qed.

Lemma scannedCells_incl (cs : list GridCell) :
  incl (scannedCells lat lng cs) cs.
Proof.
  induction cs as [|cell rest IH]; cbn [scannedCells]; [apply incl_refl|].
  destruct (l1dist lat lng cell <? EPSILON).
  - intros c [<- | []]. now left.
  - intros c [<- | Hc]; [now left | right; now apply IH].
Qed.

Lemma findNearestCell_null (grid : option StaticGrid) :
  findNearestCell lat lng grid = None <->
  grid = None \/ exists g, grid = Some g /\ cells g = [].
Proof.
  unfold findNearestCell. destruct grid as [g|].
  - destruct (cells g) as [|cell rest] eqn:Hcells.
    + split; [intros _; right; now exists g | reflexivity].
    + pose proof (nearestScan_inv (cell :: rest) None Js.Infinity I) as H.
      destruct (nearestScan lat lng (cell :: rest) None Js.Infinity).
      * split; [discriminate|].
        intros [Habs | (g' & Hg & Hnil)]; [discriminate|].
        injection Hg as <-. congruence.
      * destruct H as (_ & Habs). discriminate.
  - split; [now left | reflexivity].
Qed.

Lemma findNearestCell_some (g : StaticGrid) (c : GridCell) :
  findNearestCell lat lng (Some g) = Some c ->
  In c (scannedCells lat lng (cells g)) /\
  (forall c', In c' (scannedCells lat lng (cells g)) ->
              l1dist lat lng c <= l1dist lat lng c').
Proof.
  unfold findNearestCell. destruct (cells g) as [|cell rest]; [discriminate|].
  intros H.
  pose proof (nearestScan_inv (cell :: rest) None Js.Infinity I) as Hinv.
  rewrite H in Hinv. destruct Hinv as ([Habs | Hin] & Hmin & _);
    [discriminate | auto].
Qed.

(** With ties, the scan keeps the earlier cell: the result splits the scanned
    cells into cells that are strictly farther, the result, and cells that
    are not nearer. *)
Lemma nearestScan_first_min (cs : list GridCell) :
  forall closest minDist,
    tracked lat lng closest minDist ->
    match nearestScan lat lng cs closest minDist with
    | None => closest = None /\ cs = []
    | Some c =>
        (closest = Some c /\
         forall c', In c' (scannedCells lat lng cs) ->
                    l1dist lat lng c <= l1dist lat lng c') \/
        (exists pre post,
            scannedCells lat lng cs = (pre ++ c :: post)%list /\
            (forall c', In c' pre -> l1dist lat lng c < l1dist lat lng c') /\
            (forall c', In c' post -> l1dist lat lng c <= l1dist lat lng c') /\
            (forall c0, closest = Some c0 -> l1dist lat lng c < l1dist lat lng c0))
    end.
Proof.
  induction cs as [|cell rest IH]; intros closest minDist Htr.
  - cbn. destruct closest as [c0|]; [|auto].
    left. split; [reflexivity | intros c' []].
  - cbn [nearestScan scannedCells]. fold (l1dist lat lng cell).
    unfold Js.Math_abs. fold (l1dist lat lng cell).
    set (d := l1dist lat lng cell). fold EPSILON.
    destruct (Js.lt_dist d minDist) eqn:Hlt.
    + assert (forall c0, closest = Some c0 -> d < l1dist lat lng c0) as Hc0.
      { intros c0 ->. destruct minDist as [|m]; [contradiction|].
        cbn in Htr, Hlt. subst m.
        destruct (ltb_spec d (l1dist lat lng c0)); [assumption | discriminate]. }
      destruct (ltb_spec d EPSILON).
      * right. exists [], []. split; [reflexivity|].
        split; [intros c' []|]. split; [intros c' [] | exact Hc0].
      * specialize (IH (Some cell) (Js.Finite d) eq_refl).
        destruct (nearestScan lat lng rest (Some cell) (Js.Finite d)) as [c|].
        -- right. destruct IH as [(Heq & Hmin) | (pre & post & Hsc & Hpre & Hpost & Hcl)].
           ++ injection Heq as <-.
              exists [], (scannedCells lat lng rest). split; [reflexivity|].
              split; [intros c' []|]. split; [exact Hmin | exact Hc0].
           ++ specialize (Hcl cell eq_refl). fold d in Hcl.
              exists (cell :: pre), post. split; [cbn [app]; now rewrite Hsc|].
              split; [intros c' [<- | Hc']; [exact Hcl | now apply Hpre]|].
              split; [exact Hpost|].
              intros c0 H0. specialize (Hc0 c0 H0). lra.
        -- destruct IH as (Habs & _). discriminate.
    + destruct closest as [c0|];
        [| destruct minDist; [discriminate | contradiction]].
      destruct minDist as [|m]; [contradiction|].
      cbn in Htr, Hlt. subst m.
      assert (l1dist lat lng c0 <= d) as Hle
        by (destruct (ltb_spec d (l1dist lat lng c0)); [discriminate | lra]).
      destruct (ltb_spec d EPSILON).
      * left. split; [reflexivity|]. intros c' [<- | []]. exact Hle.
      * specialize (IH (Some c0) (Js.Finite (l1dist lat lng c0)) eq_refl).
        destruct (nearestScan lat lng rest (Some c0)
                    (Js.Finite (l1dist lat lng c0))) as [c|].
        -- destruct IH as [(Heq & Hmin) | (pre & post & Hsc & Hpre & Hpost & Hcl)].
           ++ injection Heq as <-. left. split; [reflexivity|].
              intros c' [<- | Hc']; [exact Hle | now apply Hmin].
           ++ specialize (Hcl c0 eq_refl). right.
              exists (cell :: pre), post. split; [cbn [app]; now rewrite Hsc|].
              split; [intros c' [<- | Hc']; [fold d; lra | now apply Hpre]|].
              split; [exact Hpost|].
              intros c1 H1. injection H1 as <-. exact Hcl.
        -- destruct IH as (Habs & _). discriminate.
Qed.

Lemma findNearestCell_first_min (g : StaticGrid) (c : GridCell) :
  findNearestCell lat lng (Some g) = Some c ->
  exists pre post,
    scannedCells lat lng (cells g) = (pre ++ c :: post)%list /\
    (forall c', In c' pre -> l1dist lat lng c < l1dist lat lng c') /\
    (forall c', In c' post -> l1dist lat lng c <= l1dist lat lng c').
Proof.
  unfold findNearestCell. destruct (cells g) as [|cell rest]; [discriminate|].
  intros H.
  pose proof (nearestScan_first_min (cell :: rest) None Js.Infinity I) as Hinv.
  rewrite H in Hinv.
  destruct Hinv as [(Habs & _) | (pre & post & Hsc & Hpre & Hpost & _)];
    [discriminate|].
  now exists pre, post.
Qed.

End GridLookup.

Lemma nearCell_l1 : l1dist 0 0 nearCell = 0.000005.
Proof.
  unfold l1dist. cbn [cell_lat cell_lng nearCell].
  rewrite !Rminus_0_r, Rabs_R0, Rabs_pos_eq; lra.
Qed.

Lemma exactCell_l1 : l1dist 0 0 exactCell = 0.
Proof.
  unfold l1dist. cbn [cell_lat cell_lng exactCell].
  rewrite !Rminus_0_r, Rabs_R0. lra.
Qed.

Lemma twoCellGrid_lookup :
  findNearestCell 0 0 (Some twoCellGrid) = Some nearCell.
Proof.
  unfold findNearestCell. cbn [cells twoCellGrid nearestScan].
  unfold Js.Math_abs. fold (l1dist 0 0 nearCell). rewrite nearCell_l1.
  cbn [Js.lt_dist]. js_eval. reflexivity.
Qed.

(** C7, as stated, fails: the early exit can return a cell that is not the
    nearest of the grid. *)
Lemma early_exit_not_minimal :
  ~ (forall lat lng g c,
        findNearestCell lat lng (Some g) = Some c ->
        forall c', In c' (cells g) -> l1dist lat lng c <= l1dist lat lng c').
Proof.
  intros H.
  specialize (H 0 0 twoCellGrid nearCell twoCellGrid_lookup exactCell).
  rewrite nearCell_l1, exactCell_l1 in H.
  assert (0.000005 <= 0) by (apply H; cbn; auto).
  lra.
Qed.

(** C7, amended.  [findNearestCell] returns null if and only if the grid is
    absent or its cell list is empty.  Otherwise it returns one of the cells
    scanned, where the scan stops after the first cell within the epsilon
    0.00001, and among the cells scanned it returns the first, in the order
    of the list, whose L1 degree-distance to the query point is minimal:
    every scanned cell before it is strictly farther and no scanned cell
    after it is nearer.  So the result is minimal over all cells when no
    cell is within epsilon, and otherwise it is minimal over the cells up to
    and including the first one within epsilon, hence itself within
    epsilon. *)
Theorem nearest_cell_lookup (lat lng : R) :
  (forall grid,
      findNearestCell lat lng grid = None <->
      grid = None \/ exists g, grid = Some g /\ cells g = []) /\
  (forall g c,
      findNearestCell lat lng (Some g) = Some c ->
      In c (scannedCells lat lng (cells g)) /\
      In c (cells g) /\
      (forall c', In c' (scannedCells lat lng (cells g)) ->
                  l1dist lat lng c <= l1dist lat lng c') /\
      (exists pre post,
          scannedCells lat lng (cells g) = (pre ++ c :: post)%list /\
          (forall c', In c' pre -> l1dist lat lng c < l1dist lat lng c') /\
          (forall c', In c' post -> l1dist lat lng c <= l1dist lat lng c')) /\
      ((forall c', In c' (cells g) -> EPSILON <= l1dist lat lng c') ->
       scannedCells lat lng (cells g) = cells g /\
       forall c', In c' (cells g) -> l1dist lat lng c <= l1dist lat lng c') /\
      (forall pre hit post,
          cells g = (pre ++ hit :: post)%list ->
          (forall c', In c' pre -> EPSILON <= l1dist lat lng c') ->
          l1dist lat lng hit < EPSILON ->
          scannedCells lat lng (cells g) = (pre ++ [hit])%list /\
          l1dist lat lng c < EPSILON)).
Proof.
  split; [apply findNearestCell_null|].
  intros g c H.
  destruct (findNearestCell_some lat lng g c H) as (Hin & Hmin).
  split; [exact Hin|].
  split; [now apply (scannedCells_incl lat lng (cells g))|].
  split; [exact Hmin|].
  split; [now apply findNearestCell_first_min|]. split.
  - intros Hfar.
    pose proof (scannedCells_no_hit lat lng (cells g) Hfar) as Hsc.
    split; [exact Hsc|]. intros c' Hc'. apply Hmin. now rewrite Hsc.
  - intros pre hit post Hcells Hpre Hhit.
    assert (scannedCells lat lng (cells g) = (pre ++ [hit])%list) as Hsc
      by (rewrite Hcells; now apply scannedCells_first_hit).
    split; [exact Hsc|].
    assert (l1dist lat lng c <= l1dist lat lng hit).
    { apply Hmin. rewrite Hsc. apply in_or_app. right. now left. }
    lra.
Qed.

Lemma nearest_cell_lookup_witness :
  findNearestCell 0 0 (Some twoCellGrid) = Some nearCell /\
  In nearCell (scannedCells 0 0 (cells twoCellGrid)) /\
  l1dist 0 0 nearCell < EPSILON.
Proof.
  pose proof twoCellGrid_lookup as Hlook.
  destruct (proj2 (nearest_cell_lookup 0 0) twoCellGrid nearCell Hlook)
    as (Hin & _ & _ & _ & _ & Hhit).
  split; [exact Hlook|]. split; [exact Hin|].
  assert (l1dist 0 0 nearCell < EPSILON) as Hnear
    by (rewrite nearCell_l1; unfold EPSILON; lra).
  exact (proj2 (Hhit [] nearCell [exactCell] eq_refl
                  (fun c' (Hc : In c' []) => False_ind _ Hc) Hnear)).
Defined.

(** ** Polygon geometry *)

Section Geometry.

Lemma last_in {A : Type} (l : list A) (d : A) : l <> [] -> In (last l d) l.
Proof.
  induction l as [|x l IH]; [contradiction|]. intros _.
  destruct l as [|y l]; [now left|].
  right. apply IH. discriminate.
Qed.

Lemma removelast_in {A : Type} (l : list A) (x : A) :
  In x (removelast l) -> In x l.
Proof.
  induction l as [|y l IH]; [intros []|].
  destruct l as [|z l]; [intros []|].
  intros [<- | H]; [now left | right; now apply IH].
Qed.

(** Both ends of an edge are vertices of the ring. *)
Lemma ring_edges_in (ring : list (R * R)) (vi vj : R * R) :
  In (vi, vj) (ring_edges ring) -> In vi ring /\ In vj ring.
Proof.
  unfold ring_edges. destruct ring as [|v ring']; [intros []|].
  intros H. split.
  - eapply in_combine_l, H.
  - apply in_combine_r in H. destruct H as [<- | H].
    + apply last_in. discriminate.
    + now apply removelast_in.
Qed.

(** *** Ray casting *)

Lemma pointInPolygon_no_toggle (lat lng : R) (ring : list (R * R)) :
  (forall xi yi xj yj,
      In ((xi, yi), (xj, yj)) (ring_edges ring) ->
      (negb (Bool.eqb (yi >? lat) (yj >? lat)) &&
       (lng <? (xj - xi) * (lat - yi) / (yj - yi) + xi))%bool = false) ->
  pointInPolygon lat lng ring = false.
Proof.
  unfold pointInPolygon. generalize (ring_edges ring). intros edges H.
  induction edges as [|[[xi yi] [xj yj]] edges IH]; cbn [fold_left]; [reflexivity|].
  rewrite (H xi yi xj yj) by now left.
  apply IH. intros a b c d Hin. apply H. now right.
Qed.

(** No edge crosses the latitude of a point that lies below every vertex. *)
Lemma pointInPolygon_below (lat lng : R) (ring : list (R * R)) :
  Forall (fun v => lat < snd v) ring -> pointInPolygon lat lng ring = false.
Proof.
  intros H. rewrite Forall_forall in H.
  apply pointInPolygon_no_toggle. intros xi yi xj yj Hin.
  apply ring_edges_in in Hin as [Hi Hj].
  apply H in Hi; apply H in Hj; cbn in Hi, Hj.
  unfold Js.gtb.
  destruct (ltb_spec lat yi); [|lra]. destruct (ltb_spec lat yj); [|lra].
  reflexivity.
Qed.

(** Nor the latitude of a point that lies on or above every vertex. *)
Lemma pointInPolygon_above (lat lng : R) (ring : list (R * R)) :
  Forall (fun v => snd v <= lat) ring -> pointInPolygon lat lng ring = false.
Proof.
  intros H. rewrite Forall_forall in H.
  apply pointInPolygon_no_toggle. intros xi yi xj yj Hin.
  apply ring_edges_in in Hin as [Hi Hj].
  apply H in Hi; apply H in Hj; cbn in Hi, Hj.
  unfold Js.gtb.
  destruct (ltb_spec lat yi); [lra|]. destruct (ltb_spec lat yj); [lra|].
  reflexivity.
Qed.

Lemma crossing_between (xi yi xj yj lat bound : R) :
  (yi > lat /\ yj <= lat) \/ (yj > lat /\ yi <= lat) ->
  xi <= bound -> xj <= bound ->
  (xj - xi) * (lat - yi) / (yj - yi) + xi <= bound.
Proof.
  intros Hcross Hi Hj.
  set (s := (lat - yi) / (yj - yi)).
  assert (yj - yi <> 0) as Hne by lra.
  assert (s * (yj - yi) = lat - yi) as Hs by (unfold s; field; exact Hne).
  assert (0 <= s <= 1) as [Hs0 Hs1] by (split; nra).
  replace ((xj - xi) * (lat - yi) / (yj - yi)) with ((xj - xi) * s)
    by (unfold s, Rdiv; ring).
  nra.
Qed.

(** A point east of every vertex is outside: each crossing lies between
    the two ends of its edge. *)
Lemma pointInPolygon_east (lat lng : R) (ring : list (R * R)) :
  Forall (fun v => fst v <= lng) ring -> pointInPolygon lat lng ring = false.
Proof.
  intros H. rewrite Forall_forall in H.
  apply pointInPolygon_no_toggle. intros xi yi xj yj Hin.
  apply ring_edges_in in Hin as [Hi Hj].
  apply H in Hi; apply H in Hj; cbn in Hi, Hj.
  unfold Js.gtb.
  destruct (ltb_spec lat yi), (ltb_spec lat yj); cbn [Bool.eqb negb andb];
    try reflexivity.
  - destruct (ltb_spec lng ((xj - xi) * (lat - yi) / (yj - yi) + xi)) as [Hlt|];
      [|reflexivity].
    pose proof (crossing_between xi yi xj yj lat lng) as Hc.
    assert ((xj - xi) * (lat - yi) / (yj - yi) + xi <= lng)
      by (apply Hc; [left; lra | lra | lra]).
    lra.
  - destruct (ltb_spec lng ((xj - xi) * (lat - yi) / (yj - yi) + xi)) as [Hlt|];
      [|reflexivity].
    pose proof (crossing_between xi yi xj yj lat lng) as Hc.
    assert ((xj - xi) * (lat - yi) / (yj - yi) + xi <= lng)
      by (apply Hc; [right; lra | lra | lra]).
    lra.
Qed.

(** *** Distance to a segment *)

(** The distance is that from the point to some point of the segment. *)
Lemma pointToSegmentDist_proj (px py ax ay bx by_ cosLat : R) :
  exists t, 0 <= t <= 1 /\
    pointToSegmentDist px py ax ay bx by_ cosLat =
    sqrt (Rsqr (((1 - t) * (px - ax) + t * (px - bx)) * DEG_TO_M * cosLat)
          + Rsqr (((1 - t) * (py - ay) + t * (py - by_)) * DEG_TO_M)).
Proof.
  unfold pointToSegmentDist. cbv zeta.
  match goal with |- context [Js.eqb ?a ?b] => destruct (Js.eqb a b) end.
  - exists 0. split; [lra|]. unfold Js.Math_sqrt, Rsqr. f_equal. ring.
  - match goal with |- context [Js.Math_max 0 (Js.Math_min 1 ?q)] =>
      set (t := Js.Math_max 0 (Js.Math_min 1 q))
    end.
    exists t. split.
    + unfold t, Js.Math_max, Js.Math_min. split; [apply Rmax_l|].
      apply Rmax_lub; [lra | apply Rmin_l].
    + unfold Js.Math_sqrt, Rsqr. f_equal. ring.
Qed.

Lemma sqrt_sum_ge_r (a b m : R) : 0 <= m -> m <= Rabs b -> m <= sqrt (Rsqr a + Rsqr b).
Proof.
  intros Hm Hb.
  rewrite <- (sqrt_Rsqr m Hm). apply sqrt_le_1_alt.
  pose proof (Rle_0_sqr a).
  assert (Rsqr m <= Rsqr b); [|lra].
  rewrite (Rsqr_abs b). apply Rsqr_incr_1; [exact Hb | exact Hm | apply Rabs_pos].
Qed.

Lemma sqrt_sum_ge_l (a b m : R) : 0 <= m -> m <= Rabs a -> m <= sqrt (Rsqr a + Rsqr b).
Proof.
  intros Hm Ha. rewrite Rplus_comm. now apply sqrt_sum_ge_r.
Qed.

(** Both ends of the segment lie at least [m] degrees to one side of the
    point in the second coordinate. *)
Lemma pointToSegmentDist_sep_second (px py ax ay bx by_ cosLat m : R) :
  0 <= m ->
  (m <= py - ay /\ m <= py - by_) \/ (m <= ay - py /\ m <= by_ - py) ->
  m * DEG_TO_M <= pointToSegmentDist px py ax ay bx by_ cosLat.
Proof.
  intros Hm Hsep.
  destruct (pointToSegmentDist_proj px py ax ay bx by_ cosLat) as (t & [Ht0 Ht1] & ->).
  unfold DEG_TO_M in *.
  apply sqrt_sum_ge_r; [lra|].
  destruct Hsep as [[H1 H2] | [H1 H2]].
  - rewrite Rabs_pos_eq; nra.
  - rewrite Rabs_left1; nra.
Qed.

(** The same in the first coordinate, which is scaled by [cosLat]. *)
Lemma pointToSegmentDist_sep_first (px py ax ay bx by_ cosLat m c : R) :
  0 <= m -> 0 <= c <= cosLat ->
  (m <= px - ax /\ m <= px - bx) \/ (m <= ax - px /\ m <= bx - px) ->
  m * DEG_TO_M * c <= pointToSegmentDist px py ax ay bx by_ cosLat.
Proof.
  intros Hm Hc Hsep.
  destruct (pointToSegmentDist_proj px py ax ay bx by_ cosLat) as (t & [Ht0 Ht1] & ->).
  unfold DEG_TO_M in *.
  apply sqrt_sum_ge_l; [nra|].
  destruct Hsep as [[H1 H2] | [H1 H2]].
  - assert (m <= (1 - t) * (px - ax) + t * (px - bx)) by nra.
    rewrite Rabs_pos_eq; nra.
  - assert ((1 - t) * (px - ax) + t * (px - bx) <= - m) by nra.
    rewrite Rabs_left1; nra.
Qed.

(** *** Distance to a ring *)

Lemma distToPolygonEdge_fold (lat lng cosLat : R) (ring : list (R * R)) :
  distToPolygonEdge lat lng ring cosLat =
  fold_left
    (fun minDist e =>
       if Js.lt_dist (edgeDist lat lng cosLat e) minDist
       then Js.Finite (edgeDist lat lng cosLat e) else minDist)
    (ring_edges ring) Js.Infinity.
Proof.
  unfold distToPolygonEdge. generalize Js.Infinity.
  induction (ring_edges ring) as [|[vi vj] edges IH]; intros acc; [reflexivity|].
  cbn [fold_left]. unfold edgeDist at 1 2. cbn [fst snd]. apply IH.
Qed.

Lemma distToPolygonEdge_lower (lat lng cosLat m : R) (ring : list (R * R)) :
  (forall e, In e (ring_edges ring) -> m <= edgeDist lat lng cosLat e) ->
  le_dist m (distToPolygonEdge lat lng ring cosLat).
Proof.
  rewrite distToPolygonEdge_fold.
  assert (le_dist m Js.Infinity) as Hacc by exact I.
  revert Hacc. generalize Js.Infinity.
  induction (ring_edges ring) as [|e edges IH]; intros acc Hacc H; [exact Hacc|].
  cbn [fold_left]. apply IH.
  - destruct (Js.lt_dist (edgeDist lat lng cosLat e) acc); [|exact Hacc].
    cbn. apply H. now left.
  - intros e' He'. apply H. now right.
Qed.

Lemma distToPolygonEdge_exact (lat lng cosLat m : R) (ring : list (R * R)) :
  (forall e, In e (ring_edges ring) -> m <= edgeDist lat lng cosLat e) ->
  (exists e, In e (ring_edges ring) /\ edgeDist lat lng cosLat e = m) ->
  distToPolygonEdge lat lng ring cosLat = Js.Finite m.
Proof.
  rewrite distToPolygonEdge_fold.
  intros Hlow (e0 & Hin & He0).
  assert (le_dist m Js.Infinity) as Hacc by exact I.
  revert Hacc Hlow Hin. generalize Js.Infinity.
  induction (ring_edges ring) as [|e edges IH]; intros acc Hacc Hlow Hin;
    [destruct Hin|].
  cbn [fold_left].
  assert (forall acc', le_dist m acc' ->
            (forall e', In e' edges -> m <= edgeDist lat lng cosLat e') ->
            acc' = Js.Finite m ->
            fold_left
              (fun minDist e1 =>
                 if Js.lt_dist (edgeDist lat lng cosLat e1) minDist
                 then Js.Finite (edgeDist lat lng cosLat e1) else minDist)
              edges acc' = Js.Finite m) as Hstay.
  { clear. induction edges as [|e1 edges IH1]; intros acc' _ Hl ->; [reflexivity|].
    cbn [fold_left Js.lt_dist].
    destruct (ltb_spec (edgeDist lat lng cosLat e1) m) as [Hlt|_].
    - specialize (Hl e1 (or_introl eq_refl)). lra.
    - apply IH1; [cbn; lra | intros e' He'; apply Hl; now right | reflexivity]. }
  destruct Hin as [-> | Hin].
  - apply Hstay.
    + destruct (Js.lt_dist (edgeDist lat lng cosLat e0) acc); [cbn; lra | exact Hacc].
    + intros e' He'. apply Hlow. now right.
    + rewrite He0. destruct acc as [|v]; cbn [Js.lt_dist]; [reflexivity|].
      cbn in Hacc. destruct (ltb_spec m v); [reflexivity | f_equal; lra].
  - apply IH; [| intros e' He'; apply Hlow; now right | exact Hin].
    destruct (Js.lt_dist (edgeDist lat lng cosLat e) acc); [|exact Hacc].
    cbn. apply Hlow. now left.
Qed.

Lemma le_dist_not_lt (m bound : R) (d : Js.dist) :
  bound <= m -> le_dist m d -> Js.dist_lt d bound = false.
Proof.
  intros Hb Hd. destruct d as [|v]; [reflexivity|].
  cbn in *. destruct (ltb_spec v bound); [lra | reflexivity].
Qed.

(** Every vertex lies at least [m] degrees east or west of the point. *)
Lemma edges_far_second (lat lng cosLat m : R) (ring : list (R * R)) :
  0 <= m ->
  Forall (fun v => m <= lng - fst v) ring \/
  Forall (fun v => m <= fst v - lng) ring ->
  forall e, In e (ring_edges ring) -> m * DEG_TO_M <= edgeDist lat lng cosLat e.
Proof.
  intros Hm H [vi vj] Hin.
  apply ring_edges_in in Hin as [Hi Hj]. unfold edgeDist. cbn [fst snd].
  apply pointToSegmentDist_sep_second; [exact Hm|].
  destruct H as [H | H]; rewrite Forall_forall in H; [left | right];
    split; now apply H.
Qed.

Lemma ring_far_second (lat lng cosLat m : R) (ring : list (R * R)) :
  0 <= m ->
  Forall (fun v => m <= lng - fst v) ring \/
  Forall (fun v => m <= fst v - lng) ring ->
  le_dist (m * DEG_TO_M) (distToPolygonEdge lat lng ring cosLat).
Proof.
  intros Hm H. apply distToPolygonEdge_lower. now apply edges_far_second.
Qed.

(** The foot of the perpendicular falls on a segment of constant second
    coordinate when the first coordinate of the point is between those of
    its ends. *)
Lemma pointToSegmentDist_perp (px py ax ay bx cosLat : R) :
  (ax <= px <= bx \/ bx <= px <= ax) ->
  pointToSegmentDist px py ax ay bx ay cosLat = Rabs (py - ay) * DEG_TO_M.
Proof.
  intros Hbetween.
  assert (forall e, sqrt (0 * 0 + e * DEG_TO_M * (e * DEG_TO_M)) = Rabs e * DEG_TO_M)
    as Hsq.
  { intros e. replace (0 * 0 + e * DEG_TO_M * (e * DEG_TO_M))
      with (Rsqr (e * DEG_TO_M)) by (unfold Rsqr; ring).
    rewrite sqrt_Rsqr_abs, Rabs_mult.
    f_equal. apply Rabs_pos_eq. unfold DEG_TO_M. lra. }
  unfold pointToSegmentDist. cbv zeta.
  set (k := DEG_TO_M * cosLat).
  replace ((bx - ax) * DEG_TO_M * cosLat) with ((bx - ax) * k) by (unfold k; ring).
  replace ((px - ax) * DEG_TO_M * cosLat) with ((px - ax) * k) by (unfold k; ring).
  replace ((ay - ay) * DEG_TO_M) with 0 by ring.
  unfold Js.Math_sqrt.
  match goal with |- context [Js.eqb ?a ?b] => destruct (eqb_spec a b) as [Hz|Hnz] end.
  - assert ((px - ax) * k = 0) as ->; [|apply Hsq].
    assert ((bx - ax) * k = 0) as H0 by nra.
    apply Rmult_integral in H0 as [H0 | H0]; [|rewrite H0; ring].
    replace px with ax by lra. ring.
  - set (dx := (bx - ax) * k) in *. set (ex := (px - ax) * k) in *.
    assert (dx <> 0) as Hdx by (intros H0; apply Hnz; rewrite H0; ring).
    assert (0 < dx * dx) as Hpos by nra.
    assert (0 <= ex * dx) as Hlo.
    { unfold ex, dx. replace ((px - ax) * k * ((bx - ax) * k))
        with (((px - ax) * (bx - ax)) * (k * k)) by ring.
      apply Rmult_le_pos; nra. }
    assert (ex * dx <= dx * dx) as Hhi.
    { assert (0 <= dx * dx - ex * dx); [|lra]. unfold ex, dx.
      replace ((bx - ax) * k * ((bx - ax) * k) - (px - ax) * k * ((bx - ax) * k))
        with (((bx - px) * (bx - ax)) * (k * k)) by ring.
      apply Rmult_le_pos; nra. }
    replace ((ex * dx + (py - ay) * DEG_TO_M * 0) / (dx * dx + 0 * 0))
      with (ex / dx) by (field; exact Hdx).
    assert (ex / dx * (dx * dx) = ex * dx) as Hq by (field; exact Hdx).
    assert (0 <= ex / dx <= 1) as [Hq0 Hq1] by (split; nra).
    unfold Js.Math_max, Js.Math_min.
    rewrite (Rmin_right 1 (ex / dx)) by exact Hq1.
    rewrite (Rmax_right 0 (ex / dx)) by exact Hq0.
    replace (ex - ex / dx * dx) with 0 by (field; exact Hdx).
    replace ((py - ay) * DEG_TO_M - ex / dx * 0) with ((py - ay) * DEG_TO_M) by ring.
    apply Hsq.
Qed.

(** Every vertex lies at least [m] degrees north or south of the point. *)
Lemma ring_far_first (lat lng cosLat m c : R) (ring : list (R * R)) :
  0 <= m -> 0 <= c <= cosLat ->
  Forall (fun v => m <= lat - snd v) ring \/
  Forall (fun v => m <= snd v - lat) ring ->
  le_dist (m * DEG_TO_M * c) (distToPolygonEdge lat lng ring cosLat).
Proof.
  intros Hm Hc H. apply distToPolygonEdge_lower. intros [vi vj] Hin.
  apply ring_edges_in in Hin as [Hi Hj]. unfold edgeDist. cbn [fst snd].
  apply pointToSegmentDist_sep_first; [exact Hm | exact Hc |].
  destruct H as [H | H]; rewrite Forall_forall in H; [left | right];
    split; now apply H.
Qed.

(** The cosine of a latitude between the equator and 60 degrees north. *)
Lemma cosLat_bounds (lat : R) :
  0 <= lat <= 60 -> 1 / 2 <= Js.Math_cos ((lat * Js.Math_PI) / 180) <= 1.
Proof.
  intros [H0 H60]. unfold Js.Math_cos, Js.Math_PI.
  pose proof PI_RGT_0 as Hpi.
  split; [|apply COS_bound].
  rewrite <- cos_PI3. apply cos_decr_1; nra.
Qed.

End Geometry.

(** ** Zone classifiers *)

Section ZoneScans.

Variables lat lng cosLat : R.

Lemma greenZoneScan_all_miss (zones : list Zone) :
  Forall (zoneMisses GREEN_BUFFER_M lat lng cosLat) zones ->
  greenZoneScan zones lat lng cosLat = mkGreenCheck false false.
Proof.
  induction 1 as [|zone rest [Hin Hd] _ IH]; cbn [greenZoneScan]; [reflexivity|].
  now rewrite Hin, Hd.
Qed.

Lemma industrialScan_miss (zone : Zone) (rest : list Zone) :
  zoneMisses INDUSTRIAL_BUFFER_M lat lng cosLat zone ->
  industrialScan (zone :: rest) lat lng cosLat = industrialScan rest lat lng cosLat.
Proof.
  intros [Hin Hd]. cbn [industrialScan]. rewrite Hin.
  destruct (distToPolygonEdge lat lng (ring zone) cosLat) as [|d]; [reflexivity|].
  cbn in Hd. now rewrite Hd.
Qed.

Lemma industrialScan_all_miss (zones : list Zone) :
  Forall (zoneMisses INDUSTRIAL_BUFFER_M lat lng cosLat) zones ->
  industrialScan zones lat lng cosLat = mkIndustrialMod 0 1.
Proof.
  induction 1 as [|zone rest Hz _ IH]; [reflexivity|].
  now rewrite industrialScan_miss.
Qed.

Lemma industrialScan_skip (pre rest : list Zone) :
  Forall (zoneMisses INDUSTRIAL_BUFFER_M lat lng cosLat) pre ->
  industrialScan (pre ++ rest) lat lng cosLat = industrialScan rest lat lng cosLat.
Proof.
  induction 1 as [|zone pre Hz _ IH]; [reflexivity|].
  cbn [app]. now rewrite industrialScan_miss.
Qed.

Lemma industrialScan_inside (zone : Zone) (rest : list Zone) :
  pointInPolygon lat lng (ring zone) = true ->
  industrialScan (zone :: rest) lat lng cosLat = mkIndustrialMod 1.2 1.8.
Proof. intros H. cbn [industrialScan]. now rewrite H. Qed.

Lemma industrialScan_buffer (zone : Zone) (rest : list Zone) (d : R) :
  pointInPolygon lat lng (ring zone) = false ->
  distToPolygonEdge lat lng (ring zone) cosLat = Js.Finite d ->
  d < INDUSTRIAL_BUFFER_M ->
  industrialScan (zone :: rest) lat lng cosLat =
  mkIndustrialMod (0.8 * (1 - d / INDUSTRIAL_BUFFER_M))
                  (1 + 0.6 * (1 - d / INDUSTRIAL_BUFFER_M)).
Proof.
  intros Hin Hd Hlt. cbn [industrialScan]. rewrite Hin, Hd.
  destruct (ltb_spec d INDUSTRIAL_BUFFER_M); [reflexivity | lra].
Qed.

End ZoneScans.

(** Decision of [Forall P ring] for a literal ring and a linear [P]. *)
Ltac ring_forall :=
  repeat (apply Forall_cons; [cbn [fst snd]; lra|]); apply Forall_nil.

(** A literal ring does not contain the point: it lies wholly above, below or
    west of it. *)
Ltac ring_outside :=
  first [ apply pointInPolygon_below; ring_forall
        | apply pointInPolygon_above; ring_forall
        | apply pointInPolygon_east; ring_forall ].

(** A literal ring is at least [buffer] metres away: its vertices all lie
    [m2] degrees east or west, or [m1] degrees north or south, of the point. *)
Ltac ring_far m2 m1 Hcos :=
  first
    [ apply (le_dist_not_lt (m2 * DEG_TO_M)); [unfold DEG_TO_M; lra|];
      apply ring_far_second; [lra|];
      first [left; ring_forall | right; ring_forall]
    | apply (le_dist_not_lt (m1 * DEG_TO_M * (1 / 2))); [unfold DEG_TO_M; lra|];
      apply ring_far_first; [lra | exact Hcos |];
      first [left; ring_forall | right; ring_forall] ].

(** *** The point (1.2836, 103.8607) *)

Lemma gardens_cosLat : 0 <= 1 / 2 <= Js.Math_cos ((gardensLat * Js.Math_PI) / 180).
Proof.
  pose proof (cosLat_bounds gardensLat) as H.
  assert (0 <= gardensLat <= 60) as Hl by (unfold gardensLat; lra).
  specialize (H Hl). lra.
Qed.

(** No green zone decides at the point: the rings of [GREEN_ZONES] are
    written as (latitude, longitude) pairs and read as (longitude, latitude)
    pairs, which puts them some hundred degrees away. *)
Lemma gardens_green_misses :
  Forall (zoneMisses GREEN_BUFFER_M gardensLat gardensLng
            (Js.Math_cos ((gardensLat * Js.Math_PI) / 180))) GREEN_ZONES.
Proof.
  pose proof gardens_cosLat as Hcos.
  unfold GREEN_ZONES, GREEN_BUFFER_M, gardensLat, gardensLng in *.
  repeat (apply Forall_cons;
          [ split; cbn [ring]; [ring_outside | ring_far 100 100 Hcos ] |]).
  apply Forall_nil.
Qed.

Lemma gardens_industrial_misses :
  Forall (zoneMisses INDUSTRIAL_BUFFER_M gardensLat gardensLng
            (Js.Math_cos ((gardensLat * Js.Math_PI) / 180))) INDUSTRIAL_ZONES.
Proof.
  pose proof gardens_cosLat as Hcos.
  unfold INDUSTRIAL_ZONES, INDUSTRIAL_BUFFER_M, gardensLat, gardensLng in *.
  repeat (apply Forall_cons;
          [ split; cbn [ring]; [ring_outside | ring_far 0.0027 0.01 Hcos ] |]).
  apply Forall_nil.
Qed.

(** The same holds at every latitude: the second component of every vertex
    of [GREEN_ZONES], a longitude above 103, is compared with the latitude of
    the point, so no edge is ever crossed and [greenZoneCheck] never reports
    a point inside a park. *)
Lemma greenZoneScan_not_inPark (zones : list Zone) (lat lng cosLat : R) :
  Forall (fun z => pointInPolygon lat lng (ring z) = false) zones ->
  inPark (greenZoneScan zones lat lng cosLat) = false.
Proof.
  induction 1 as [|zone rest Hz _ IH]; cbn [greenZoneScan]; [reflexivity|].
  rewrite Hz.
  destruct (Js.dist_lt (distToPolygonEdge lat lng (ring zone) cosLat) GREEN_BUFFER_M);
    [reflexivity | exact IH].
Qed.

Lemma greenZoneCheck_never_inPark (lat lng cosLat : R) :
  lat <= 90 -> inPark (greenZoneCheck lat lng cosLat) = false.
Proof.
  intros Hlat. apply greenZoneScan_not_inPark. unfold GREEN_ZONES.
  repeat (apply Forall_cons;
          [ cbn [ring]; apply pointInPolygon_below; ring_forall |]).
  apply Forall_nil.
Qed.

(** The cosine of a latitude within 60 degrees of the equator. *)
Lemma cosLat_bounds_sym (lat : R) :
  -60 <= lat <= 60 -> 1 / 2 <= Js.Math_cos ((lat * Js.Math_PI) / 180) <= 1.
Proof.
  intros [Hlo Hhi]. destruct (Rle_dec 0 lat) as [Hpos|Hneg].
  - apply cosLat_bounds. lra.
  - replace ((lat * Js.Math_PI) / 180) with (- ((- lat * Js.Math_PI) / 180)) by lra.
    unfold Js.Math_cos. rewrite cos_neg. apply (cosLat_bounds (- lat)). lra.
Qed.

(** Within 60 degrees of the equator no green zone decides at any point:
    every ring of [GREEN_ZONES] is more than 43 degrees away. *)
Lemma green_zones_miss (lat lng : R) :
  -60 <= lat <= 60 ->
  Forall (zoneMisses GREEN_BUFFER_M lat lng (Js.Math_cos ((lat * Js.Math_PI) / 180)))
    GREEN_ZONES.
Proof.
  intros Hlat.
  assert (0 <= 1 / 2 <= Js.Math_cos ((lat * Js.Math_PI) / 180)) as Hcos
    by (pose proof (cosLat_bounds_sym lat Hlat); lra).
  destruct Hlat as [Hlo Hhi].
  unfold GREEN_ZONES, GREEN_BUFFER_M.
  repeat (apply Forall_cons;
          [ split; cbn [ring];
            [ apply pointInPolygon_below; ring_forall
            | apply (le_dist_not_lt (43 * DEG_TO_M * (1 / 2)));
              [ unfold DEG_TO_M; lra |];
              apply ring_far_first; [lra | exact Hcos |];
              right; ring_forall ] |]).
  apply Forall_nil.
Qed.

Lemma greenZoneCheck_miss (lat lng : R) :
  -60 <= lat <= 60 ->
  greenZoneCheck lat lng (Js.Math_cos ((lat * Js.Math_PI) / 180))
  = mkGreenCheck false false.
Proof.
  intros Hlat. unfold greenZoneCheck.
  apply greenZoneScan_all_miss, green_zones_miss, Hlat.
Qed.

(** Read as (latitude, longitude) pairs, the way it is written, the Gardens
    by the Bay ring does not contain the point either: the point is west of
    its western edge. *)
Lemma gardens_point_outside_as_written :
  pointInPolygon gardensLat gardensLng
    (map (fun v => (snd v, fst v)) gardensRing) = false.
Proof.
  unfold pointInPolygon, gardensRing, gardensLat, gardensLng.
  cbn [map fst snd ring_edges combine last removelast fold_left].
  js_eval; reflexivity.
Qed.

Lemma round1_0 : Js.Math_round (0 * 10) / 10 = 0.
Proof.
  replace (0 * 10) with (IZR 0) by lra. rewrite Math_round_IZR. lra.
Qed.

Lemma round1_3 : Js.Math_round (3.0 * 10) / 10 = 3.
Proof.
  replace (3.0 * 10) with (IZR 30) by lra. rewrite Math_round_IZR. lra.
Qed.

(** What [computeScore] returns at the point, without conditions, grid or
    segments: no zone of either kind decides, the static base stays at its
    default 3.0 and only the time modifier is added. *)
Lemma computeScore_gardens (clockHour h : R) :
  let r := computeScore clockHour gardensLat gardensLng None None (Some h) (Some []) in
  isGreenZone r = false /\
  isNearGreenZone r = false /\
  isIndustrial r = false /\
  trafficMod r = 0 /\
  bd_staticBase (breakdown r) = 3 /\
  score r = Js.Math_max 1 (Js.Math_min 10
              (Js.Math_round ((3 + timeModifier h) * 10) / 10)).
Proof.
  unfold computeScore. cbv zeta.
  unfold industrialModifier, greenZoneCheck.
  rewrite (industrialScan_all_miss _ _ _ _ gardens_industrial_misses).
  rewrite (greenZoneScan_all_miss _ _ _ _ gardens_green_misses).
  cbn [isGreenZone isNearGreenZone isIndustrial trafficMod breakdown bd_staticBase
       score inPark nearPark addition multiplier trafficModifier].
  replace (0 * 1 + 0) with 0 by ring.
  unfold Js.Math_min at 1 2 3. rewrite (Rmin_right 4.5 0) by lra.
  rewrite round1_0, round1_3.
  repeat split.
  - unfold Js.gtb. destruct (ltb_spec 0 0); [lra | reflexivity].
  - replace (3.0 + 0 + 0 + timeModifier h + 0 + 0) with (3 + timeModifier h) by lra.
    reflexivity.
Qed.

(** C1, as stated, fails: at the point of the scenario [computeScore] does
    not report a green zone. *)
Lemma gardens_point_is_not_green :
  isGreenZone (computeScore 0 gardensLat gardensLng None None (Some 8) (Some []))
  <> true.
Proof.
  destruct (computeScore_gardens 0 8) as (H & _). rewrite H. discriminate.
Qed.

(** C1, amended.  The point (lat = 1.2836, lng = 103.8607) lies outside the
    Gardens by the Bay polygon (west of its edge at 103.861).  For it,
    [computeScore] called with [conditions = null], [grid = null],
    [segments = []] and an explicit hour [h] returns [isGreenZone = false],
    an effective static base that is not clamped to 1.2 (it is between 2.0
    and the default 3.0), no traffic modifier, and a final score equal to
    [clamp (round (staticBase + timeModifier h, 1 decimal), 1, 10)] for the
    static base it reports. *)
Theorem gardens_point_score (clockHour h : R) :
  let r := computeScore clockHour gardensLat gardensLng None None (Some h) (Some []) in
  In (mkZone "Gardens by the Bay" gardensRing) GREEN_ZONES /\
  pointInPolygon gardensLat gardensLng (map (fun v => (snd v, fst v)) gardensRing)
    = false /\
  isGreenZone r = false /\
  2 <= bd_staticBase (breakdown r) <= 3 /\
  trafficMod r = 0 /\
  score r = Js.Math_max 1 (Js.Math_min 10
              (Js.Math_round ((bd_staticBase (breakdown r) + timeModifier h) * 10)
               / 10)).
Proof.
  intros r.
  destruct (computeScore_gardens clockHour h) as (Hg & _ & _ & Ht & Hb & Hs).
  fold r in Hg, Ht, Hb, Hs.
  split; [cbn; auto|].
  split; [apply gardens_point_outside_as_written|].
  split; [exact Hg|]. rewrite Hb.
  split; [lra|]. split; [exact Ht | exact Hs].
Qed.

(** *** The point (1.32, 103.731), east of Jurong Industrial Estate *)

Lemma industrial_zones_head :
  INDUSTRIAL_ZONES =
  mkZone "Jurong Industrial Estate" jurongRing :: industrialAfterJurong.
Proof. reflexivity. Qed.

Lemma buffer_point_outside :
  pointInPolygon bufferLat bufferLng jurongRing = false.
Proof.
  unfold jurongRing, bufferLat, bufferLng. ring_outside.
Qed.

(** The nearest edge is the eastern one, at longitude 103.730. *)
Lemma buffer_point_distance (cosLat : R) :
  distToPolygonEdge bufferLat bufferLng jurongRing cosLat
  = Js.Finite (0.001 * DEG_TO_M).
Proof.
  apply distToPolygonEdge_exact.
  - apply edges_far_second; [lra|].
    left. unfold jurongRing, bufferLng. ring_forall.
  - exists ((103.730, 1.335), (103.730, 1.312)). split.
    + cbn. auto 10.
    + unfold edgeDist. cbn [fst snd].
      rewrite pointToSegmentDist_perp by (unfold bufferLat; lra).
      unfold bufferLng. rewrite Rabs_pos_eq by lra. lra.
Qed.

Lemma buffer_point_modifier (cosLat : R) :
  industrialModifier bufferLat bufferLng cosLat =
  mkIndustrialMod (0.8 * (1 - 0.001 * DEG_TO_M / INDUSTRIAL_BUFFER_M))
                  (1 + 0.6 * (1 - 0.001 * DEG_TO_M / INDUSTRIAL_BUFFER_M)).
Proof.
  unfold industrialModifier. rewrite industrial_zones_head.
  apply industrialScan_buffer; cbn [ring].
  - apply buffer_point_outside.
  - apply buffer_point_distance.
  - unfold DEG_TO_M, INDUSTRIAL_BUFFER_M. lra.
Qed.

(** The traffic modifier that [computeScore] reports is rounded. *)
Lemma computeScore_trafficMod clockHour lat lng conditions grid hour speedBands :
  let base :=
    match speedBands with Some sb => trafficModifier lat lng sb | None => 0 end in
  let ind := industrialModifier lat lng (Js.Math_cos ((lat * Js.Math_PI) / 180)) in
  let r := computeScore clockHour lat lng conditions grid hour speedBands in
  trafficMod r =
    Js.Math_round (Js.Math_min 4.5 (base * multiplier ind + addition ind) * 10) / 10 /\
  bd_trafficModifier (breakdown r) = trafficMod r.
Proof. split; reflexivity. Qed.

(** C6, as stated, fails: at a point in the buffer of an industrial zone the
    reported traffic modifier is the rounded value 0.5, not
    [min (4.5, base * multiplier + addition)]. *)
Lemma reported_traffic_modifier_is_rounded :
  let ind :=
    industrialModifier bufferLat bufferLng
      (Js.Math_cos ((bufferLat * Js.Math_PI) / 180)) in
  trafficMod (computeScore 0 bufferLat bufferLng None None (Some 12) (Some []))
  <> Js.Math_min 4.5
       (trafficModifier bufferLat bufferLng [] * multiplier ind + addition ind).
Proof.
  intros ind.
  destruct (computeScore_trafficMod 0 bufferLat bufferLng None None (Some 12) (Some []))
    as [-> _].
  fold ind. unfold ind. rewrite buffer_point_modifier.
  cbn [multiplier addition trafficModifier].
  unfold DEG_TO_M, INDUSTRIAL_BUFFER_M, Js.Math_min.
  rewrite Rmin_right by lra.
  rewrite (Math_round_eq 5) by lra. lra.
Qed.

(** The score is the clamped, rounded raw sum, whose traffic term is the
    unrounded [min (4.5, ...)]; the breakdown reports its parts rounded. *)
Lemma computeScore_score_formula clockHour lat lng conditions grid hour speedBands :
  let base :=
    match speedBands with Some sb => trafficModifier lat lng sb | None => 0 end in
  let ind := industrialModifier lat lng (Js.Math_cos ((lat * Js.Math_PI) / 180)) in
  let r := computeScore clockHour lat lng conditions grid hour speedBands in
  score r =
    scoreWithTraffic clockHour lat lng conditions grid hour
      (Js.Math_min 4.5 (base * multiplier ind + addition ind)) /\
  bd_staticBase (breakdown r)
  = Js.Math_round (staticBaseUsed lat lng grid * 10) / 10 /\
  bd_pm25Modifier (breakdown r) = Js.Math_round (pm25ModOf conditions * 10) / 10 /\
  bd_windModifier (breakdown r) = Js.Math_round (windModOf conditions * 10) / 10 /\
  bd_timeModifier (breakdown r)
  = Js.Math_round (timeModifier (hourUsed clockHour hour) * 10) / 10 /\
  bd_rainModifier (breakdown r) = Js.Math_round (rainModOf conditions * 10) / 10.
Proof.
  assert (match grid with
          | Some _ =>
              match findNearestCell lat lng grid with
              | Some cell => base cell
              | None => 3.0
              end
          | None => 3.0
          end = gridBase lat lng grid) as Hbase.
  { unfold gridBase. destruct grid; reflexivity. }
  intros base0 ind r.
  unfold r, computeScore, scoreWithTraffic, staticBaseUsed, hourUsed, pm25ModOf,
    windModOf, rainModOf. cbv zeta.
  cbn [score breakdown bd_staticBase bd_pm25Modifier bd_windModifier
       bd_timeModifier bd_rainModifier].
  rewrite Hbase. repeat split; reflexivity.
Qed.

Lemma offTenthGrid_base :
  staticBaseUsed bufferLat bufferLng (Some offTenthGrid) = 3.048.
Proof.
  unfold staticBaseUsed. cbv zeta.
  rewrite greenZoneCheck_miss by (unfold bufferLat; lra).
  cbn [inPark nearPark]. unfold gridBase, findNearestCell.
  cbn [cells offTenthGrid nearestScan cell_lat cell_lng].
  unfold Js.Math_abs, bufferLat, bufferLng.
  replace (1.32 - 1.32) with 0 by lra. replace (103.731 - 103.731) with 0 by lra.
  rewrite Rabs_R0. replace (0 + 0) with 0 by lra.
  cbn [Js.lt_dist]. js_eval. reflexivity.
Qed.

(** At the point 0.001 degrees east of the first industrial zone, on a grid
    cell of base 3.048 and at noon, the score is 3.9; with the reported,
    rounded, traffic modifier 0.5 in the raw sum it would be 3.8. *)
Lemma unrounded_modifier_decides_score :
  let r := computeScore 0 bufferLat bufferLng None (Some offTenthGrid) (Some 12)
             (Some []) in
  score r = 3.9 /\ trafficMod r = 0.5 /\
  scoreWithTraffic 0 bufferLat bufferLng None (Some offTenthGrid) (Some 12)
    (trafficMod r) = 3.8.
Proof.
  intros r.
  destruct (computeScore_score_formula 0 bufferLat bufferLng None (Some offTenthGrid)
              (Some 12) (Some [])) as (Hscore & _).
  destruct (computeScore_trafficMod 0 bufferLat bufferLng None (Some offTenthGrid)
              (Some 12) (Some [])) as (Htraf & _).
  cbv zeta in Hscore, Htraf. fold r in Hscore, Htraf.
  rewrite buffer_point_modifier in Hscore, Htraf.
  cbn [multiplier addition trafficModifier] in Hscore, Htraf.
  assert (Ht : trafficMod r = 0.5).
  { rewrite Htraf. unfold DEG_TO_M, INDUSTRIAL_BUFFER_M, Js.Math_min.
    rewrite Rmin_right by lra. rewrite (Math_round_eq 5) by lra. lra. }
  assert (Htime : timeModifier 12 = 0.3) by (unfold timeModifier; js_eval; reflexivity).
  split; [|split; [exact Ht|]].
  - rewrite Hscore. unfold scoreWithTraffic. cbv zeta.
    rewrite offTenthGrid_base. cbn [pm25ModOf windModOf rainModOf hourUsed].
    rewrite Htime. unfold DEG_TO_M, INDUSTRIAL_BUFFER_M, Js.Math_min, Js.Math_max.
    rewrite (Rmin_right 4.5) by lra.
    rewrite (Math_round_eq 39) by lra.
    rewrite Rmin_right by lra. rewrite Rmax_right by lra. lra.
  - rewrite Ht. unfold scoreWithTraffic. cbv zeta.
    rewrite offTenthGrid_base. cbn [pm25ModOf windModOf rainModOf hourUsed].
    rewrite Htime. unfold Js.Math_min, Js.Math_max.
    rewrite (Math_round_eq 38) by lra.
    rewrite Rmin_right by lra. rewrite Rmax_right by lra. lra.
Qed.

(** C6, amended.  For every point, the industrial-zone classifier applies
    only the first matching zone in iteration order: when the zones before
    it neither contain the point nor have it within 300 m, it returns
    [addition = 1.2], [multiplier = 1.8] if the zone contains the point, and
    [addition = 0.8 * factor], [multiplier = 1 + 0.6 * factor] with
    [factor = 1 - distance / 300] if the point is within the 300 m buffer;
    it returns [addition = 0], [multiplier = 1] when no zone matches.  The
    traffic modifier that [computeScore] reports is
    [min (4.5, baseTrafficMod * multiplier + addition)] rounded to one
    decimal, and the unrounded value is the one added into the raw score:
    the score is the clamped, rounded sum of the static base, the four
    weather and time modifiers and that unrounded value, which at the point
    0.001 degrees east of the first zone gives the score 3.9 where the
    rounded modifier would give 3.8. *)
Theorem industrial_classifier_first_match (lat lng : R) :
  (forall cosLat pre zone post,
      INDUSTRIAL_ZONES = (pre ++ zone :: post)%list ->
      Forall (zoneMisses INDUSTRIAL_BUFFER_M lat lng cosLat) pre ->
      (pointInPolygon lat lng (ring zone) = true ->
       industrialModifier lat lng cosLat = mkIndustrialMod 1.2 1.8) /\
      (forall d,
          pointInPolygon lat lng (ring zone) = false ->
          distToPolygonEdge lat lng (ring zone) cosLat = Js.Finite d ->
          d < 300 ->
          industrialModifier lat lng cosLat =
          mkIndustrialMod (0.8 * (1 - d / 300)) (1 + 0.6 * (1 - d / 300)))) /\
  (forall cosLat,
      Forall (zoneMisses INDUSTRIAL_BUFFER_M lat lng cosLat) INDUSTRIAL_ZONES ->
      industrialModifier lat lng cosLat = mkIndustrialMod 0 1) /\
  (forall clockHour conditions grid hour speedBands,
      let base :=
        match speedBands with Some sb => trafficModifier lat lng sb | None => 0 end in
      let ind := industrialModifier lat lng (Js.Math_cos ((lat * Js.Math_PI) / 180)) in
      let r := computeScore clockHour lat lng conditions grid hour speedBands in
      trafficMod r =
        Js.Math_round
          (Js.Math_min 4.5 (base * multiplier ind + addition ind) * 10) / 10 /\
      bd_trafficModifier (breakdown r) = trafficMod r /\
      score r =
        Js.Math_max 1 (Js.Math_min 10
          (Js.Math_round
             ((staticBaseUsed lat lng grid + pm25ModOf conditions
               + windModOf conditions + timeModifier (hourUsed clockHour hour)
               + rainModOf conditions
               + Js.Math_min 4.5 (base * multiplier ind + addition ind)) * 10)
           / 10)) /\
      bd_staticBase (breakdown r)
      = Js.Math_round (staticBaseUsed lat lng grid * 10) / 10 /\
      bd_pm25Modifier (breakdown r)
      = Js.Math_round (pm25ModOf conditions * 10) / 10 /\
      bd_windModifier (breakdown r)
      = Js.Math_round (windModOf conditions * 10) / 10 /\
      bd_timeModifier (breakdown r)
      = Js.Math_round (timeModifier (hourUsed clockHour hour) * 10) / 10 /\
      bd_rainModifier (breakdown r)
      = Js.Math_round (rainModOf conditions * 10) / 10) /\
  (let r := computeScore 0 bufferLat bufferLng None (Some offTenthGrid) (Some 12)
              (Some []) in
   score r = 3.9 /\ trafficMod r = 0.5 /\
   scoreWithTraffic 0 bufferLat bufferLng None (Some offTenthGrid) (Some 12)
     (trafficMod r) = 3.8).
Proof.
  split; [|split; [|split]].
  - intros cosLat pre zone post Hzones Hpre.
    unfold industrialModifier. rewrite Hzones, industrialScan_skip by exact Hpre.
    split.
    + apply industrialScan_inside.
    + intros d Hin Hd Hlt. now apply industrialScan_buffer.
  - intros cosLat. apply industrialScan_all_miss.
  - intros clockHour conditions grid hour speedBands base ind r.
    destruct (computeScore_trafficMod clockHour lat lng conditions grid hour
                speedBands) as (Ht & Hbd).
    destruct (computeScore_score_formula clockHour lat lng conditions grid hour
                speedBands) as (Hs & Hrest).
    split; [exact Ht|]. split; [exact Hbd|]. split; [exact Hs | exact Hrest].
  - exact unrounded_modifier_decides_score.
Qed.

Lemma industrial_classifier_first_match_witness :
  INDUSTRIAL_ZONES =
    ([] ++ mkZone "Jurong Industrial Estate" jurongRing :: industrialAfterJurong)%list /\
  pointInPolygon bufferLat bufferLng jurongRing = false /\
  distToPolygonEdge bufferLat bufferLng jurongRing 1 = Js.Finite (0.001 * DEG_TO_M) /\
  0.001 * DEG_TO_M < 300 /\
  industrialModifier bufferLat bufferLng 1 =
  mkIndustrialMod (0.8 * (1 - 0.001 * DEG_TO_M / 300))
                  (1 + 0.6 * (1 - 0.001 * DEG_TO_M / 300)).
Proof.
  pose proof buffer_point_outside as Hout.
  pose proof (buffer_point_distance 1) as Hd.
  assert (0.001 * DEG_TO_M < 300) as Hlt by (unfold DEG_TO_M; lra).
  split; [reflexivity|]. split; [exact Hout|]. split; [exact Hd|].
  split; [exact Hlt|].
  exact (proj2 (proj1 (industrial_classifier_first_match bufferLat bufferLng) 1 []
                  (mkZone "Jurong Industrial Estate" jurongRing)
                  industrialAfterJurong eq_refl (Forall_nil _))
           (0.001 * DEG_TO_M) Hout Hd Hlt).
Defined.

Lemma trafficModifier_drop_outOfReach_witness :
  outOfReach 1 1 boundaryBand /\
  trafficModifier 1 1 ([expresswayBand] ++ boundaryBand :: [residentialBand])
  = trafficModifier 1 1 ([expresswayBand] ++ [residentialBand]).
Proof.
  assert (outOfReach 1 1 boundaryBand) as Hout.
  { right; right. exists TRAFFIC_RADIUS.
    split; [apply boundaryBand_distance | lra]. }
  split; [exact Hout|].
  exact (trafficModifier_drop_outOfReach 1 1 boundaryBand [expresswayBand]
           [residentialBand] Hout).
Defined.

(** * Further properties *)

(** ** Weather modifiers and bands *)

Lemma windModifier_antitone (v1 v2 : R) :
  v1 <= v2 -> windModifier v2 <= windModifier v1.
Proof.
  intros H. unfold windModifier. js_cases; lra.
Qed.

Lemma rainModifier_nonpos (isRaining : bool) (intensity : string) :
  -2 <= rainModifier isRaining intensity <= 0.
Proof.
  unfold rainModifier.
  destruct isRaining; cbn [negb]; [|lra].
  destruct (String.eqb intensity "Heavy"); [lra|].
  destruct (String.eqb intensity "Moderate"); [lra|].
  destruct (String.eqb intensity "Light"); lra.
Qed.

(** With everything else fixed, a larger wind speed never gives a larger
    score. *)
Theorem score_antitone_in_wind
    clockHour lat lng (c1 c2 : CurrentConditions) grid hour speedBands :
  same_but_wind_speed c1 c2 ->
  wind_speed c1 <= wind_speed c2 ->
  score (computeScore clockHour lat lng (Some c2) grid hour speedBands)
  <= score (computeScore clockHour lat lng (Some c1) grid hour speedBands).
Proof.
  intros (Hp & _ & _ & _ & _ & Hr & Hi & _ & _) Hle.
  unfold computeScore. cbv zeta. cbn [score].
  rewrite Hp, Hr, Hi.
  apply clamp_mono, round1_mono.
  pose proof (windModifier_antitone _ _ Hle). lra.
Qed.

Lemma score_antitone_in_wind_witness :
  same_but_wind_speed conditions_calm conditions_windy /\
  wind_speed conditions_calm <= wind_speed conditions_windy /\
  score (computeScore 0 1.35 103.82 (Some conditions_windy) None (Some 8) (Some []))
  <= score (computeScore 0 1.35 103.82 (Some conditions_calm) None (Some 8) (Some [])).
Proof.
  assert (same_but_wind_speed conditions_calm conditions_windy) as Hs
    by (repeat split).
  assert (wind_speed conditions_calm <= wind_speed conditions_windy) as Hle
    by (cbn; lra).
  split; [exact Hs | split; [exact Hle |]].
  exact (score_antitone_in_wind 0 1.35 103.82 _ _ None (Some 8) (Some []) Hs Hle).
Defined.

(** With everything else fixed, rain of any intensity, recognised or not,
    never gives a larger score than no rain. *)
Theorem rain_never_raises_score
    clockHour lat lng (c1 c2 : CurrentConditions) grid hour speedBands :
  same_but_rainfall c1 c2 ->
  rainfall_isRaining c1 = false ->
  score (computeScore clockHour lat lng (Some c2) grid hour speedBands)
  <= score (computeScore clockHour lat lng (Some c1) grid hour speedBands).
Proof.
  intros (Hp & _ & _ & Hw & _ & _ & _ & _) Hdry.
  unfold computeScore. cbv zeta. cbn [score].
  rewrite Hp, Hw, Hdry.
  apply clamp_mono, round1_mono.
  pose proof (rainModifier_nonpos (rainfall_isRaining c2) (rainfall_intensity c2)).
  cbn [rainModifier negb]. lra.
Qed.

Lemma rain_never_raises_score_witness :
  same_but_rainfall conditions_calm conditions_heavy_rain /\
  rainfall_isRaining conditions_calm = false /\
  score (computeScore 0 1.35 103.82 (Some conditions_heavy_rain) None (Some 8) (Some []))
  <= score (computeScore 0 1.35 103.82 (Some conditions_calm) None (Some 8) (Some [])).
Proof.
  assert (same_but_rainfall conditions_calm conditions_heavy_rain) as Hs
    by (repeat split).
  split; [exact Hs | split; [reflexivity |]].
  exact (rain_never_raises_score 0 1.35 103.82 _ _ None (Some 8) (Some []) Hs eq_refl).
Defined.

Lemma getBand_rows (s : R) :
  getBand s =
  if s <=? 2 then mkBandRow 2 excellent "Excellent" "#4ecdc4"
  else if s <=? 3.5 then mkBandRow 3.5 good "Good" "#a8e6a3"
  else if s <=? 5 then mkBandRow 5 moderate "Fair" "#f7d794"
  else if s <=? 7 then mkBandRow 7 poor "Poor" "#f8a978"
  else mkBandRow 10 hazardous "Avoid" "#fc5c65".
Proof.
  unfold getBand, BANDS. cbn [find b_max].
  destruct (leb_spec s 2); [reflexivity|].
  destruct (leb_spec s 3.5); [reflexivity|].
  destruct (leb_spec s 5); [reflexivity|].
  destruct (leb_spec s 7); [reflexivity|].
  destruct (leb_spec s 10); reflexivity.
Qed.

Lemma scoreColor_getBand (s : R) : scoreColor s = b_color (getBand s).
Proof.
  rewrite getBand_rows. unfold scoreColor.
  destruct (leb_spec s 2); [reflexivity|].
  destruct (leb_spec s 3.5); [reflexivity|].
  destruct (leb_spec s 5); [reflexivity|].
  destruct (leb_spec s 7); reflexivity.
Qed.

(** The tiers of [getBand] are closed on their upper bound, every score
    above 7, also one above the last bound 10, is hazardous, and the colour
    of the 24-hour chart is the colour of the band. *)
Theorem band_tiers_and_chart_colour (s : R) :
  (b_band (getBand s) = excellent <-> s <= 2) /\
  (b_band (getBand s) = good <-> 2 < s <= 3.5) /\
  (b_band (getBand s) = moderate <-> 3.5 < s <= 5) /\
  (b_band (getBand s) = poor <-> 5 < s <= 7) /\
  (b_band (getBand s) = hazardous <-> 7 < s) /\
  scoreColor s = b_color (getBand s).
Proof.
  rewrite getBand_rows. unfold scoreColor.
  destruct (leb_spec s 2); [cbn; repeat split; intros; try discriminate; try lra|].
  destruct (leb_spec s 3.5); [cbn; repeat split; intros; try discriminate; try lra|].
  destruct (leb_spec s 5); [cbn; repeat split; intros; try discriminate; try lra|].
  destruct (leb_spec s 7); cbn; repeat split; intros; try discriminate; try lra.
Qed.

(** [computeScore] labels its score with the row of [getBand], so its colour
    is the chart colour of the score. *)
Lemma computeScore_colour clockHour lat lng conditions grid hour speedBands :
  let r := computeScore clockHour lat lng conditions grid hour speedBands in
  color r = scoreColor (score r) /\ band r = b_band (getBand (score r)).
Proof.
  intros r. split.
  - rewrite scoreColor_getBand. reflexivity.
  - reflexivity.
Qed.

(** ** Industrial zones *)

Lemma distToPolygonEdge_nonneg (lat lng cosLat : R) (ring : list (R * R)) :
  le_dist 0 (distToPolygonEdge lat lng ring cosLat).
Proof.
  apply distToPolygonEdge_lower. intros e _. apply pointToSegmentDist_nonneg.
Qed.

Lemma industrialScan_range (zones : list Zone) (lat lng cosLat : R) :
  0 <= addition (industrialScan zones lat lng cosLat) <= 1.2 /\
  1 <= multiplier (industrialScan zones lat lng cosLat) <= 1.8.
Proof.
  induction zones as [|zone rest IH]; cbn [industrialScan].
  - cbn. lra.
  - destruct (pointInPolygon lat lng (ring zone)); [cbn; lra|].
    pose proof (distToPolygonEdge_nonneg lat lng cosLat (ring zone)) as Hd.
    destruct (distToPolygonEdge lat lng (ring zone) cosLat) as [|d]; [exact IH|].
    cbn in Hd. unfold INDUSTRIAL_BUFFER_M.
    destruct (ltb_spec d 300); [|exact IH].
    cbn [addition multiplier]. lra.
Qed.

Lemma industrial_range (lat lng cosLat : R) :
  0 <= addition (industrialModifier lat lng cosLat) <= 1.2 /\
  1 <= multiplier (industrialModifier lat lng cosLat) <= 1.8.
Proof. apply industrialScan_range. Qed.

(** ** One decimal *)

Lemma round1_tenth (x : R) : exists k : Z, Js.Math_round (x * 10) / 10 = IZR k / 10.
Proof. unfold Js.Math_round. eexists. reflexivity. Qed.

Lemma trafficModifier_tenths (lat lng : R) (bands : list TrafficSpeedBand) :
  exists k : Z, trafficModifier lat lng bands = IZR k / 10 /\ (0 <= k <= 40)%Z.
Proof.
  rewrite trafficModifier_spec. unfold scaledPenalty.
  match goal with |- context [Js.Math_round (?x * 10)] => set (v := x) end.
  assert (Hv : IZR 0 <= v * 10 <= IZR 40).
  { pose proof (maxOf_nonneg (qualifyingExhausts lat lng bands)) as Hm.
    unfold v, Js.Math_min. split.
    - apply Rmin_case; lra.
    - match goal with |- Rmin 4.0 ?w * 10 <= _ => pose proof (Rmin_l 4.0 w) end. lra. }
  exists (Zfloor (v * 10 + / 2)). split; [reflexivity|].
  pose proof (Math_round_between 0 40 (v * 10) Hv) as [H1 H2].
  unfold Js.Math_round in *. apply le_IZR in H1, H2. lia.
Qed.

(** The score is a whole number of tenths between 1.0 and 10.0, and the
    base and reported traffic modifiers are whole numbers of tenths between
    0 and 4.0, respectively 4.5. *)
Theorem scores_have_one_decimal :
  (forall clockHour lat lng conditions grid hour speedBands,
      let r := computeScore clockHour lat lng conditions grid hour speedBands in
      (exists k : Z, score r = IZR k / 10 /\ (10 <= k <= 100)%Z) /\
      (exists k : Z, trafficMod r = IZR k / 10 /\ (0 <= k <= 45)%Z)) /\
  (forall lat lng bands,
      exists k : Z, trafficModifier lat lng bands = IZR k / 10 /\ (0 <= k <= 40)%Z).
Proof.
  assert (forall x lo hi : Z, forall v : R,
             IZR lo <= v * 10 <= IZR hi -> (lo <= hi)%Z ->
             exists k : Z, Js.Math_round (v * 10) / 10 = IZR k / 10 /\ (lo <= k <= hi)%Z)
    as Hround.
  { intros _ lo hi v Hv _. exists (Zfloor (v * 10 + / 2)). split; [reflexivity|].
    pose proof (Math_round_between lo hi (v * 10) Hv) as [H1 H2].
    unfold Js.Math_round in *. apply le_IZR in H1, H2. lia. }
  split.
  - intros clockHour lat lng conditions grid hour speedBands r. split.
    + unfold r, computeScore. cbv zeta. cbn [score].
      match goal with |- context [Js.Math_round (?raw * 10)] => set (x := raw) end.
      set (z := Zfloor (x * 10 + / 2)).
      assert (Js.Math_round (x * 10) / 10 = IZR z / 10) as -> by reflexivity.
      unfold Js.Math_max, Js.Math_min.
      destruct (Z_le_gt_dec z 10) as [Hlo|Hlo].
      * exists 10%Z. split; [|lia].
        apply IZR_le in Hlo.
        rewrite Rmin_right by lra. rewrite Rmax_left by lra. lra.
      * destruct (Z_le_gt_dec z 100) as [Hhi|Hhi].
        -- exists z. split; [|lia].
           assert (IZR 10 < IZR z) by (apply IZR_lt; lia).
           apply IZR_le in Hhi.
           rewrite Rmin_right by lra. rewrite Rmax_right by lra. reflexivity.
        -- exists 100%Z. split; [|lia].
           assert (IZR 100 < IZR z) by (apply IZR_lt; lia).
           rewrite Rmin_left by lra. rewrite Rmax_right by lra. lra.
    + unfold r, computeScore. cbv zeta. cbn [trafficMod].
      apply (Hround 0%Z 0%Z 45%Z); [|lia].
      match goal with |- context [Js.Math_min 4.5 ?v] =>
        assert (0 <= v) as Hv
      end.
      { pose proof (industrial_range lat lng (Js.Math_cos (lat * Js.Math_PI / 180)))
          as (Ha & Hm).
        assert (0 <= match speedBands with
                     | Some sb => trafficModifier lat lng sb
                     | None => 0
                     end) as Hb.
        { destruct speedBands as [sb|]; [|lra].
          apply (trafficModifier_bounds lat lng sb). }
        nra. }
      unfold Js.Math_min. split.
      * apply Rmin_case; lra.
      * match goal with |- Rmin 4.5 ?v * 10 <= _ => pose proof (Rmin_l 4.5 v) end. lra.
  - intros lat lng bands.
    rewrite trafficModifier_spec. unfold scaledPenalty.
    apply (Hround 0%Z 0%Z 40%Z); [|lia].
    pose proof (maxOf_nonneg (qualifyingExhausts lat lng bands)) as Hm.
    unfold Js.Math_min. split.
    + apply Rmin_case; lra.
    + match goal with |- Rmin 4.0 ?v * 10 <= _ => pose proof (Rmin_l 4.0 v) end. lra.
Qed.

Lemma computeScore_trafficMod_between
    clockHour lat lng conditions grid hour speedBands :
  let base :=
    match speedBands with Some sb => trafficModifier lat lng sb | None => 0 end in
  let r := computeScore clockHour lat lng conditions grid hour speedBands in
  base <= trafficMod r <= 4.5.
Proof.
  intros base r.
  destruct (computeScore_trafficMod clockHour lat lng conditions grid hour speedBands)
    as [Hr _].
  fold base r in Hr. rewrite Hr. clear Hr.
  pose proof (industrial_range lat lng (Js.Math_cos (lat * Js.Math_PI / 180)))
    as (Ha & Hm).
  set (ind := industrialModifier lat lng (Js.Math_cos (lat * Js.Math_PI / 180))) in *.
  assert (0 <= base <= 4) as Hb.
  { unfold base. destruct speedBands as [sb|]; [|lra].
    apply (trafficModifier_bounds lat lng sb). }
  assert (exists k : Z, base = IZR k / 10) as (k & Hk).
  { unfold base. destruct speedBands as [sb|].
    - destruct (trafficModifier_tenths lat lng sb) as (k & Hk & _).
      now exists k.
    - exists 0%Z. lra. }
  split.
  - assert (base = Js.Math_round (base * 10) / 10) as Hself.
    { rewrite Hk. replace (IZR k / 10 * 10) with (IZR k) by lra.
      now rewrite Math_round_IZR. }
    rewrite Hself at 1. apply round1_mono.
    unfold Js.Math_min. apply Rmin_glb; nra.
  - replace 4.5 with (IZR 45 / 10) at 2 by lra.
    assert (Js.Math_round (Js.Math_min 4.5 (base * multiplier ind + addition ind) * 10)
            <= IZR 45); [|lra].
    apply (Math_round_between 0 45). unfold Js.Math_min. split.
    + assert (0 <= Rmin 4.5 (base * multiplier ind + addition ind));
        [apply Rmin_glb; nra | lra].
    + pose proof (Rmin_l 4.5 (base * multiplier ind + addition ind)). lra.
Qed.

(** The industrial classifier always returns an addition in [[0, 1.2]] and
    a multiplier in [[1, 1.8]], both neutral or both raised, so it never
    lowers the traffic modifier: what [computeScore] reports lies between the
    base traffic modifier and 4.5. *)
Theorem industrial_zones_only_raise_traffic :
  (forall lat lng cosLat,
      let ind := industrialModifier lat lng cosLat in
      0 <= addition ind <= 1.2 /\ 1 <= multiplier ind <= 1.8 /\
      (0 < addition ind <-> 1 < multiplier ind)) /\
  (forall clockHour lat lng conditions grid hour speedBands,
      let base :=
        match speedBands with Some sb => trafficModifier lat lng sb | None => 0 end in
      let r := computeScore clockHour lat lng conditions grid hour speedBands in
      base <= trafficMod r <= 4.5).
Proof.
  split.
  - intros lat lng cosLat ind.
    pose proof (industrial_range lat lng cosLat) as (Ha & Hm). fold ind in Ha, Hm.
    split; [exact Ha|]. split; [exact Hm|].
    unfold ind, industrialModifier.
    induction INDUSTRIAL_ZONES as [|zone rest IH]; cbn [industrialScan].
    + cbn. lra.
    + destruct (pointInPolygon lat lng (ring zone)); [cbn; lra|].
      pose proof (distToPolygonEdge_nonneg lat lng cosLat (ring zone)) as Hd.
      destruct (distToPolygonEdge lat lng (ring zone) cosLat) as [|d]; [exact IH|].
      cbn in Hd. unfold INDUSTRIAL_BUFFER_M.
      destruct (ltb_spec d 300); [|exact IH].
      cbn [addition multiplier]. lra.
  - intros clockHour lat lng conditions grid hour speedBands.
    apply computeScore_trafficMod_between.
Qed.

(** ** Traffic: order, repetition and growth of the segment list *)

Lemma maxOf_app (l1 l2 : list R) : maxOf (l1 ++ l2) = Rmax (maxOf l1) (maxOf l2).
Proof.
  unfold maxOf. induction l1 as [|x l1 IH]; cbn [app fold_right].
  - symmetry. apply Rmax_right. apply (maxOf_nonneg l2).
  - rewrite IH, Rmax_assoc. reflexivity.
Qed.

Lemma maxOf_perm (l1 l2 : list R) : Permutation l1 l2 -> maxOf l1 = maxOf l2.
Proof.
  unfold maxOf. induction 1 as [|x l l' _ IH|x y l|l l' l'' _ IH1 _ IH2];
    cbn [fold_right].
  - reflexivity.
  - now rewrite IH.
  - rewrite !Rmax_assoc, (Rmax_comm y x). reflexivity.
  - now rewrite IH1.
Qed.

Lemma maxOf_ge (l : list R) (x : R) : In x l -> x <= maxOf l.
Proof.
  unfold maxOf. induction l as [|y l IH]; [intros []|].
  intros [-> | Hin]; cbn [fold_right].
  - apply Rmax_l.
  - eapply Rle_trans; [apply IH, Hin | apply Rmax_r].
Qed.

Lemma qualifyingExhausts_perm (lat lng : R) (l1 l2 : list TrafficSpeedBand) :
  Permutation l1 l2 ->
  Permutation (qualifyingExhausts lat lng l1) (qualifyingExhausts lat lng l2).
Proof.
  induction 1 as [|b l l' _ IH|a b l|l l' l'' _ IH1 _ IH2];
    cbn [qualifyingExhausts].
  - constructor.
  - destruct (segmentExhaust lat lng b); [now constructor | exact IH].
  - destruct (segmentExhaust lat lng a), (segmentExhaust lat lng b);
      try apply Permutation_refl. apply perm_swap.
  - eapply Permutation_trans; eassumption.
Qed.

Lemma scaledPenalty_mono (w1 w2 : R) :
  w1 <= w2 -> scaledPenalty w1 <= scaledPenalty w2.
Proof.
  intros H. unfold scaledPenalty. apply round1_mono.
  unfold Js.Math_min. apply Rle_min_compat_l. lra.
Qed.

(** The traffic modifier does not depend on the order of the segment list,
    and a segment that is already in the list changes nothing when it is
    listed once more. *)
Theorem traffic_modifier_order_and_repetition (lat lng : R) :
  (forall bands bands',
      Permutation bands bands' ->
      trafficModifier lat lng bands = trafficModifier lat lng bands') /\
  (forall band l1 l2,
      In band (l1 ++ l2) ->
      trafficModifier lat lng (l1 ++ band :: l2) = trafficModifier lat lng (l1 ++ l2)).
Proof.
  split.
  - intros bands bands' Hp. rewrite !trafficModifier_spec. f_equal.
    apply maxOf_perm, qualifyingExhausts_perm, Hp.
  - intros band l1 l2 Hin.
    assert (trafficModifier lat lng (l1 ++ band :: l2)
            = trafficModifier lat lng (band :: l1 ++ l2)) as ->.
    { rewrite !trafficModifier_spec. f_equal.
      apply maxOf_perm, qualifyingExhausts_perm.
      symmetry. apply Permutation_middle. }
    rewrite !trafficModifier_spec. f_equal. cbn [qualifyingExhausts].
    destruct (segmentExhaust lat lng band) as [e|] eqn:He; [|reflexivity].
    unfold maxOf. cbn [fold_right]. apply Rmax_right.
    apply (maxOf_ge (qualifyingExhausts lat lng (l1 ++ l2)) e).
    clear - Hin He. induction (l1 ++ l2) as [|b l IH]; [destruct Hin|].
    cbn [qualifyingExhausts]. destruct Hin as [-> | Hin].
    + rewrite He. now left.
    + destruct (segmentExhaust lat lng b); [right|]; now apply IH.
Qed.

Lemma traffic_modifier_order_and_repetition_witness :
  Permutation [expresswayBand; residentialBand] [residentialBand; expresswayBand] /\
  In expresswayBand ([expresswayBand] ++ [residentialBand]) /\
  trafficModifier 1.3 103.8 [expresswayBand; residentialBand]
  = trafficModifier 1.3 103.8 [residentialBand; expresswayBand] /\
  trafficModifier 1.3 103.8 ([expresswayBand] ++ expresswayBand :: [residentialBand])
  = trafficModifier 1.3 103.8 ([expresswayBand] ++ [residentialBand]).
Proof.
  assert (Permutation [expresswayBand; residentialBand]
            [residentialBand; expresswayBand]) as Hp by apply perm_swap.
  assert (In expresswayBand ([expresswayBand] ++ [residentialBand])) as Hin
    by (left; reflexivity).
  split; [exact Hp|]. split; [exact Hin|]. split.
  - exact (proj1 (traffic_modifier_order_and_repetition 1.3 103.8) _ _ Hp).
  - exact (proj2 (traffic_modifier_order_and_repetition 1.3 103.8)
             expresswayBand [expresswayBand] [residentialBand] Hin).
Defined.

(** One more segment never lowers the traffic modifier. *)
Theorem traffic_modifier_grows_with_segments
    (lat lng : R) (band : TrafficSpeedBand) (l1 l2 : list TrafficSpeedBand) :
  trafficModifier lat lng (l1 ++ l2) <= trafficModifier lat lng (l1 ++ band :: l2).
Proof.
  rewrite !trafficModifier_spec, !qualifyingExhausts_app.
  cbn [qualifyingExhausts]. apply scaledPenalty_mono.
  rewrite !maxOf_app. apply Rle_max_compat_l.
  destruct (segmentExhaust lat lng band) as [e|]; [|lra].
  unfold maxOf. cbn [fold_right]. apply Rmax_r.
Qed.

(** ** Traffic: congestion and road class *)

Lemma roadVolumeBaseline_antitone (f1 f2 : R) :
  f2 <= f1 -> roadVolumeBaseline f1 <= roadVolumeBaseline f2.
Proof. intros H. unfold roadVolumeBaseline. js_cases; lra. Qed.

Lemma roadVolumeBaseline_range (f : R) : 0.05 <= roadVolumeBaseline f <= 1.
Proof. unfold roadVolumeBaseline. js_cases; lra. Qed.

Lemma congestionEmissionMultiplier_antitone (c1 c2 : R) :
  c2 <= c1 -> congestionEmissionMultiplier c1 <= congestionEmissionMultiplier c2.
Proof. intros H. unfold congestionEmissionMultiplier. js_cases; lra. Qed.

Lemma congestionEmissionMultiplier_range (c : R) :
  1 <= congestionEmissionMultiplier c <= 3.
Proof. unfold congestionEmissionMultiplier. js_cases; lra. Qed.

(** The exhaust of a qualifying segment lies in (0, 3]. *)
Lemma segmentExhaust_range (lat lng : R) (band : TrafficSpeedBand) (e : R) :
  segmentExhaust lat lng band = Some e -> 0 < e <= 3.
Proof.
  unfold segmentExhaust. destruct (guardSkips band); [discriminate|].
  destruct (segmentDistance lat lng band) as [d|] eqn:Hd; [|discriminate].
  unfold TRAFFIC_RADIUS. destruct (ltb_spec d 400); [|discriminate].
  intros H. injection H as <-.
  assert (0 <= d) as Hd0.
  { unfold segmentDistance in Hd.
    destruct (startLat band), (startLng band), (endLat band), (endLng band);
      try discriminate.
    injection Hd as <-. apply pointToSegmentDist_nonneg. }
  pose proof (roadVolumeBaseline_range (resolvedFrc band)).
  pose proof (congestionEmissionMultiplier_range (resolvedCongestion band)).
  assert (0 < 1 - d / 400 <= 1) by lra.
  set (v := roadVolumeBaseline (resolvedFrc band)) in *.
  set (m := congestionEmissionMultiplier (resolvedCongestion band)) in *.
  assert (0 < v * m <= 3) by nra.
  split; [apply Rmult_lt_0_compat; lra | nra].
Qed.

(** Volume times emission multiplier, as the road class decides it when the
    congestion ratio has to be inferred from the speed band. *)
Lemma volume_emission_antitone_frc (f1 f2 sb : R) (cr : option R) :
  f2 <= f1 ->
  let congestion f :=
    match cr with
    | Some c => c
    | None =>
        if f <=? 1 then Js.Math_min 1 (sb / 8)
        else if sb <=? 2 then 0.4 else if sb <=? 4 then 0.7 else 0.95
    end in
  roadVolumeBaseline f1 * congestionEmissionMultiplier (congestion f1)
  <= roadVolumeBaseline f2 * congestionEmissionMultiplier (congestion f2).
Proof.
  intros Hf congestion.
  pose proof (roadVolumeBaseline_antitone f1 f2 Hf) as Hv.
  pose proof (roadVolumeBaseline_range f1) as Hv1.
  pose proof (roadVolumeBaseline_range f2) as Hv2.
  assert (forall c, roadVolumeBaseline f1 * congestionEmissionMultiplier c
                    <= roadVolumeBaseline f2 * congestionEmissionMultiplier c) as Hsame.
  { intros c. pose proof (congestionEmissionMultiplier_range c). nra. }
  unfold congestion. destruct cr as [c|]; [apply Hsame|].
  destruct (leb_spec f1 1) as [H1|H1].
  - destruct (leb_spec f2 1); [apply Hsame | lra].
  - destruct (leb_spec f2 1) as [H2|H2]; [|apply Hsame].
    assert (roadVolumeBaseline f1 <= 0.7) as Hlow
      by (unfold roadVolumeBaseline; js_cases; lra).
    assert (roadVolumeBaseline f2 = 1.0) as ->
      by (unfold roadVolumeBaseline; js_cases; lra).
    unfold Js.Math_min.
    destruct (leb_spec sb 2); [|destruct (leb_spec sb 4)].
    + rewrite Rmin_right by lra.
      assert (congestionEmissionMultiplier 0.4 = 1.8) as ->
        by (unfold congestionEmissionMultiplier; js_cases; lra).
      assert (2.5 <= congestionEmissionMultiplier (sb / 8))
        by (unfold congestionEmissionMultiplier; js_cases; lra).
      nra.
    + rewrite Rmin_right by lra.
      assert (congestionEmissionMultiplier 0.7 = 1.3) as ->
        by (unfold congestionEmissionMultiplier; js_cases; lra).
      assert (1.8 <= congestionEmissionMultiplier (sb / 8))
        by (unfold congestionEmissionMultiplier; js_cases; lra).
      nra.
    + assert (congestionEmissionMultiplier 0.95 = 1.0) as ->
        by (unfold congestionEmissionMultiplier; js_cases; lra).
      pose proof (congestionEmissionMultiplier_range (Rmin 1 (sb / 8))).
      nra.
Qed.

Lemma trafficModifier_replace_le (lat lng : R) (b1 b2 : TrafficSpeedBand)
    (l1 l2 : list TrafficSpeedBand) :
  maxOf (qualifyingExhausts lat lng [b1]) <= maxOf (qualifyingExhausts lat lng [b2]) ->
  trafficModifier lat lng (l1 ++ b1 :: l2) <= trafficModifier lat lng (l1 ++ b2 :: l2).
Proof.
  intros H. rewrite !trafficModifier_spec. apply scaledPenalty_mono.
  change (b1 :: l2) with ([b1] ++ l2)%list. change (b2 :: l2) with ([b2] ++ l2)%list.
  rewrite !qualifyingExhausts_app, !maxOf_app.
  apply Rle_max_compat_l, Rle_max_compat_r, H.
Qed.

(** With everything else fixed, a segment that is more congested (a smaller
    congestion ratio) or of a higher road class (a smaller [frc]) never gives
    a smaller traffic modifier, wherever it stands in the list. *)
Theorem traffic_modifier_monotone_in_segment (lat lng : R)
    (l1 l2 : list TrafficSpeedBand) :
  (forall b1 b2 c1 c2,
      same_but_congestion b1 b2 ->
      congestionRatio b1 = Some c1 -> congestionRatio b2 = Some c2 ->
      c2 <= c1 ->
      trafficModifier lat lng (l1 ++ b1 :: l2)
      <= trafficModifier lat lng (l1 ++ b2 :: l2)) /\
  (forall b1 b2 f1 f2,
      same_but_frc b1 b2 ->
      frc b1 = Some f1 -> frc b2 = Some f2 ->
      f2 <= f1 ->
      trafficModifier lat lng (l1 ++ b1 :: l2)
      <= trafficModifier lat lng (l1 ++ b2 :: l2)).
Proof.
  assert (forall b1 b2,
             startLat b1 = startLat b2 -> startLng b1 = startLng b2 ->
             endLat b1 = endLat b2 -> endLng b1 = endLng b2 ->
             roadVolumeBaseline (resolvedFrc b1)
               * congestionEmissionMultiplier (resolvedCongestion b1)
             <= roadVolumeBaseline (resolvedFrc b2)
               * congestionEmissionMultiplier (resolvedCongestion b2) ->
             maxOf (qualifyingExhausts lat lng [b1])
             <= maxOf (qualifyingExhausts lat lng [b2])) as Hcore.
  { intros b1 b2 Ha Hb Hc Hd Hle. cbn [qualifyingExhausts].
    unfold segmentExhaust, guardSkips, segmentDistance.
    rewrite Ha, Hb, Hc, Hd.
    destruct (Js.falsy (startLat b2) || Js.falsy (startLng b2))%bool; [cbn; lra|].
    destruct (startLat b2), (startLng b2), (endLat b2), (endLng b2);
      try (cbn; lra).
    match goal with |- context [Js.ltb ?d TRAFFIC_RADIUS] =>
      pose proof (pointToSegmentDist_nonneg lat lng r r0 r1 r2
                    (Js.Math_cos (lat * Js.Math_PI / 180))) as Hd0;
      destruct (ltb_spec d TRAFFIC_RADIUS) as [Hlt|]; [|cbn; lra]
    end.
    unfold maxOf, TRAFFIC_RADIUS in *. cbn [fold_right].
    apply Rle_max_compat_r.
    apply Rmult_le_compat_r; [lra | exact Hle]. }
  split.
  - intros b1 b2 c1 c2 (_ & Hn & Hs & Ha & Hb & Hc & Hd & Hf) H1 H2 Hle.
    apply trafficModifier_replace_le, Hcore; try assumption.
    unfold resolvedCongestion, resolvedFrc. rewrite H1, H2, Hf, Hn.
    pose proof (congestionEmissionMultiplier_antitone c1 c2 Hle).
    match goal with |- roadVolumeBaseline ?f * _ <= _ =>
      pose proof (roadVolumeBaseline_range f) end.
    nra.
  - intros b1 b2 f1 f2 (_ & Hn & Hs & Ha & Hb & Hc & Hd & Hcr) H1 H2 Hle.
    apply trafficModifier_replace_le, Hcore; try assumption.
    unfold resolvedCongestion, resolvedFrc. rewrite H1, H2, Hcr, Hs.
    apply (volume_emission_antitone_frc f1 f2 (speedBand b2) (congestionRatio b2) Hle).
Qed.

Lemma traffic_modifier_monotone_in_segment_witness :
  same_but_congestion expresswayBand jammedExpresswayBand /\
  same_but_frc residentialBand arterialBand /\
  trafficModifier 1.3 103.8 ([] ++ expresswayBand :: [])
  <= trafficModifier 1.3 103.8 ([] ++ jammedExpresswayBand :: []) /\
  trafficModifier 1.3 103.8 ([] ++ residentialBand :: [])
  <= trafficModifier 1.3 103.8 ([] ++ arterialBand :: []).
Proof.
  assert (same_but_congestion expresswayBand jammedExpresswayBand) as Hc
    by (repeat split).
  assert (same_but_frc residentialBand arterialBand) as Hf by (repeat split).
  assert (0.1 <= 1.0) as H1 by lra.
  assert (2 <= 6) as H2 by lra.
  split; [exact Hc|]. split; [exact Hf|]. split.
  - exact (proj1 (traffic_modifier_monotone_in_segment 1.3 103.8 [] [])
             expresswayBand jammedExpresswayBand 1.0 0.1 Hc eq_refl eq_refl H1).
  - exact (proj2 (traffic_modifier_monotone_in_segment 1.3 103.8 [] [])
             residentialBand arterialBand 6 2 Hf eq_refl eq_refl H2).
Defined.

(** ** Static base and green zones *)

Lemma greenZoneScan_inPark_nearPark (zones : list Zone) (lat lng cosLat : R) :
  inPark (greenZoneScan zones lat lng cosLat) = true ->
  nearPark (greenZoneScan zones lat lng cosLat) = true.
Proof.
  induction zones as [|zone rest IH]; cbn [greenZoneScan]; [discriminate|].
  destruct (pointInPolygon lat lng (ring zone)); [reflexivity|].
  destruct (Js.dist_lt (distToPolygonEdge lat lng (ring zone) cosLat) GREEN_BUFFER_M);
    [discriminate | exact IH].
Qed.

(** Within 60 degrees of the equator, which includes all of Singapore, the
    listed green zones never apply: [computeScore] reports the point neither
    in nor near a green zone, and the static base that it uses is the base of
    the nearest grid cell (3.0 without a grid or without cells), reported
    rounded to one decimal.  The rings of [GREEN_ZONES] are written as
    (latitude, longitude) pairs and read as (longitude, latitude) pairs. *)
Theorem green_zones_never_apply
    clockHour lat lng conditions grid hour speedBands :
  -60 <= lat <= 60 ->
  let base :=
    match speedBands with Some sb => trafficModifier lat lng sb | None => 0 end in
  let ind := industrialModifier lat lng (Js.Math_cos ((lat * Js.Math_PI) / 180)) in
  let r := computeScore clockHour lat lng conditions grid hour speedBands in
  isGreenZone r = false /\
  isNearGreenZone r = false /\
  bd_staticBase (breakdown r) = Js.Math_round (gridBase lat lng grid * 10) / 10 /\
  score r =
    Js.Math_max 1 (Js.Math_min 10
      (Js.Math_round
         ((gridBase lat lng grid + pm25ModOf conditions + windModOf conditions
           + timeModifier (hourUsed clockHour hour) + rainModOf conditions
           + Js.Math_min 4.5 (base * multiplier ind + addition ind)) * 10)
       / 10)).
Proof.
  intros Hlat base0 ind r.
  pose proof (greenZoneCheck_miss lat lng Hlat) as Hmiss.
  destruct (computeScore_score_formula clockHour lat lng conditions grid hour
              speedBands) as (Hscore & Hbd & _).
  fold r in Hscore, Hbd. fold base0 ind in Hscore.
  assert (Hused : staticBaseUsed lat lng grid = gridBase lat lng grid).
  { unfold staticBaseUsed. cbv zeta. rewrite Hmiss. reflexivity. }
  split; [|split; [|split]].
  - unfold r, computeScore. cbv zeta. cbn [isGreenZone]. now rewrite Hmiss.
  - unfold r, computeScore. cbv zeta. cbn [isNearGreenZone]. now rewrite Hmiss.
  - rewrite Hbd, Hused. reflexivity.
  - rewrite Hscore. unfold scoreWithTraffic. cbv zeta. rewrite Hused. reflexivity.
Qed.

Lemma green_zones_never_apply_witness :
  -60 <= gardensLat <= 60 /\
  isNearGreenZone
    (computeScore 0 gardensLat gardensLng None (Some oneCellGrid) (Some 8) (Some []))
  = false /\
  bd_staticBase
    (breakdown
       (computeScore 0 gardensLat gardensLng None (Some oneCellGrid) (Some 8) (Some [])))
  = Js.Math_round (gridBase gardensLat gardensLng (Some oneCellGrid) * 10) / 10.
Proof.
  assert (Hlat : -60 <= gardensLat <= 60) by (unfold gardensLat; lra).
  destruct (green_zones_never_apply 0 gardensLat gardensLng None (Some oneCellGrid)
              (Some 8) (Some []) Hlat) as (_ & Hnear & Hbase & _).
  split; [exact Hlat|]. split; [exact Hnear | exact Hbase].
Defined.

(** ** Geometry kernel *)








(** *** Ray casting on rectangles and degenerate rings *)

(** For an axis-parallel rectangle the ray-casting test is the half-open
    box: the lower bounds belong to it, the upper bounds do not. *)
Theorem point_in_rectangle (x0 y0 x1 y1 lat lng : R) :
  x0 < x1 -> y0 < y1 ->
  pointInPolygon lat lng (rectangleRing x0 y0 x1 y1) =
  ((y0 <=? lat) && (lat <? y1) && (x0 <=? lng) && (lng <? x1))%bool.
Proof.
  intros Hx Hy. unfold pointInPolygon, rectangleRing.
  cbn [ring_edges combine last removelast fold_left].
  replace ((x0 - x0) * (lat - y1) / (y0 - y1) + x0) with x0
    by (unfold Rdiv; ring).
  replace ((x1 - x1) * (lat - y0) / (y1 - y0) + x1) with x1
    by (unfold Rdiv; ring).
  unfold Js.gtb.
  destruct (ltb_spec lat y0), (ltb_spec lat y1), (leb_spec y0 lat),
    (leb_spec x0 lng), (ltb_spec lng x0), (ltb_spec lng x1);
    cbn [Bool.eqb negb andb]; try reflexivity; try lra;
    repeat match goal with
      | |- context [Js.ltb ?a ?b] => destruct (Js.ltb a b)
      end; reflexivity.
Qed.

Lemma point_in_rectangle_witness :
  1.278 < 1.284 /\ 103.861 < 103.870 /\
  pointInPolygon 103.865 1.28 (rectangleRing 1.278 103.861 1.284 103.870) = true.
Proof.
  assert (1.278 < 1.284) as Hx by lra.
  assert (103.861 < 103.870) as Hy by lra.
  split; [exact Hx|]. split; [exact Hy|].
  rewrite (point_in_rectangle 1.278 103.861 1.284 103.870 103.865 1.28 Hx Hy).
  destruct (leb_spec 103.861 103.865); [|lra].
  destruct (ltb_spec 103.865 103.870); [|lra].
  destruct (leb_spec 1.278 1.28); [|lra].
  destruct (ltb_spec 1.28 1.284); [|lra].
  reflexivity.
Defined.



(** *** Distance to a ring *)







(** ** Scoring a route *)

(** [scoreRoutePoints] keeps the samples in order, with their coordinates
    and distances; each scored point carries the result of [computeScore]
    at the hour of the clock: a score in [[1, 10]] with the band and the
    chart colour of that score, a traffic modifier in [[0, 4.5]], and the
    green-zone flag only together with the near-green-zone flag. *)
Theorem scored_points_follow_route
    clockHour (interpolated : list RoutePoint) conditions grid speedBands :
  Forall2
    (fun p s =>
       sp_lat s = rp_lat p /\ sp_lng s = rp_lng p /\ distanceM s = rp_distanceM p /\
       sp_score s =
         score (computeScore clockHour (rp_lat p) (rp_lng p) conditions grid
                  (Some clockHour) (Some speedBands)) /\
       1 <= sp_score s <= 10 /\
       sp_color s = scoreColor (sp_score s) /\
       sp_band s = b_band (getBand (sp_score s)) /\
       (exists m, sp_trafficMod s = Some m /\ 0 <= m <= 4.5) /\
       (greenZone s = true -> nearGreenZone s = true))
    interpolated
    (scoreRoutePoints clockHour interpolated conditions grid speedBands).
Proof.
  unfold scoreRoutePoints.
  induction interpolated as [|p rest IH]; cbn [map]; constructor; [|exact IH].
  cbn [sp_lat sp_lng distanceM sp_score sp_color sp_band sp_trafficMod
       greenZone nearGreenZone].
  set (r := computeScore clockHour (rp_lat p) (rp_lng p) conditions grid None
              (Some speedBands)).
  repeat (split; [reflexivity|]).
  split; [apply computeScore_score_bounds|].
  split; [apply (computeScore_colour clockHour (rp_lat p) (rp_lng p) conditions grid
                   None (Some speedBands))|].
  split; [reflexivity|]. split.
  - exists (trafficMod r). split; [reflexivity|].
    pose proof (computeScore_trafficMod_between clockHour (rp_lat p)
                  (rp_lng p) conditions grid None (Some speedBands)) as [Hlo Hhi].
    cbv zeta in Hlo, Hhi. fold r in Hlo, Hhi.
    pose proof (trafficModifier_bounds (rp_lat p) (rp_lng p) speedBands).
    split; lra.
  - intros Hg. unfold r in *. unfold computeScore in *. cbv zeta in *.
    cbn [isGreenZone isNearGreenZone] in *.
    now apply (greenZoneScan_inPark_nearPark GREEN_ZONES).
Qed.

(** ** Rating a route *)








(** [Math.max(...values)] is an element of the values and bounds them. *)
Lemma Math_max_spread_spec (first : R) (rest : list R) :
  In (Math_max_spread first rest) (first :: rest) /\
  (forall x, In x (first :: rest) -> x <= Math_max_spread first rest).
Proof.
  unfold Math_max_spread. revert first.
  induction rest as [|y rest IH]; intros first; cbn [fold_left].
  - split; [now left | intros x [<- | []]; lra].
  - destruct (IH (Js.Math_max first y)) as (Hin & Hmax). split.
    + destruct Hin as [Heq | Hin]; [|right; now right].
      rewrite <- Heq. unfold Js.Math_max.
      destruct (Rle_dec first y).
      * rewrite Rmax_right by lra. right; now left.
      * rewrite Rmax_left by lra. now left.
    + intros x [<- | [<- | Hx]].
      * eapply Rle_trans; [apply (Rmax_l first y) | apply Hmax; now left].
      * eapply Rle_trans; [apply (Rmax_r first y) | apply Hmax; now left].
      * apply Hmax. now right.
Qed.

(** * Callers and suppliers of the scoring engine: properties *)

Section Weather.

(** The rain modifier that [computeScore] derives from the classification of
    [fetchRainfall]. *)
Lemma fetchRainfall_modifier (v : R) (rest : list R) :
  let mx := Math_max_spread v rest in
  let r := fetchRainfall (v :: rest) in
  rainModifier (fst r) (snd r) =
  if mx =? 0 then 0 else if mx <? 2.5 then -1.0
  else if mx <? 7.5 then -1.5 else -2.0.
Proof.
  cbv zeta. unfold fetchRainfall.
  destruct (Math_max_spread v rest =? 0); [reflexivity|].
  destruct (Math_max_spread v rest <? 2.5); [reflexivity|].
  destruct (Math_max_spread v rest <? 7.5); reflexivity.
Qed.

(** Rainfall readings and the rain modifier.  The classification of
    [fetchRainfall] always names an intensity that [rainModifier] knows, so
    the modifier is 0, -1, -1.5 or -2 and never the fallback -0.5; it is 0
    exactly when no rain is reported, which is the case without readings or
    with greatest reading 0; more rain never gives a higher modifier; and
    readings that are all negative are reported as light rain. *)
Theorem rain_readings_to_modifier :
  let rainMod l :=
    rainModifier (fst (fetchRainfall l)) (snd (fetchRainfall l)) in
  (forall l, rainMod l = 0 \/ rainMod l = -1 \/ rainMod l = -1.5 \/ rainMod l = -2) /\
  (forall l, rainMod l = 0 <-> fst (fetchRainfall l) = false) /\
  (forall l, fst (fetchRainfall l) = false <->
             (l = [] \/ (In 0 l /\ Forall (fun v => v <= 0) l))) /\
  (forall l1 l2,
      Forall (fun v => 0 <= v) l1 ->
      (forall x, In x l1 -> exists y, In y l2 /\ x <= y) ->
      rainMod l2 <= rainMod l1) /\
  (forall l, l <> [] -> Forall (fun v => v < 0) l ->
             fetchRainfall l = (true, "Light")).
Proof.
  cbv zeta. repeat apply conj.
  - intros [|v rest]; [left; reflexivity|].
    rewrite fetchRainfall_modifier. cbv zeta. js_cases; lra.
  - intros [|v rest]; [split; reflexivity|].
    rewrite fetchRainfall_modifier. cbv zeta. unfold fetchRainfall.
    js_cases; cbn [fst]; split; intros; try discriminate; try reflexivity; lra.
  - intros [|v rest].
    { split; [now left | reflexivity]. }
    destruct (Math_max_spread_spec v rest) as (Hin & Hmax).
    unfold fetchRainfall.
    destruct (eqb_spec (Math_max_spread v rest) 0) as [H0|H0]; cbn [fst].
    + split; [|reflexivity]. intros _. right. split.
      * now rewrite <- H0.
      * apply Forall_forall. intros x Hx. rewrite <- H0. now apply Hmax.
    + split.
      * js_cases; cbn [fst]; discriminate.
      * intros [Hnil | (Hz & Hall)]; [discriminate|]. exfalso. apply H0.
        apply Rle_antisym.
        -- rewrite Forall_forall in Hall. now apply Hall.
        -- now apply Hmax.
  - intros l1 l2 Hpos Hdom.
    assert (Hrange : forall l,
               - 2 <= rainModifier (fst (fetchRainfall l)) (snd (fetchRainfall l)) <= 0).
    { intros [|v rest]; [cbn; lra|].
      rewrite fetchRainfall_modifier. cbv zeta. js_cases; lra. }
    destruct l1 as [|v1 rest1]; [cbn; apply Hrange|].
    destruct l2 as [|v2 rest2].
    { destruct (Hdom v1 (or_introl eq_refl)) as (y & [] & _). }
    rewrite !fetchRainfall_modifier. cbv zeta.
    destruct (Math_max_spread_spec v1 rest1) as (Hin1 & Hmax1).
    destruct (Math_max_spread_spec v2 rest2) as (Hin2 & Hmax2).
    rewrite Forall_forall in Hpos.
    pose proof (Hpos _ Hin1) as Hp1.
    destruct (Hdom _ Hin1) as (y & Hy & Hle).
    pose proof (Hmax2 _ Hy) as Hle2.
    js_cases; lra.
  - intros [|v rest] Hne Hneg; [congruence|].
    destruct (Math_max_spread_spec v rest) as (Hin & _).
    rewrite Forall_forall in Hneg. pose proof (Hneg _ Hin) as Hlt.
    unfold fetchRainfall. js_eval. reflexivity.
Qed.

(** Assembled conditions.  The band that [fetchAllConditions] stores agrees
    with the PM2.5 modifier of the scorer: hazardous, poor, moderate and good
    go with the modifiers 4, 3, 2 and 1, and excellent with 0 or 0.5; the
    stored value is the rounded mean of the regional readings, so it lies
    between integer bounds of the readings and is 0 without readings. *)
Theorem conditions_band_matches_modifier :
  (forall readings wind temp rainfall humid now,
      let c := fetchAllConditions (fetchPM25 readings) wind temp rainfall humid now in
      (pm25_band c = hazardous <-> pm25Modifier (pm25_value c) = 4) /\
      (pm25_band c = poor <-> pm25Modifier (pm25_value c) = 3) /\
      (pm25_band c = moderate <-> pm25Modifier (pm25_value c) = 2) /\
      (pm25_band c = good <-> pm25Modifier (pm25_value c) = 1) /\
      (pm25_band c = excellent <-> pm25Modifier (pm25_value c) <= 0.5) /\
      (exists k : Z, pm25_value c = IZR k) /\
      pm25_regions c = readings /\
      rainfall_isRaining c = fst rainfall /\
      rainfall_intensity c = snd rainfall /\
      wind_speed c = fst wind) /\
  (forall wind temp rainfall humid now,
      pm25_value (fetchAllConditions (fetchPM25 []) wind temp rainfall humid now) = 0) /\
  (forall readings (lo hi : Z),
      readings <> [] ->
      Forall (fun r => IZR lo <= snd r <= IZR hi) readings ->
      IZR lo <= fst (fetchPM25 readings) <= IZR hi).
Proof.
  repeat apply conj.
  - intros readings wind temp rainfall humid now c.
    unfold c, fetchAllConditions. cbn [pm25_band pm25_value pm25_regions
      rainfall_isRaining rainfall_intensity wind_speed].
    set (v := fst (fetchPM25 readings)).
    repeat apply conj; try reflexivity.
    1-10: unfold pm25Modifier; js_cases;
          intros; try discriminate; try reflexivity; lra.
    unfold v, fetchPM25. cbn [fst]. unfold Js.Math_round. eexists. reflexivity.
  - intros. cbn. unfold Js.Math_round. replace (0 + / 2) with (/ 2) by lra.
    rewrite (Zfloor_eq 0); [reflexivity | lra].
  - intros readings lo hi Hne Hall.
    unfold fetchPM25. cbn [fst]. rewrite length_map.
    destruct readings as [|r0 rs]; [congruence|].
    cbn [List.length Nat.ltb Nat.leb].
    apply Math_round_between.
    set (n := INR (S (List.length rs))).
    assert (Hn : 0 < n) by (apply lt_0_INR; lia).
    assert (Hsum : forall (l : list (string * R)) (a : R),
               Forall (fun r => IZR lo <= snd r <= IZR hi) l ->
               a + IZR lo * INR (List.length l)
               <= fold_left Rplus (map snd l) a
               <= a + IZR hi * INR (List.length l)).
    { induction l as [|x l IH]; intros a Hl.
      - cbn. lra.
      - inversion Hl as [|? ? Hx Hl']; subst.
        cbn [map fold_left]. specialize (IH (a + snd x) Hl').
        change (List.length (x :: l)) with (S (List.length l)).
        rewrite S_INR. nra. }
    specialize (Hsum (r0 :: rs) 0 Hall).
    change (INR (List.length (r0 :: rs))) with n in Hsum.
    rewrite !Rplus_0_l in Hsum. destruct Hsum as [Hlo Hhi].
    split.
    + apply (Rmult_le_reg_r n); [exact Hn|].
      unfold Rdiv. rewrite Rmult_assoc, Rinv_l by lra. lra.
    + apply (Rmult_le_reg_r n); [exact Hn|].
      unfold Rdiv. rewrite Rmult_assoc, Rinv_l by lra. lra.
Qed.

End Weather.

Section Compass.

Lemma roundZ_shift (x : R) (k : Z) : roundZ (x + IZR k) = (roundZ x + k)%Z.
Proof.
  unfold roundZ. apply Zfloor_eq.
  pose proof (Zfloor_bound (x + / 2)) as [H1 H2].
  rewrite plus_IZR. lra.
Qed.

Lemma roundZ_eq (z : Z) (x : R) :
  IZR z - / 2 <= x < IZR z + / 2 -> roundZ x = z.
Proof. intros H. unfold roundZ. apply Zfloor_eq. lra. Qed.

Lemma roundZ_mono (x y : R) : x <= y -> (roundZ x <= roundZ y)%Z.
Proof. intros H. unfold roundZ. apply Zfloor_le. lra. Qed.

Lemma Math_round_roundZ (x : R) : Js.Math_round x = IZR (roundZ x).
Proof. reflexivity. Qed.



End Compass.

Section XmlEscape.

Lemma append_assoc (s t u : string) : ((s ++ t) ++ u = s ++ (t ++ u))%string.
Proof. induction s as [|a s IH]; cbn [append]; [reflexivity | now rewrite IH]. Qed.

Lemma replaceChar_app (c : ascii) (rep s t : string) :
  replaceChar c rep (s ++ t) = (replaceChar c rep s ++ replaceChar c rep t)%string.
Proof.
  induction s as [|a s IH]; cbn [append replaceChar]; [reflexivity|].
  rewrite IH. destruct (Ascii.eqb a c); cbn [append]; [|reflexivity].
  symmetry. apply append_assoc.
Qed.

Lemma length_append (s t : string) :
  String.length (s ++ t) = (String.length s + String.length t)%nat.
Proof. induction s as [|a s IH]; cbn [append String.length]; [reflexivity | now rewrite IH]. Qed.

Lemma occurs_append (c : ascii) (s t : string) :
  occurs c (s ++ t) <-> occurs c s \/ occurs c t.
Proof.
  unfold occurs. induction s as [|a s IH]; cbn [append list_ascii_of_string In].
  - tauto.
  - rewrite IH. tauto.
Qed.

Lemma escapeXml_cons (a : ascii) (s : string) :
  escapeXml (String a s) = (entityOf a ++ escapeXml s)%string.
Proof.
  unfold escapeXml, entityOf. cbn [replaceChar].
  destruct (Ascii.eqb_spec a "&") as [->|Hamp].
  { rewrite !replaceChar_app. reflexivity. }
  cbn [replaceChar].
  destruct (Ascii.eqb_spec a "<") as [->|Hlt].
  { rewrite !replaceChar_app. reflexivity. }
  cbn [replaceChar].
  destruct (Ascii.eqb_spec a ">") as [->|Hgt].
  { rewrite !replaceChar_app. reflexivity. }
  cbn [replaceChar].
  destruct (Ascii.eqb_spec a quoteChar) as [->|Hq]; reflexivity.
Qed.

Lemma escapeXml_encodeEach (s : string) : escapeXml s = encodeEach s.
Proof.
  induction s as [|a s IH]; [reflexivity|].
  rewrite escapeXml_cons, IH. reflexivity.
Qed.

Lemma encodeEach_app (s t : string) :
  encodeEach (s ++ t) = (encodeEach s ++ encodeEach t)%string.
Proof.
  induction s as [|a s IH]; cbn [append encodeEach]; [reflexivity|].
  now rewrite IH, append_assoc.
Qed.

Lemma entityOf_cases (a : ascii) :
  (a = "&"%char /\ entityOf a = "&amp;") \/
  (a = "<"%char /\ entityOf a = "&lt;") \/
  (a = ">"%char /\ entityOf a = "&gt;") \/
  (a = quoteChar /\ entityOf a = "&quot;") \/
  (a <> "&"%char /\ a <> "<"%char /\ a <> ">"%char /\ a <> quoteChar /\
   entityOf a = String a EmptyString).
Proof.
  unfold entityOf.
  destruct (Ascii.eqb_spec a "&") as [->|Hamp]; [tauto|].
  destruct (Ascii.eqb_spec a "<") as [->|Hlt]; [tauto|].
  destruct (Ascii.eqb_spec a ">") as [->|Hgt]; [tauto|].
  destruct (Ascii.eqb_spec a quoteChar) as [->|Hq]; tauto.
Qed.

Lemma encodeEach_injective (s t : string) :
  encodeEach s = encodeEach t -> s = t.
Proof.
  revert t. induction s as [|a s IH]; intros [|b t] H.
  - reflexivity.
  - exfalso. cbn [encodeEach] in H.
    destruct (entityOf_cases b) as [(_ & E)|[(_ & E)|[(_ & E)|[(_ & E)|(_ & _ & _ & _ & E)]]]];
      rewrite E in H; discriminate.
  - exfalso. cbn [encodeEach] in H.
    destruct (entityOf_cases a) as [(_ & E)|[(_ & E)|[(_ & E)|[(_ & E)|(_ & _ & _ & _ & E)]]]];
      rewrite E in H; discriminate.
  - cbn [encodeEach] in H.
    destruct (entityOf_cases a)
      as [(-> & Ea)|[(-> & Ea)|[(-> & Ea)|[(-> & Ea)|(Ha1 & Ha2 & Ha3 & Ha4 & Ea)]]]];
    destruct (entityOf_cases b)
      as [(-> & Eb)|[(-> & Eb)|[(-> & Eb)|[(-> & Eb)|(Hb1 & Hb2 & Hb3 & Hb4 & Eb)]]]];
    rewrite ?Ea, ?Eb in H; cbn [append] in H;
    try (injection H as H; f_equal; now apply IH);
    try discriminate;
    try (exfalso; injection H; intros; congruence).
    injection H as -> H. f_equal. now apply IH.
Qed.

(** Escaping for the GPX export.  The four replacements in the order of the
    code amount to one pass that replaces each ampersand, angle bracket and
    double quote by its entity and keeps every other character, so the
    ampersands of the entities are not escaped again; escaping distributes
    over concatenation; the result holds no angle bracket and no double
    quote; a text without those four characters is unchanged; different
    texts have different escaped forms; and the result is at most six times
    as long as the text. *)
Theorem escapeXml_entity_encoding :
  (forall s, escapeXml s = encodeEach s) /\
  (forall s t, escapeXml (s ++ t) = (escapeXml s ++ escapeXml t)%string) /\
  (forall s c, occurs c (escapeXml s) ->
               c <> "<"%char /\ c <> ">"%char /\ c <> quoteChar) /\
  (forall s,
      (forall c, occurs c s ->
                 c <> "&"%char /\ c <> "<"%char /\ c <> ">"%char /\ c <> quoteChar) ->
      escapeXml s = s) /\
  (forall s t, escapeXml s = escapeXml t -> s = t) /\
  (forall s, (String.length s <= String.length (escapeXml s) <= 6 * String.length s)%nat).
Proof.
  repeat apply conj.
  - exact escapeXml_encodeEach.
  - intros s t. rewrite !escapeXml_encodeEach. apply encodeEach_app.
  - intros s c. rewrite escapeXml_encodeEach.
    induction s as [|a s IH]; cbn [encodeEach].
    + intros [].
    + intros H. apply occurs_append in H. destruct H as [H|H]; [|now apply IH].
      clear IH.
      destruct (entityOf_cases a)
        as [(_ & E)|[(_ & E)|[(_ & E)|[(_ & E)|(H1 & H2 & H3 & H4 & E)]]]];
        rewrite E in H; unfold occurs in H; cbn in H;
        repeat (destruct H as [<-|H]; [repeat split; (discriminate || assumption)|]);
        destruct H.
  - intros s. rewrite escapeXml_encodeEach.
    induction s as [|a s IH]; intros Hs; [reflexivity|].
    cbn [encodeEach].
    rewrite IH.
    + destruct (Hs a) as (H1 & H2 & H3 & H4); [left; reflexivity|].
      destruct (entityOf_cases a)
        as [(E & _)|[(E & _)|[(E & _)|[(E & _)|(_ & _ & _ & _ & E)]]]];
        try contradiction.
      rewrite E. reflexivity.
    + intros c Hc. apply Hs. right. exact Hc.
  - intros s t. rewrite !escapeXml_encodeEach. apply encodeEach_injective.
  - intros s. rewrite escapeXml_encodeEach.
    induction s as [|a s IH]; cbn [encodeEach String.length]; [lia|].
    rewrite length_append.
    destruct (entityOf_cases a)
      as [(_ & E)|[(_ & E)|[(_ & E)|[(_ & E)|(_ & _ & _ & _ & E)]]]];
      rewrite E; cbn [String.length]; lia.
Qed.

End XmlEscape.

Section HourlyChart.

(** *** Sampling *)

Lemma ceil_div_succ (step i : nat) :
  (1 <= step)%nat ->
  ((S i + step - 1) / step
   = (i + step - 1) / step + (if Nat.eqb (i mod step) 0 then 1 else 0))%nat.
Proof.
  intros Hs.
  pose proof (Nat.div_mod_eq i step) as Hi.
  pose proof (Nat.mod_upper_bound i step ltac:(lia)) as Hr.
  set (q := (i / step)%nat) in *. set (r := (i mod step)%nat) in *.
  destruct (Nat.eqb_spec r 0) as [H0|H0].
  - rewrite <- (Nat.div_unique (i + step - 1) step q (step - 1)) by lia.
    rewrite <- (Nat.div_unique (S i + step - 1) step (q + 1) 0) by lia.
    reflexivity.
  - rewrite <- (Nat.div_unique (i + step - 1) step (q + 1) (r - 1)) by lia.
    rewrite <- (Nat.div_unique (S i + step - 1) step (q + 1) r) by lia.
    lia.
Qed.

Lemma filterIndex_length {A : Type} (step : nat) (l : list A) (i : nat) :
  (1 <= step)%nat ->
  ((i + step - 1) / step + List.length (filterIndex step i l)
   = (i + List.length l + step - 1) / step)%nat.
Proof.
  intros Hs. revert i.
  induction l as [|p l IH]; intros i; cbn [filterIndex List.length].
  - now rewrite !Nat.add_0_r.
  - specialize (IH (S i)). rewrite ceil_div_succ in IH by exact Hs.
    replace (i + S (List.length l))%nat with (S i + List.length l)%nat by lia.
    destruct (Nat.eqb_spec (i mod step) 0); cbn [List.length]; lia.
Qed.

Lemma filterIndex_incl {A : Type} (step : nat) (l : list A) (i : nat) :
  incl (filterIndex step i l) l.
Proof.
  revert i. induction l as [|p l IH]; intros i; cbn [filterIndex].
  - apply incl_refl.
  - destruct (Nat.eqb (i mod step) 0).
    + apply incl_cons; [now left | apply incl_tl, IH].
    + apply incl_tl, IH.
Qed.

Lemma sampleStep_pos (len : nat) : (1 <= sampleStep len)%nat.
Proof. unfold sampleStep. lia. Qed.

Lemma sampled_head (p : RoutePoint) (rest : list RoutePoint) :
  exists more, sampled (p :: rest) = p :: more.
Proof.
  unfold sampled. cbn [filterIndex].
  rewrite Nat.Div0.mod_0_l.
  cbn [Nat.eqb]. eexists. reflexivity.
Qed.

Lemma sampled_length (interpolated : list RoutePoint) :
  (List.length (sampled interpolated) <= 39)%nat.
Proof.
  unfold sampled.
  set (len := List.length interpolated).
  pose proof (sampleStep_pos len) as Hs.
  pose proof (filterIndex_length (sampleStep len) interpolated 0 Hs) as H.
  fold len in H.
  replace ((0 + sampleStep len - 1) / sampleStep len)%nat with 0%nat in H
    by (symmetry; apply Nat.div_small; lia).
  cbn [Nat.add] in H. rewrite H. clear H.
  pose proof (Nat.div_mod_eq len 20) as Hd.
  pose proof (Nat.mod_upper_bound len 20 ltac:(lia)) as Hr.
  unfold sampleStep in *.
  destruct (Nat.le_gt_cases (len / 20) 1) as [Hq|Hq].
  - rewrite Nat.max_l by lia.
    rewrite Nat.div_1_r. lia.
  - rewrite Nat.max_r by lia.
    assert ((len + len / 20 - 1) / (len / 20) < 40)%nat; [|lia].
    apply Nat.Div0.div_lt_upper_bound; lia.
Qed.

(** *** The average of one hour *)

Lemma timeModifier_range (hour : R) : -0.5 <= timeModifier hour <= 1.5.
Proof. unfold timeModifier. js_cases; lra. Qed.

Lemma timeModifier_night (h : nat) : (h <= 5)%nat -> timeModifier (INR h) = -0.5.
Proof.
  intros Hh. pose proof (pos_INR h) as H0.
  assert (H5 : INR h <= 5).
  { replace 5 with (INR 5) by (simpl; lra). now apply le_INR. }
  unfold timeModifier. js_eval; reflexivity.
Qed.

Lemma timeModifier_peak (h : nat) :
  (7 <= h <= 9)%nat \/ (17 <= h <= 19)%nat -> timeModifier (INR h) = 1.5.
Proof.
  intros Hh.
  assert (Hr : 7 <= INR h <= 9 \/ 17 <= INR h <= 19).
  { destruct Hh as [[H1 H2]|[H1 H2]]; [left|right];
      apply le_INR in H1, H2; simpl in H1, H2; lra. }
  unfold timeModifier. destruct Hr; js_eval; reflexivity.
Qed.

Lemma score_monotone_in_timeModifier clockHour lat lng conditions grid h1 h2 speedBands :
  timeModifier h1 <= timeModifier h2 ->
  score (computeScore clockHour lat lng conditions grid (Some h1) speedBands)
  <= score (computeScore clockHour lat lng conditions grid (Some h2) speedBands).
Proof.
  intros H. unfold computeScore. cbv zeta. cbn [score].
  apply clamp_mono, round1_mono. lra.
Qed.

Lemma fold_Rplus_shift_le (m : list R) (u v : R) :
  u <= v -> fold_left Rplus m u <= fold_left Rplus m v.
Proof.
  revert u v. induction m as [|y m IHm]; intros u v Huv; cbn [fold_left]; [exact Huv|].
  apply IHm. lra.
Qed.

Lemma fold_Rplus_map_le {A : Type} (f g : A -> R) (l : list A) (a : R) :
  (forall p, In p l -> f p <= g p) ->
  fold_left Rplus (map f l) a <= fold_left Rplus (map g l) a.
Proof.
  revert a. induction l as [|x l IH]; intros a H; cbn [map fold_left]; [lra|].
  assert (Hx : f x <= g x) by (apply H; now left).
  eapply Rle_trans; [apply IH; intros p Hp; apply H; now right|].
  apply fold_Rplus_shift_le. lra.
Qed.

Lemma fold_Rplus_map_const {A : Type} (f : A -> R) (l : list A) (a c : R) :
  fold_left Rplus (map (fun _ => c) l) a = a + c * INR (List.length l).
Proof.
  revert a. induction l as [|x l IH]; intros a.
  - cbn. lra.
  - cbn [map fold_left]. rewrite IH.
    change (List.length (x :: l)) with (S (List.length l)). rewrite S_INR. lra.
Qed.

Lemma hourAverage_mono clockHour points conditions grid traffic (h1 h2 : nat) :
  timeModifier (INR h1) <= timeModifier (INR h2) ->
  hourAverage clockHour points conditions grid traffic h1
  <= hourAverage clockHour points conditions grid traffic h2.
Proof.
  intros H. unfold hourAverage. cbv zeta. rewrite !length_map.
  apply round1_mono.
  destruct points as [|p ps].
  { cbn. lra. }
  assert (Hn : 0 < INR (List.length (p :: ps))) by (apply lt_0_INR; cbn; lia).
  apply Rmult_le_compat_r; [left; now apply Rinv_0_lt_compat|].
  apply fold_Rplus_map_le. intros q _.
  now apply score_monotone_in_timeModifier.
Qed.

Lemma hourAverage_range clockHour points conditions grid traffic (h : nat) :
  points <> [] ->
  1 <= hourAverage clockHour points conditions grid traffic h <= 10 /\
  exists k : Z, hourAverage clockHour points conditions grid traffic h = IZR k / 10.
Proof.
  intros Hne. unfold hourAverage. cbv zeta. rewrite !length_map. split.
  - apply (round1_between 1 10).
    destruct points as [|p ps]; [congruence|].
    set (n := INR (List.length (p :: ps))).
    assert (Hn : 0 < n) by (apply lt_0_INR; cbn; lia).
    set (f := fun q : RoutePoint =>
                score (computeScore clockHour (rp_lat q) (rp_lng q) conditions grid
                         (Some (INR h)) (Some traffic))).
    pose proof (fold_Rplus_map_le (fun _ => 1) f (p :: ps) 0) as Hlo.
    pose proof (fold_Rplus_map_le f (fun _ => 10) (p :: ps) 0) as Hhi.
    rewrite (fold_Rplus_map_const f) in Hlo, Hhi.
    fold n in Hlo, Hhi.
    assert (Hf : forall q, 1 <= f q <= 10)
      by (intros q; apply computeScore_score_bounds).
    specialize (Hlo (fun q _ => proj1 (Hf q))).
    specialize (Hhi (fun q _ => proj2 (Hf q))).
    split.
    + apply (Rmult_le_reg_r n); [exact Hn|].
      unfold Rdiv. rewrite Rmult_assoc, Rinv_l by lra. lra.
    + apply (Rmult_le_reg_r n); [exact Hn|].
      unfold Rdiv. rewrite Rmult_assoc, Rinv_l by lra. lra.
  - eexists. unfold Js.Math_round. reflexivity.
Qed.

(** *** [reduce] keeps the last of the best *)

Section Reduce.

Variable avg : nat -> R.
Variable cmp : R -> R -> bool.
Variable before : R -> R -> Prop.
Hypothesis cmp_spec : forall x y, reflect (before x y) (cmp x y).
Hypothesis before_asym : forall x y, before x y -> ~ before y x.
Hypothesis before_neg_trans :
  forall x y z, ~ before x y -> ~ before y z -> ~ before x z.

Lemma reduce_keeps_last_extreme (n : nat) :
  let entry h := mkHourScore h (avg h) in
  let pick a b := if cmp (hs_avg a) (hs_avg b) then a else b in
  exists k, (k <= n)%nat /\
    fold_left pick (map entry (seq 1 n)) (entry 0%nat) = entry k /\
    (forall j, (j <= n)%nat -> ~ before (avg j) (avg k)) /\
    (forall j, (j <= n)%nat -> ~ before (avg k) (avg j) -> (j <= k)%nat).
Proof.
  intros entry pick.
  induction n as [|n (k & Hk & Hfold & Hbest & Hlast)].
  - exists 0%nat. split; [lia|]. split; [reflexivity|]. split.
    + intros j Hj. replace j with 0%nat by lia.
      intros H. exact (before_asym _ _ H H).
    + intros j Hj _. exact Hj.
  - rewrite seq_S, map_app, fold_left_app, Hfold. cbn [map fold_left Nat.add].
    unfold pick at 1.
    change (hs_avg (entry k)) with (avg k).
    change (hs_avg (entry (S n))) with (avg (S n)).
    destruct (cmp_spec (avg k) (avg (S n))) as [Hlt|Hge].
    + exists k. split; [lia|]. split; [reflexivity|]. split.
      * intros j Hj. destruct (Nat.eq_dec j (S n)) as [->|Hne].
        -- now apply before_asym.
        -- apply Hbest. lia.
      * intros j Hj Hnb. destruct (Nat.eq_dec j (S n)) as [->|Hne].
        -- contradiction.
        -- apply Hlast; [lia | exact Hnb].
    + exists (S n). split; [lia|]. split; [reflexivity|]. split.
      * intros j Hj. destruct (Nat.eq_dec j (S n)) as [->|Hne].
        -- intros H. exact (before_asym _ _ H H).
        -- apply (before_neg_trans _ (avg k)); [apply Hbest; lia | exact Hge].
      * intros j Hj _. exact Hj.
Qed.

End Reduce.

End HourlyChart.

Section BestTime.

(** The 24-hour chart of a route with at least one point.  Between 1 and 39
    route points are sampled, the first point among them; the chart has one
    entry for each hour from 0 to 23, each an average between 1 and 10 with
    one decimal; the best and the worst entry bound all averages; the best is
    the last hour with the least average and the worst the last hour with
    the greatest.  Since the time modifier is least from midnight to 5 and
    greatest in the two rush hours, the hour shown as best is never before 5
    and has the average of midnight, and the hour shown as worst is never
    before 19 and has the average of 8. *)
Theorem best_and_worst_hour
    clockHour (interpolated : list RoutePoint) conditions grid traffic :
  interpolated <> [] ->
  let hourly := hourlyScores clockHour interpolated conditions grid traffic in
  let avgAt := hourAverage clockHour (sampled interpolated) conditions grid traffic in
  (1 <= List.length (sampled interpolated) <= 39)%nat /\
  hd_error (sampled interpolated) = hd_error interpolated /\
  incl (sampled interpolated) interpolated /\
  map hs_hour hourly = seq 0 24 /\
  Forall (fun h => hs_avg h = avgAt (hs_hour h) /\
                   1 <= hs_avg h <= 10 /\
                   exists k : Z, hs_avg h = IZR k / 10) hourly /\
  exists b w,
    best hourly = Some b /\ worst hourly = Some w /\
    In b hourly /\ In w hourly /\
    (forall h, In h hourly -> hs_avg b <= hs_avg h <= hs_avg w) /\
    (forall h, In h hourly -> hs_avg h <= hs_avg b -> (hs_hour h <= hs_hour b)%nat) /\
    (forall h, In h hourly -> hs_avg w <= hs_avg h -> (hs_hour h <= hs_hour w)%nat) /\
    (5 <= hs_hour b)%nat /\ hs_avg b = avgAt 0%nat /\
    (19 <= hs_hour w)%nat /\ hs_avg w = avgAt 8%nat.
Proof.
  intros Hne hourly avgAt.
  destruct interpolated as [|p rest]; [congruence|].
  destruct (sampled_head p rest) as (more & Hs).
  assert (Hsne : sampled (p :: rest) <> []) by (rewrite Hs; discriminate).
  assert (Hrange : forall h, 1 <= avgAt h <= 10 /\ exists k : Z, avgAt h = IZR k / 10).
  { intros h. now apply hourAverage_range. }
  assert (Hmin : forall j, avgAt 0%nat <= avgAt j).
  { intros j. apply hourAverage_mono.
    rewrite (timeModifier_night 0) by lia. apply timeModifier_range. }
  assert (Hnight : forall j, (j <= 5)%nat -> avgAt j <= avgAt 0%nat).
  { intros j Hj. apply hourAverage_mono.
    rewrite (timeModifier_night 0), (timeModifier_night j) by lia. lra. }
  assert (Hmax : forall j, avgAt j <= avgAt 8%nat).
  { intros j. apply hourAverage_mono.
    rewrite (timeModifier_peak 8) by lia. apply timeModifier_range. }
  assert (Hpeak : avgAt 8%nat <= avgAt 19%nat).
  { apply hourAverage_mono.
    rewrite (timeModifier_peak 8), (timeModifier_peak 19) by lia. lra. }
  assert (Hhourly : hourly = map (fun h : nat => mkHourScore h (avgAt h)) (seq 0 24))
    by reflexivity.
  clearbody hourly avgAt. subst hourly.
  set (entry := fun h : nat => mkHourScore h (avgAt h)).
  assert (Hin : forall h, In h (map entry (seq 0 24))
                          <-> exists j, (j <= 23)%nat /\ h = entry j).
  { intros h. rewrite in_map_iff. split.
    - intros (j & <- & Hj). apply in_seq in Hj. exists j. split; [lia | reflexivity].
    - intros (j & Hj & ->). exists j. split; [reflexivity | apply in_seq; lia]. }
  split; [|split; [|split; [|split; [|split]]]].
  - split; [rewrite Hs; cbn [List.length]; lia | apply sampled_length].
  - rewrite Hs. reflexivity.
  - apply filterIndex_incl.
  - rewrite map_map. apply map_id.
  - apply Forall_forall. intros h Hh. apply Hin in Hh. destruct Hh as (j & _ & ->).
    unfold entry. cbn [hs_hour hs_avg]. split; [reflexivity | apply Hrange].
  - destruct (reduce_keeps_last_extreme avgAt Js.ltb Rlt ltb_spec
                ltac:(intros; lra) ltac:(intros; lra) 23)
      as (kb & Hkb & Hfb & Hbest & Hblast).
    destruct (reduce_keeps_last_extreme avgAt Js.gtb
                (fun x y => y < x) (fun x y => ltb_spec y x)
                ltac:(intros; lra) ltac:(intros; lra) 23)
      as (kw & Hkw & Hfw & Hworst & Hwlast).
    fold entry in Hfb, Hfw.
    change {| hs_hour := 0; hs_avg := avgAt 0%nat |} with (entry 0%nat) in Hfb, Hfw.
    change {| hs_hour := kb; hs_avg := avgAt kb |} with (entry kb) in Hfb.
    change {| hs_hour := kw; hs_avg := avgAt kw |} with (entry kw) in Hfw.
    exists (entry kb), (entry kw).
    split; [exact (f_equal Some Hfb)|].
    split; [exact (f_equal Some Hfw)|].
    split; [apply Hin; exists kb; split; [exact Hkb | reflexivity]|].
    split; [apply Hin; exists kw; split; [exact Hkw | reflexivity]|].
    change (hs_hour (entry kb)) with kb. change (hs_hour (entry kw)) with kw.
    change (hs_avg (entry kb)) with (avgAt kb).
    change (hs_avg (entry kw)) with (avgAt kw).
    split; [|split; [|split; [|split; [|split; [|split]]]]].
    + intros h Hh. apply Hin in Hh. destruct Hh as (j & Hj & ->).
      change (hs_avg (entry j)) with (avgAt j).
      pose proof (Hbest j Hj). pose proof (Hworst j Hj). lra.
    + intros h Hh Hle. apply Hin in Hh. destruct Hh as (j & Hj & ->).
      change (hs_avg (entry j)) with (avgAt j) in Hle.
      change (hs_hour (entry j)) with j.
      apply Hblast; [exact Hj | lra].
    + intros h Hh Hle. apply Hin in Hh. destruct Hh as (j & Hj & ->).
      change (hs_avg (entry j)) with (avgAt j) in Hle.
      change (hs_hour (entry j)) with j.
      apply Hwlast; [exact Hj | lra].
    + apply Hblast; [lia|].
      pose proof (Hnight 5%nat ltac:(lia)). pose proof (Hmin kb). lra.
    + apply Rle_antisym; [|apply Hmin].
      pose proof (Hbest 0%nat ltac:(lia)). lra.
    + apply Hwlast; [lia|].
      pose proof (Hmax kw). pose proof (Hmax 19%nat).
      assert (avgAt 8%nat <= avgAt 19%nat); [|lra].
      apply Hpeak.
    + apply Rle_antisym; [apply Hmax|].
      pose proof (Hworst 8%nat ltac:(lia)). lra.
Qed.

Lemma best_and_worst_hour_witness :
  let hourly := hourlyScores 0 onePointRoute None None [] in
  exists b w,
    best hourly = Some b /\ worst hourly = Some w /\
    (5 <= hs_hour b)%nat /\ (19 <= hs_hour w)%nat.
Proof.
  destruct (best_and_worst_hour 0 onePointRoute None None [])
    as (_ & _ & _ & _ & _ & b & w & Hb & Hw & _ & _ & _ & _ & _ & H5 & _ & H19 & _).
  - discriminate.
  - exists b, w. repeat split; assumption.
Defined.

End BestTime.

Section Downsample.

Context {A : Type}.

(** Downsampling a list that is longer than the target.  The result has
    [target] entries.  For a target of at least 2 the entries are taken at
    strictly increasing positions that start at the first and end at the last
    element, so every entry is an element of the list, no element is taken
    twice and the order is kept.  For a target of 1 the one entry is
    [undefined]. *)
Theorem downsample_keeps_ends_and_order (coords : list A) (target : nat) :
  (target < List.length coords)%nat ->
  List.length (downsample coords target) = target /\
  (target = 1%nat -> downsample coords target = [None]) /\
  ((2 <= target)%nat ->
   exists pos : nat -> nat,
     downsample coords target
     = map (fun i => nth_error coords (pos i)) (seq 0 target) /\
     pos 0%nat = 0%nat /\
     pos (target - 1)%nat = (List.length coords - 1)%nat /\
     (forall i j, (i < j < target)%nat -> (pos i < pos j)%nat) /\
     (forall i, (i < target)%nat -> (pos i < List.length coords)%nat) /\
     (forall e, In e (downsample coords target) ->
                exists x, e = Some x /\ In x coords) /\
     nth_error (downsample coords target) 0 = Some (nth_error coords 0) /\
     nth_error (downsample coords target) (target - 1)
     = Some (nth_error coords (List.length coords - 1))).
Proof.
  intros Hlen. unfold downsample.
  destruct (Nat.leb_spec (List.length coords) target) as [Hle|_]; [lia|].
  destruct target as [|[|t]].
  { split; [reflexivity|]. split; [discriminate | lia]. }
  { split; [reflexivity|]. split; [reflexivity | lia]. }
  set (target := S (S t)) in *.
  set (len := List.length coords) in *.
  set (step := (INR len - 1) / (INR target - 1)).
  split; [now rewrite length_map, length_seq|].
  split; [unfold target; discriminate|]. intros _.
  assert (HT : 2 <= INR target).
  { replace 2 with (INR 2) by (simpl; lra). apply le_INR. unfold target. lia. }
  assert (HL : INR target + 1 <= INR len).
  { rewrite <- S_INR. apply le_INR. lia. }
  assert (Hstep : 1 <= step).
  { unfold step. apply (Rmult_le_reg_r (INR target - 1)); [lra|].
    unfold Rdiv. rewrite Rmult_assoc, Rinv_l by lra. lra. }
  set (posZ := fun i : nat => roundZ (INR i * step)).
  assert (Hpos0 : forall i, (0 <= posZ i)%Z).
  { intros i. unfold posZ, roundZ. apply Zfloor_lub.
    pose proof (pos_INR i). assert (0 <= INR i * step) by nra. lra. }
  assert (Hinc : forall i j, (i < j)%nat -> (posZ i + 1 <= posZ j)%Z).
  { intros i j Hij. unfold posZ.
    rewrite <- (roundZ_shift (INR i * step) 1). apply roundZ_mono.
    assert (INR i + 1 <= INR j) by (rewrite <- S_INR; apply le_INR; lia).
    pose proof (pos_INR i). nra. }
  assert (Hfirst : posZ 0%nat = 0%Z).
  { unfold posZ. apply roundZ_eq. cbn [INR]. lra. }
  assert (Hlast : posZ (target - 1)%nat = Z.of_nat (len - 1)).
  { unfold posZ. apply roundZ_eq.
    rewrite <- INR_IZR_INZ, !minus_INR by lia. cbn [INR].
    replace ((INR target - 1) * step) with (INR len - 1); [lra|].
    unfold step. field. lra. }
  assert (Hbound : forall i, (i < target)%nat -> (posZ i <= Z.of_nat (len - 1))%Z).
  { intros i Hi. destruct (Nat.eq_dec i (target - 1)) as [->|Hne].
    - rewrite Hlast. lia.
    - pose proof (Hinc i (target - 1)%nat ltac:(lia)). rewrite Hlast in H. lia. }
  exists (fun i => Z.to_nat (posZ i)).
  assert (Hmap : map (fun i : nat => jsIndex coords (roundZ (INR i * step))) (seq 0 target)
                 = map (fun i : nat => nth_error coords (Z.to_nat (posZ i))) (seq 0 target)).
  { apply map_ext. intros i. unfold jsIndex. fold (posZ i).
    destruct (Z.ltb_spec (posZ i) 0) as [Hneg|_]; [|reflexivity].
    pose proof (Hpos0 i). lia. }
  rewrite Hmap.
  assert (Hlt : forall i, (i < target)%nat -> (Z.to_nat (posZ i) < len)%nat).
  { intros i Hi. pose proof (Hbound i Hi). pose proof (Hpos0 i). lia. }
  split; [reflexivity|].
  split; [rewrite Hfirst; reflexivity|].
  split; [rewrite Hlast; lia|].
  split.
  { intros i j Hij. pose proof (Hinc i j ltac:(lia)).
    pose proof (Hpos0 i). lia. }
  split; [exact Hlt|].
  split.
  { intros e He. apply in_map_iff in He. destruct He as (i & <- & Hi).
    apply in_seq in Hi.
    destruct (nth_error coords (Z.to_nat (posZ i))) as [x|] eqn:Hx.
    - exists x. split; [reflexivity|]. eapply nth_error_In; eassumption.
    - apply nth_error_None in Hx. pose proof (Hlt i ltac:(lia)). fold len in Hx. lia. }
  split.
  { unfold target. cbn [seq map nth_error]. now rewrite Hfirst. }
  rewrite nth_error_map, nth_error_seq.
  destruct (Nat.ltb_spec (target - 1) target) as [_|Hge]; [|lia].
  cbn [option_map Nat.add]. rewrite Hlast. do 2 f_equal. lia.
Qed.

End Downsample.

Lemma downsample_keeps_ends_and_order_witness :
  List.length (downsample fiveNumbers 3) = 3%nat /\
  nth_error (downsample fiveNumbers 3) 0 = Some (Some 10%nat) /\
  nth_error (downsample fiveNumbers 3) 2 = Some (Some 14%nat).
Proof.
  destruct (downsample_keeps_ends_and_order fiveNumbers 3) as (Hl & _ & H).
  - cbn. lia.
  - destruct H as (pos & _ & _ & _ & _ & _ & _ & H0 & H2); [lia|].
    split; [exact Hl|]. split; [exact H0 | exact H2].
Defined.

Section Haversine.

Lemma sin_half_sqr (x : R) : sin (x / 2) * sin (x / 2) = (1 - cos x) / 2.
Proof.
  pose proof (cos_2a_sin (x / 2)) as H.
  replace (2 * (x / 2)) with x in H by lra. lra.
Qed.

Lemma haversineTerm_range (a b : LatLng) : 0 <= haversineTerm a b <= 1.
Proof.
  unfold haversineTerm, Math_sin, Js.Math_cos, Js.Math_PI. cbv zeta.
  set (p1 := ll_lat a * PI / 180). set (p2 := ll_lat b * PI / 180).
  replace ((ll_lat b - ll_lat a) * PI / 180) with (p2 - p1) by (unfold p1, p2; lra).
  set (dl := (ll_lng b - ll_lng a) * PI / 180).
  rewrite sin_half_sqr.
  replace (cos p1 * cos p2 * sin (dl / 2) * sin (dl / 2))
    with (cos p1 * cos p2 * (sin (dl / 2) * sin (dl / 2))) by ring.
  rewrite sin_half_sqr.
  pose proof (cos_minus p2 p1) as Hm. pose proof (cos_plus p1 p2) as Hp.
  pose proof (COS_bound (p2 - p1)) as B1. pose proof (COS_bound (p1 + p2)) as B2.
  pose proof (COS_bound dl) as B3.
  set (u := (1 - cos dl) / 2). assert (Hu : 0 <= u <= 1) by (unfold u; lra).
  set (s := (1 - cos (p2 - p1)) / 2). assert (Hs : 0 <= s <= 1) by (unfold s; lra).
  set (c := cos p1 * cos p2).
  assert (Hsc : 0 <= s + c <= 1).
  { unfold s, c. rewrite Hm.
    replace ((1 - (cos p2 * cos p1 + sin p2 * sin p1)) / 2 + cos p1 * cos p2)
      with ((1 + cos (p1 + p2)) / 2) by (rewrite Hp; lra).
    lra. }
  replace (s + c * u) with ((1 - u) * s + u * (s + c)) by ring.
  split.
  - apply Rplus_le_le_0_compat; apply Rmult_le_pos; lra.
  - assert ((1 - u) * s <= (1 - u) * 1) by (apply Rmult_le_compat_l; lra).
    assert (u * (s + c) <= u * 1) by (apply Rmult_le_compat_l; lra).
    lra.
Qed.

Lemma atan_nonneg (x : R) : 0 <= x -> 0 <= atan x.
Proof.
  intros [Hx| <-]; [|rewrite atan_0; lra].
  left. rewrite <- atan_0. now apply atan_increasing.
Qed.

Lemma Math_atan2_asin (h : R) :
  0 <= h <= 1 ->
  Math_atan2 (Js.Math_sqrt h) (Js.Math_sqrt (1 - h)) = asin (sqrt h).
Proof.
  intros [H0 H1]. unfold Math_atan2, Js.Math_sqrt.
  destruct H1 as [H1|H1].
  - assert (Hs : 0 < sqrt (1 - h)) by (apply sqrt_lt_R0; lra).
    destruct (gtb_spec (sqrt (1 - h)) 0) as [_|Hn]; [|lra].
    assert (Hlt : sqrt h < 1).
    { rewrite <- sqrt_1. apply sqrt_lt_1_alt. lra. }
    pose proof (sqrt_pos h).
    rewrite asin_atan by lra.
    now rewrite Rsqr_sqrt.
  - subst h. replace (1 - 1) with 0 by lra. rewrite sqrt_0, sqrt_1.
    destruct (gtb_spec 0 0) as [Hn|_]; [lra|].
    destruct (ltb_spec 0 0) as [Hn|_]; [lra|].
    destruct (gtb_spec 1 0) as [_|Hn]; [|lra].
    now rewrite asin_1.
Qed.

Lemma asin_sqrt_range (h : R) : 0 <= h <= 1 -> 0 <= asin (sqrt h) <= PI / 2.
Proof.
  intros Hh. split; [|apply asin_bound].
  rewrite <- Math_atan2_asin by exact Hh.
  unfold Math_atan2, Js.Math_sqrt.
  pose proof (sqrt_pos h). pose proof (sqrt_pos (1 - h)). pose proof PI_RGT_0.
  destruct (gtb_spec (sqrt (1 - h)) 0) as [Hp|Hn].
  - apply atan_nonneg. apply Rmult_le_pos; [assumption|].
    left. now apply Rinv_0_lt_compat.
  - destruct (ltb_spec (sqrt (1 - h)) 0) as [Hlt|_]; [lra|].
    destruct (gtb_spec (sqrt h) 0); [lra|].
    destruct (ltb_spec (sqrt h) 0); lra.
Qed.

Lemma haversine_asin (a b : LatLng) :
  haversine a b = 6371000 * 2 * asin (sqrt (haversineTerm a b)).
Proof.
  unfold haversine. cbv zeta.
  now rewrite Math_atan2_asin by apply haversineTerm_range.
Qed.

Lemma haversineTerm_sym (a b : LatLng) : haversineTerm a b = haversineTerm b a.
Proof.
  unfold haversineTerm, Math_sin, Js.Math_cos, Js.Math_PI. cbv zeta.
  replace ((ll_lat a - ll_lat b) * PI / 180 / 2)
    with (- ((ll_lat b - ll_lat a) * PI / 180 / 2)) by lra.
  replace ((ll_lng a - ll_lng b) * PI / 180 / 2)
    with (- ((ll_lng b - ll_lng a) * PI / 180 / 2)) by lra.
  rewrite !sin_neg. ring.
Qed.

(** The arcsine of [|sin x|] within a quarter turn. *)
Lemma asin_sqrt_sin_sqr (x : R) :
  - (PI / 2) <= x <= PI / 2 -> asin (sqrt (sin x * sin x)) = Rabs x.
Proof.
  intros Hx. fold (Rsqr (sin x)). rewrite sqrt_Rsqr_abs.
  pose proof PI_RGT_0.
  destruct (Rle_dec 0 x) as [Hp|Hn].
  - rewrite (Rabs_right x) by lra.
    rewrite Rabs_right by (apply Rle_ge, sin_ge_0; lra).
    apply asin_sin. lra.
  - rewrite (Rabs_left x) by lra.
    assert (Hs : 0 <= sin (- x)) by (apply sin_ge_0; lra).
    rewrite sin_neg in Hs.
    rewrite <- Rabs_Ropp, <- sin_neg, Rabs_right by (rewrite sin_neg; lra).
    apply asin_sin. lra.
Qed.

Lemma Rabs_le_bounds (x a : R) : Rabs x <= a -> - a <= x <= a.
Proof. unfold Rabs. destruct (Rcase_abs x); lra. Qed.

Lemma sin_zero_small (x : R) : - PI < x < PI -> sin x = 0 -> x = 0.
Proof.
  intros Hx Hs. pose proof PI_RGT_0.
  destruct (sin_eq_0_0 x Hs) as (k & Hk).
  assert (Hk1 : -1 < IZR k < 1) by (split; nra).
  destruct Hk1 as [Ha Hb]. apply lt_IZR in Ha, Hb.
  assert (k = 0%Z) by lia. subst k. lra.
Qed.

(** The great-circle distance of [haversine].  The term [h] lies in [[0, 1]]
    for all coordinates, so both square roots of the code are real and the
    result is the arcsine form [2 R asin (sqrt h)] of the haversine formula;
    the distance lies between 0 and half the circumference [PI * R], does not
    depend on the direction and is 0 from a point to itself.  Along a
    meridian, and along the equator, it is exactly the arc [R * |angle|].
    Two different points with latitudes strictly between -90 and 90 and
    longitudes between -180 and 180, not both on the date line, are a
    positive distance apart. *)
Theorem haversine_great_circle :
  (forall a b, 0 <= haversineTerm a b <= 1) /\
  (forall a b, haversine a b = 6371000 * 2 * asin (sqrt (haversineTerm a b))) /\
  (forall a b, 0 <= haversine a b <= PI * 6371000) /\
  (forall a b, haversine a b = haversine b a) /\
  (forall a, haversine a a = 0) /\
  (forall a b, ll_lng a = ll_lng b -> Rabs (ll_lat b - ll_lat a) <= 180 ->
     haversine a b = 6371000 * (PI / 180) * Rabs (ll_lat b - ll_lat a)) /\
  (forall a b, ll_lat a = 0 -> ll_lat b = 0 -> Rabs (ll_lng b - ll_lng a) <= 180 ->
     haversine a b = 6371000 * (PI / 180) * Rabs (ll_lng b - ll_lng a)) /\
  (forall a b, validLatLng a -> validLatLng b ->
     Rabs (ll_lng b - ll_lng a) < 360 -> a <> b -> 0 < haversine a b).
Proof.
  pose proof PI_RGT_0 as Hpi.
  repeat apply conj.
  - exact haversineTerm_range.
  - exact haversine_asin.
  - intros a b. rewrite haversine_asin.
    pose proof (asin_sqrt_range _ (haversineTerm_range a b)). lra.
  - intros a b. rewrite !haversine_asin. now rewrite haversineTerm_sym.
  - intros a. rewrite haversine_asin.
    replace (haversineTerm a a) with 0.
    + rewrite sqrt_0, asin_0. lra.
    + unfold haversineTerm, Math_sin. cbv zeta.
      replace ((ll_lat a - ll_lat a) * Js.Math_PI / 180 / 2) with 0 by lra.
      replace ((ll_lng a - ll_lng a) * Js.Math_PI / 180 / 2) with 0 by lra.
      rewrite sin_0. ring.
  - intros a b Hlng Hlat. rewrite haversine_asin.
    unfold haversineTerm, Math_sin, Js.Math_PI. cbv zeta.
    replace ((ll_lng b - ll_lng a) * PI / 180 / 2) with 0 by (rewrite Hlng; lra).
    rewrite sin_0.
    set (x := (ll_lat b - ll_lat a) * PI / 180 / 2).
    replace (sin x * sin x + _ * 0 * 0) with (sin x * sin x) by ring.
    assert (Hx : Rabs x = PI / 360 * Rabs (ll_lat b - ll_lat a)).
    { unfold x.
      replace ((ll_lat b - ll_lat a) * PI / 180 / 2)
        with (PI / 360 * (ll_lat b - ll_lat a)) by lra.
      rewrite Rabs_mult, (Rabs_right (PI / 360)) by lra. reflexivity. }
    rewrite asin_sqrt_sin_sqr.
    + rewrite Hx. lra.
    + assert (Rabs x <= PI / 2).
      { rewrite Hx. pose proof (Rabs_pos (ll_lat b - ll_lat a)). nra. }
      apply Rabs_le_bounds in H. lra.
  - intros a b Ha Hb Hlng. rewrite haversine_asin.
    unfold haversineTerm, Math_sin, Js.Math_cos, Js.Math_PI. cbv zeta.
    rewrite Ha, Hb.
    replace ((0 - 0) * PI / 180 / 2) with 0 by lra.
    replace (0 * PI / 180) with 0 by lra.
    rewrite sin_0, cos_0.
    set (x := (ll_lng b - ll_lng a) * PI / 180 / 2).
    replace (0 * 0 + 1 * 1 * sin x * sin x) with (sin x * sin x) by ring.
    assert (Hx : Rabs x = PI / 360 * Rabs (ll_lng b - ll_lng a)).
    { unfold x.
      replace ((ll_lng b - ll_lng a) * PI / 180 / 2)
        with (PI / 360 * (ll_lng b - ll_lng a)) by lra.
      rewrite Rabs_mult, (Rabs_right (PI / 360)) by lra. reflexivity. }
    rewrite asin_sqrt_sin_sqr.
    + rewrite Hx. lra.
    + assert (Rabs x <= PI / 2).
      { rewrite Hx. pose proof (Rabs_pos (ll_lng b - ll_lng a)). nra. }
      apply Rabs_le_bounds in H. lra.
  - intros a b (Hla & Hga) (Hlb & Hgb) Hd Hne.
    pose proof (haversineTerm_range a b) as Hh.
    rewrite haversine_asin.
    pose proof (asin_sqrt_range _ Hh) as [Hlo _].
    destruct Hlo as [Hlo|Hz]; [lra|]. exfalso. apply Hne.
    assert (Hs : sqrt (haversineTerm a b) = 0).
    { rewrite <- (sin_asin (sqrt (haversineTerm a b))).
      - rewrite <- Hz. apply sin_0.
      - pose proof (sqrt_pos (haversineTerm a b)).
        split; [lra|]. rewrite <- sqrt_1. apply sqrt_le_1_alt. lra. }
    apply sqrt_eq_0 in Hs; [|lra].
    unfold haversineTerm, Math_sin, Js.Math_cos, Js.Math_PI in Hs. cbv zeta in Hs.
    set (x := (ll_lat b - ll_lat a) * PI / 180 / 2) in Hs.
    set (y := (ll_lng b - ll_lng a) * PI / 180 / 2) in Hs.
    assert (Hc1 : 0 < cos (ll_lat a * PI / 180)) by (apply cos_gt_0; nra).
    assert (Hc2 : 0 < cos (ll_lat b * PI / 180)) by (apply cos_gt_0; nra).
    assert (Hxx : 0 <= sin x * sin x) by nra.
    assert (Hyy : 0 <= sin y * sin y) by nra.
    assert (Hcc : 0 < cos (ll_lat a * PI / 180) * cos (ll_lat b * PI / 180))
      by now apply Rmult_lt_0_compat.
    assert (Hcy : 0 <= cos (ll_lat a * PI / 180) * cos (ll_lat b * PI / 180)
                       * (sin y * sin y)) by (apply Rmult_le_pos; lra).
    assert (Hsx : sin x = 0) by nra.
    assert (Hsy : sin y = 0).
    { assert (sin y * sin y = 0) by nra. nra. }
    apply sin_zero_small in Hsx; [|unfold x; nra].
    apply sin_zero_small in Hsy.
    + destruct a as [la ga], b as [lb gb]. cbn [ll_lat ll_lng] in *.
      unfold x in Hsx. unfold y in Hsy.
      f_equal; nra.
    + apply Rabs_def2 in Hd. unfold y. nra.
Qed.

End Haversine.

Section Interpolation.

Lemma haversine_nonneg (a b : LatLng) : 0 <= haversine a b.
Proof.
  rewrite haversine_asin.
  pose proof (asin_sqrt_range _ (haversineTerm_range a b)). lra.
Qed.

Lemma totalDistanceFrom_shift (prev : LatLng) (rest : list LatLng) (total : R) :
  totalDistanceFrom prev rest total = total + totalDistanceFrom prev rest 0.
Proof.
  revert prev total. induction rest as [|c rest IH]; intros prev total;
    cbn [totalDistanceFrom]; [lra|].
  rewrite (IH c (total + haversine prev c)), (IH c (0 + haversine prev c)). lra.
Qed.

Lemma totalDistanceFrom_nonneg (prev : LatLng) (rest : list LatLng) :
  0 <= totalDistanceFrom prev rest 0.
Proof.
  revert prev. induction rest as [|c rest IH]; intros prev;
    cbn [totalDistanceFrom]; [lra|].
  rewrite totalDistanceFrom_shift.
  pose proof (haversine_nonneg prev c). pose proof (IH c). lra.
Qed.

(** *** The loop on one segment *)


Lemma interpolateSegment_step fuel stepM cumDist segLen segStart segEnd nextTarget result :
  nextTarget <= cumDist + segLen ->
  interpolateSegment (S fuel) stepM cumDist segLen segStart segEnd nextTarget result
  = interpolateSegment fuel stepM cumDist segLen segStart segEnd (nextTarget + stepM)
      (result ++ [pointOnSegment segStart segEnd cumDist segLen nextTarget]).
Proof.
  intros H. cbn [interpolateSegment].
  destruct (geb_spec (cumDist + segLen) nextTarget); [reflexivity | lra].
Qed.

Lemma interpolateSegment_out stepM cumDist segLen segStart segEnd nextTarget result :
  nextTarget <= cumDist + segLen ->
  interpolateSegment 0 stepM cumDist segLen segStart segEnd nextTarget result = None.
Proof.
  intros H. cbn [interpolateSegment].
  destruct (geb_spec (cumDist + segLen) nextTarget); [reflexivity | lra].
Qed.




(** *** The loop over the segments *)


End Interpolation.

Section InterpolatedRoute.

Lemma interpolateSegment_runs_on
    fuel stepM cumDist segLen segStart segEnd nextTarget result :
  stepM <= 0 ->
  nextTarget <= cumDist + segLen ->
  interpolateSegment fuel stepM cumDist segLen segStart segEnd nextTarget result = None.
Proof.
  intros Hstep. revert nextTarget result.
  induction fuel as [|fuel IH]; intros nextTarget result H.
  - now apply interpolateSegment_out.
  - rewrite interpolateSegment_step by exact H. apply IH. lra.
Qed.




(** With a step of 0 or less the loop of [interpolateRoute] never ends on a
    track of at least two points: no amount of fuel gives a result. *)
Theorem interpolateRoute_needs_positive_step
    (c0 c1 : LatLng) (rest : list LatLng) (stepM : R) :
  stepM <= 0 ->
  forall fuel, interpolateRoute fuel (c0 :: c1 :: rest) stepM = None.
Proof.
  intros Hstep fuel. unfold interpolateRoute. cbn [interpolateSegments].
  rewrite interpolateSegment_runs_on; [reflexivity | exact Hstep |].
  pose proof (haversine_nonneg c0 c1). lra.
Qed.

Lemma interpolateRoute_needs_positive_step_witness :
  interpolateRoute 1000 twoPointTrack 0 = None.
Proof.
  apply (interpolateRoute_needs_positive_step (mkLatLng 0 0) (mkLatLng 1 0) [] 0).
  lra.
Defined.

End InterpolatedRoute.

Section NearbyBands.

Lemma nearbyBands_filter bands route radiusM :
  nearbyBands bands route radiusM
  = match route with
    | [] => []
    | _ =>
        filter (fun b =>
                  match bandMidpoint b with
                  | None => false
                  | Some mid =>
                      existsb (fun p => midpointDist p mid <? radiusM)
                        (filterIndex (Nat.max 1 (List.length route / 50)) 0 route)
                  end)
               bands
    end.
Proof. destruct bands, route; reflexivity. Qed.

Lemma midpointDist_nonneg p mid : 0 <= midpointDist p mid.
Proof. unfold midpointDist, Js.Math_sqrt. cbv zeta. apply sqrt_pos. Qed.

(** The traffic bands drawn on the map.  The filter keeps the order of the
    bands and returns only bands that have all four coordinates and whose
    midpoint is less than the radius from some point of the route; a band
    whose midpoint is that near to the first point of the route is always
    returned; a larger radius never removes a band; and with a radius of 0 or
    less, or without a route, nothing is returned. *)
Theorem nearby_bands_of_route :
  (forall bands route r, exists keep,
      nearbyBands bands route r = filter keep bands) /\
  (forall bands route r b,
      In b (nearbyBands bands route r) ->
      In b bands /\
      exists mid p, bandMidpoint b = Some mid /\ In p route /\ midpointDist p mid < r) /\
  (forall bands p rest r b mid,
      In b bands -> bandMidpoint b = Some mid -> midpointDist p mid < r ->
      In b (nearbyBands bands (p :: rest) r)) /\
  (forall bands route r1 r2,
      r1 <= r2 -> incl (nearbyBands bands route r1) (nearbyBands bands route r2)) /\
  (forall bands route r, r <= 0 -> nearbyBands bands route r = []) /\
  (forall bands r, nearbyBands bands [] r = []).
Proof.
  repeat apply conj.
  - intros bands route r. rewrite nearbyBands_filter.
    destruct route as [|p rest].
    + exists (fun _ => false). induction bands as [|b bands IH]; [reflexivity | exact IH].
    + eexists. reflexivity.
  - intros bands route r b Hb. rewrite nearbyBands_filter in Hb.
    destruct route as [|p rest]; [destruct Hb|].
    apply filter_In in Hb. destruct Hb as (Hin & Hkeep). split; [exact Hin|].
    destruct (bandMidpoint b) as [mid|]; [|discriminate].
    apply existsb_exists in Hkeep. destruct Hkeep as (q & Hq & Hlt).
    exists mid, q. split; [reflexivity|]. split.
    + eapply filterIndex_incl; exact Hq.
    + destruct (ltb_spec (midpointDist q mid) r); [assumption | discriminate].
  - intros bands p rest r b mid Hin Hmid Hlt. rewrite nearbyBands_filter.
    apply filter_In. split; [exact Hin|]. rewrite Hmid.
    apply existsb_exists. exists p. split.
    + cbn [filterIndex]. rewrite Nat.Div0.mod_0_l. now left.
    + destruct (ltb_spec (midpointDist p mid) r); [reflexivity | contradiction].
  - intros bands route r1 r2 Hr b Hb. rewrite nearbyBands_filter in *.
    destruct route as [|p rest]; [destruct Hb|].
    apply filter_In in Hb. destruct Hb as (Hin & Hkeep).
    apply filter_In. split; [exact Hin|].
    destruct (bandMidpoint b) as [mid|]; [|discriminate].
    apply existsb_exists in Hkeep. destruct Hkeep as (q & Hq & Hlt).
    apply existsb_exists. exists q. split; [exact Hq|].
    destruct (ltb_spec (midpointDist q mid) r1); [|discriminate].
    destruct (ltb_spec (midpointDist q mid) r2); [reflexivity | lra].
  - intros bands route r Hr. rewrite nearbyBands_filter.
    destruct route as [|p rest]; [reflexivity|].
    induction bands as [|b bands IH]; [reflexivity|].
    cbn [filter]. rewrite IH.
    destruct (bandMidpoint b) as [mid|]; [|reflexivity].
    replace (existsb _ _) with false; [reflexivity|].
    symmetry. apply not_true_is_false. intros H.
    apply existsb_exists in H. destruct H as (q & _ & Hlt).
    pose proof (midpointDist_nonneg q mid).
    destruct (ltb_spec (midpointDist q mid) r); [lra | discriminate].
  - intros bands r. now rewrite nearbyBands_filter.
Qed.

End NearbyBands.

Section TrackLength.

Lemma totalDistance_cons (a b : LatLng) (rest : list LatLng) :
  totalDistance (a :: b :: rest) = haversine a b + totalDistance (b :: rest).
Proof.
  cbn [totalDistance totalDistanceFrom]. rewrite totalDistanceFrom_shift. lra.
Qed.

Lemma totalDistance_app (l1 l2 : list LatLng) (p : LatLng) :
  totalDistance (l1 ++ p :: l2) = totalDistance (l1 ++ [p]) + totalDistance (p :: l2).
Proof.
  induction l1 as [|a l1 IH].
  - cbn [app totalDistance totalDistanceFrom]. lra.
  - destruct l1 as [|b l1].
    + cbn [app]. rewrite totalDistance_cons.
      cbn [totalDistance totalDistanceFrom]. lra.
    + cbn [app] in *. rewrite !totalDistance_cons, IH. lra.
Qed.

(** The length of a track.  It is 0 for a track of fewer than two points
    and the haversine distance for two; a further point adds its distance
    from the point that was last, so the length is never negative and never
    gets smaller when the track is extended. *)
Theorem track_length_accumulates :
  totalDistance [] = 0 /\
  (forall c, totalDistance [c] = 0) /\
  (forall a b, totalDistance [a; b] = haversine a b) /\
  (forall l q p,
      totalDistance (l ++ [q; p]) = totalDistance (l ++ [q]) + haversine q p) /\
  (forall coords, 0 <= totalDistance coords) /\
  (forall coords p, totalDistance coords <= totalDistance (coords ++ [p])).
Proof.
  assert (Hsnoc : forall l q p,
             totalDistance (l ++ [q; p]) = totalDistance (l ++ [q]) + haversine q p).
  { intros l q p. rewrite totalDistance_app.
    cbn [totalDistance totalDistanceFrom]. lra. }
  repeat apply conj.
  - reflexivity.
  - reflexivity.
  - intros a b. cbn [totalDistance totalDistanceFrom]. lra.
  - exact Hsnoc.
  - intros [|c rest]; [cbn; lra | apply totalDistanceFrom_nonneg].
  - intros coords p. destruct coords as [|c rest].
    + cbn. lra.
    + destruct (exists_last (l := c :: rest)) as (l & q & E); [discriminate|].
      rewrite E, <- app_assoc. cbn [app]. rewrite Hsnoc.
      pose proof (haversine_nonneg q p). lra.
Qed.

End TrackLength.
